(** * The incoming-packet decoder of python-zeroconf

    A shallow embedding of [src/zeroconf/_protocol/incoming.py]
    (class [DNSIncoming]) and the properties of its specification.

    Conventions of the embedding:
    - a Python [int] is a [Z]; a [bytes] object is a [list byte];
      a [str] is the list of its code points;
    - the decoder object is the record [DNSIncoming]; a method is a function
      from the object to an [outcome] and the mutated object, so that the
      mutations done before an exception is raised are kept, as in Python;
    - [name_cache] is a [gmap], [seen_pointers] a [gset];
    - the two [while] loops take a fuel argument and yield [Timeout] when it
      runs out; the methods call them with a fuel computed from the buffer,
      and [Timeout] is proved unreachable;
    - logging has no effect on the decoder: the handlers are modelled
      without it, and [_log_exception_debug] is modelled on its own, over
      the dictionary [_seen_logs]; the interpreter's recursion limit is not
      modelled;
    - [__repr__] returns a [string]; [repr] of a question and of a record,
      defined outside this module, are parameters of it. *)

From Stdlib Require Import ZArith List Lia Bool.
From Stdlib Require Import Init.Byte.
From stdpp Require Import base option list gmap sorting strings pretty.

Local Open Scope Z_scope.

(** ** Bytes, slices and [struct] *)

Abbreviation bytes := (list byte).

(** A [str]: the sequence of its code points. *)
Abbreviation str := (list Z).

Definition ord (b : byte) : Z := Z.of_N (Byte.to_N b).

Definition len {A} (l : list A) : Z := Z.of_nat (length l).

(** [d[i]]: [None] stands for [IndexError]. A negative index counts from the
    end, as in Python. *)
Definition getitem (d : bytes) (i : Z) : option Z :=
  if i <? 0
  then if len d + i <? 0 then None else ord <$> d !! Z.to_nat (len d + i)
  else ord <$> d !! Z.to_nat i.

(** The bound of a slice, clamped as Python does. *)
Definition slice_index (n i : Z) : Z :=
  if i <? 0 then Z.max 0 (n + i) else Z.min i n.

(** [d[a:b]]: never fails, truncates at the ends of the buffer. *)
Definition getslice (d : bytes) (a b : Z) : bytes :=
  let a' := slice_index (len d) a in
  let b' := slice_index (len d) b in
  take (Z.to_nat (b' - a')) (drop (Z.to_nat a') d).

(** The [size] bytes that [struct.Struct(fmt).unpack_from(d, off)] reads;
    [None] stands for [struct.error]. *)
Definition unpack_from (size : Z) (d : bytes) (off : Z) : option bytes :=
  if off <? 0
  then if (0 <? off + size) || (off + len d <? 0) then None
       else Some (take (Z.to_nat size) (drop (Z.to_nat (off + len d)) d))
  else if len d - off <? size then None
       else Some (take (Z.to_nat size) (drop (Z.to_nat off) d)).

(** Big-endian unsigned value of a byte string. *)
Definition be_uint (bs : bytes) : Z :=
  fold_left (fun acc b => acc * 256 + ord b) bs 0.

(** Big-endian two's complement value of a [w]-byte string. *)
Definition be_sint (w : Z) (bs : bytes) : Z :=
  let u := be_uint bs in
  if u <? 2 ^ (8 * w - 1) then u else u - 2 ^ (8 * w).

(** The field of [width] bytes at byte [pos] of an unpacked block. *)
Definition field (bs : bytes) (pos width : nat) : bytes :=
  take width (drop pos bs).

(** [UNPACK_6H = struct.Struct(b'!6H').unpack_from] *)
Definition UNPACK_6H (d : bytes) (off : Z) : option (Z * Z * Z * Z * Z * Z) :=
  bs ← unpack_from 12 d off;
  Some (be_uint (field bs 0 2), be_uint (field bs 2 2), be_uint (field bs 4 2),
        be_uint (field bs 6 2), be_uint (field bs 8 2), be_uint (field bs 10 2)).

(** [UNPACK_3H = struct.Struct(b'!3H').unpack_from] *)
Definition UNPACK_3H (d : bytes) (off : Z) : option (Z * Z * Z) :=
  bs ← unpack_from 6 d off;
  Some (be_uint (field bs 0 2), be_uint (field bs 2 2), be_uint (field bs 4 2)).

(** [UNPACK_HH = struct.Struct(b'!HH').unpack_from] *)
Definition UNPACK_HH (d : bytes) (off : Z) : option (Z * Z) :=
  bs ← unpack_from 4 d off;
  Some (be_uint (field bs 0 2), be_uint (field bs 2 2)).

(** [UNPACK_HHiH = struct.Struct(b'!HHiH').unpack_from] *)
Definition UNPACK_HHiH (d : bytes) (off : Z) : option (Z * Z * Z * Z) :=
  bs ← unpack_from 10 d off;
  Some (be_uint (field bs 0 2), be_uint (field bs 2 2),
        be_sint 4 (field bs 4 4), be_uint (field bs 8 2)).

(** ** The UTF-8 codec of [bytes.decode]

    [utf8_scan] cuts a byte string into scalar values ([Some]) and ill-formed
    subsequences ([None], one per maximal ill-formed subpart), following the
    table of well-formed UTF-8 byte sequences. *)

Definition in_range (lo hi b : Z) : bool := (lo <=? b) && (b <=? hi).

Definition cont (b : Z) : Z := Z.land b 0x3F.

Fixpoint utf8_scan (bs : list Z) : list (option Z) :=
  match bs with
  | [] => []
  | b0 :: r0 =>
    if b0 <? 0x80 then Some b0 :: utf8_scan r0
    else if b0 <? 0xC2 then None :: utf8_scan r0
    else if b0 <? 0xE0 then
      match r0 with
      | [] => [None]
      | b1 :: r1 =>
        if in_range 0x80 0xBF b1
        then Some (Z.land b0 0x1F * 64 + cont b1) :: utf8_scan r1
        else None :: utf8_scan r0
      end
    else if b0 <? 0xF0 then
      let lo := if b0 =? 0xE0 then 0xA0 else 0x80 in
      let hi := if b0 =? 0xED then 0x9F else 0xBF in
      match r0 with
      | [] => [None]
      | b1 :: r1 =>
        if in_range lo hi b1 then
          match r1 with
          | [] => [None]
          | b2 :: r2 =>
            if in_range 0x80 0xBF b2
            then Some (Z.land b0 0x0F * 4096 + cont b1 * 64 + cont b2)
                 :: utf8_scan r2
            else None :: utf8_scan r1
          end
        else None :: utf8_scan r0
      end
    else if b0 <? 0xF5 then
      let lo := if b0 =? 0xF0 then 0x90 else 0x80 in
      let hi := if b0 =? 0xF4 then 0x8F else 0xBF in
      match r0 with
      | [] => [None]
      | b1 :: r1 =>
        if in_range lo hi b1 then
          match r1 with
          | [] => [None]
          | b2 :: r2 =>
            if in_range 0x80 0xBF b2 then
              match r2 with
              | [] => [None]
              | b3 :: r3 =>
                if in_range 0x80 0xBF b3
                then Some (Z.land b0 0x07 * 262144 + cont b1 * 4096
                           + cont b2 * 64 + cont b3) :: utf8_scan r3
                else None :: utf8_scan r2
              end
            else None :: utf8_scan r1
          end
        else None :: utf8_scan r0
      end
    else None :: utf8_scan r0
  end.

(** [bs.decode('utf-8', 'replace')]: every ill-formed subpart becomes
    U+FFFD. *)
Definition decode_replace (bs : bytes) : str :=
  map (fun c => default 0xFFFD c) (utf8_scan (map ord bs)).

(** [bs.decode('utf-8')]: [None] stands for [UnicodeDecodeError]. *)
Definition decode_strict (bs : bytes) : option str :=
  mapM id (utf8_scan (map ord bs)).

(** ** Constants *)

Definition DNS_COMPRESSION_HEADER_LEN : Z := 1.
Definition DNS_COMPRESSION_POINTER_LEN : Z := 2.
Definition MAX_DNS_LABELS : Z := 128.
Definition MAX_NAME_LENGTH : Z := 253.

(** Modelled from the spec: the module [zeroconf.const] is missing. The spec
    names one QR bit and one TC bit of [flags] and takes the numeric values
    of the record types "as defined by standard DNS" (RFC 1035, RFC 2782,
    RFC 3596, RFC 4034). *)
Definition _FLAGS_QR_MASK : Z := 0x8000.
Definition _FLAGS_QR_QUERY : Z := 0x0000.
Definition _FLAGS_QR_RESPONSE : Z := 0x8000.
Definition _FLAGS_TC : Z := 0x0200.
Definition _TYPE_A : Z := 1.
Definition _TYPE_CNAME : Z := 5.
Definition _TYPE_PTR : Z := 12.
Definition _TYPE_HINFO : Z := 13.
Definition _TYPE_TXT : Z := 16.
Definition _TYPE_AAAA : Z := 28.
Definition _TYPE_SRV : Z := 33.
Definition _TYPE_NSEC : Z := 47.

(** ** Exceptions and outcomes *)

Inductive exn := IndexError | struct_error | IncomingDecodeError | UnicodeDecodeError.

(** [DECODE_EXCEPTIONS = (IndexError, struct.error, IncomingDecodeError)]:
    what the [except] clauses of the decoder catch. [UnicodeDecodeError] is a
    [ValueError] and is none of the three. *)
Definition DECODE_EXCEPTIONS (e : exn) : bool :=
  match e with
  | IndexError | struct_error | IncomingDecodeError => true
  | UnicodeDecodeError => false
  end.

Inductive outcome (A : Type) :=
| Return (a : A)
| Raise (e : exn)
| Timeout.
Arguments Return {A} a.
Arguments Raise {A} e.
Arguments Timeout {A}.

(** ** Decoded values

    The classes of [zeroconf._dns] are not part of the decoder: a decoded
    value is the constructor applied to the arguments the decoder passes. *)

Inductive DNSQuestion_t :=
| DNSQuestion (name : str) (type_ class_ : Z).

Inductive DNSRecord :=
| DNSAddress (name : str) (type_ class_ ttl : Z) (address : bytes)
             (created : Z) (scope_id : option Z)
| DNSPointer (name : str) (type_ class_ ttl : Z) (alias : str) (created : Z)
| DNSText (name : str) (type_ class_ ttl : Z) (text : bytes) (created : Z)
| DNSService (name : str) (type_ class_ ttl : Z) (priority weight port : Z)
             (server : str) (created : Z)
| DNSHinfo (name : str) (type_ class_ ttl : Z) (cpu os : str) (created : Z)
| DNSNsec (name : str) (type_ class_ ttl : Z) (next_name : str)
          (rdtypes : list Z) (created : Z).

(** ** The decoder object *)

Record DNSIncoming := mkDNSIncoming {
  _did_read_others : bool;
  flags : Z;
  offset : Z;
  data : bytes;
  name_cache : gmap Z (list str);
  questions : list DNSQuestion_t;
  _answers : list DNSRecord;
  id : Z;
  num_questions : Z;
  num_answers : Z;
  num_authorities : Z;
  num_additionals : Z;
  valid : bool;
  now : Z;
  scope_id : option Z;
  source : option (str * Z)
}.

(** [self._data_len], set once to [len(data)]; [data] is never reassigned. *)
Definition _data_len (s : DNSIncoming) : Z := len (data s).

Definition set_did_read_others (b : bool) (s : DNSIncoming) : DNSIncoming :=
  mkDNSIncoming b (flags s) (offset s) (data s) (name_cache s) (questions s)
    (_answers s) (id s) (num_questions s) (num_answers s) (num_authorities s)
    (num_additionals s) (valid s) (now s) (scope_id s) (source s).

Definition set_offset (o : Z) (s : DNSIncoming) : DNSIncoming :=
  mkDNSIncoming (_did_read_others s) (flags s) o (data s) (name_cache s)
    (questions s) (_answers s) (id s) (num_questions s) (num_answers s)
    (num_authorities s) (num_additionals s) (valid s) (now s) (scope_id s)
    (source s).

Definition set_name_cache (c : gmap Z (list str)) (s : DNSIncoming) : DNSIncoming :=
  mkDNSIncoming (_did_read_others s) (flags s) (offset s) (data s) c
    (questions s) (_answers s) (id s) (num_questions s) (num_answers s)
    (num_authorities s) (num_additionals s) (valid s) (now s) (scope_id s)
    (source s).

Definition set_questions (q : list DNSQuestion_t) (s : DNSIncoming) : DNSIncoming :=
  mkDNSIncoming (_did_read_others s) (flags s) (offset s) (data s)
    (name_cache s) q (_answers s) (id s) (num_questions s) (num_answers s)
    (num_authorities s) (num_additionals s) (valid s) (now s) (scope_id s)
    (source s).

Definition set_answers (a : list DNSRecord) (s : DNSIncoming) : DNSIncoming :=
  mkDNSIncoming (_did_read_others s) (flags s) (offset s) (data s)
    (name_cache s) (questions s) a (id s) (num_questions s) (num_answers s)
    (num_authorities s) (num_additionals s) (valid s) (now s) (scope_id s)
    (source s).

Definition set_header (h : Z * Z * Z * Z * Z * Z) (s : DNSIncoming) : DNSIncoming :=
  let '(i, f, nq, nan, nau, nad) := h in
  mkDNSIncoming (_did_read_others s) f (offset s) (data s) (name_cache s)
    (questions s) (_answers s) i nq nan nau nad (valid s) (now s)
    (scope_id s) (source s).

Definition set_valid (b : bool) (s : DNSIncoming) : DNSIncoming :=
  mkDNSIncoming (_did_read_others s) (flags s) (offset s) (data s)
    (name_cache s) (questions s) (_answers s) (id s) (num_questions s)
    (num_answers s) (num_authorities s) (num_additionals s) b (now s)
    (scope_id s) (source s).

(** ** The monad of methods: state that survives an exception *)

Definition M (A : Type) : Type := DNSIncoming -> outcome A * DNSIncoming.

Definition ret {A} (a : A) : M A := fun s => (Return a, s).

Definition raise {A} (e : exn) : M A := fun s => (Raise e, s).

Definition bind {A B} (m : M A) (k : A -> M B) : M B := fun s =>
  match m s with
  | (Return a, s') => k a s'
  | (Raise e, s') => (Raise e, s')
  | (Timeout, s') => (Timeout, s')
  end.

Notation "x <~ m ;; k" := (bind m (fun x => k))
  (at level 100, m at next level, right associativity).
Notation "m ;;; k" := (bind m (fun _ => k))
  (at level 100, right associativity).

(** [try: m  except DECODE_EXCEPTIONS: h] *)
Definition try_except {A} (m : M A) (h : M A) : M A := fun s =>
  match m s with
  | (Raise e, s') => if DECODE_EXCEPTIONS e then h s' else (Raise e, s')
  | r => r
  end.

Definition get {A} (f : DNSIncoming -> A) : M A := fun s => (Return (f s), s).

Definition modify (f : DNSIncoming -> DNSIncoming) : M unit := fun s => (Return tt, f s).

(** A read of the object that raises [e] when it yields [None]. *)
Definition get_or_raise {A} (e : exn) (f : DNSIncoming -> option A) : M A := fun s =>
  match f s with
  | Some a => (Return a, s)
  | None => (Raise e, s)
  end.

(** ** Name decompression *)

(** What one call of [_decode_labels_at_offset] leaves behind: its outcome,
    the final content of the list object [labels] it appended to, of the set
    object [seen_pointers], and of [self.name_cache]. The contents are given
    for every outcome, since the objects are mutated in place. *)
Record decoded := mkDecoded {
  dr_out : outcome Z;
  dr_labels : list str;
  dr_seen : gset Z;
  dr_cache : gmap Z (list str)
}.

(** [_decode_labels_at_offset(off, labels, seen_pointers)] on the buffer [d]
    and the cache [cache]. One unit of fuel is spent per iteration of the
    [while] loop and per recursive call.

    Aliasing: [linked_labels = self.name_cache.get(link, [])] is the list
    object stored in the cache when the key is present, a fresh list
    otherwise. The recursive call is made only when that list is empty and
    appends to it in place; so when the key was present the cache entry
    holds what the call appended even if the call raises. *)
Fixpoint _decode_labels_at_offset (fuel : nat) (d : bytes)
    (cache : gmap Z (list str)) (off : Z) (labels : list str)
    (seen_pointers : gset Z) : decoded :=
  match fuel with
  | O => mkDecoded Timeout labels seen_pointers cache
  | S fuel =>
    if off <? len d then
      match getitem d off with
      | None => mkDecoded (Raise IndexError) labels seen_pointers cache
      | Some length =>
        if length =? 0 then
          mkDecoded (Return (off + DNS_COMPRESSION_HEADER_LEN)) labels
            seen_pointers cache
        else if length <? 0x40 then
          let label_idx := off + DNS_COMPRESSION_HEADER_LEN in
          _decode_labels_at_offset fuel d cache
            (off + (DNS_COMPRESSION_HEADER_LEN + length))
            (labels ++ [decode_replace (getslice d label_idx (label_idx + length))])
            seen_pointers
        else if length <? 0xC0 then
          mkDecoded (Raise IncomingDecodeError) labels seen_pointers cache
        else
          match getitem d (off + 1) with
          | None => mkDecoded (Raise IndexError) labels seen_pointers cache
          | Some low =>
            let link := Z.land length 0x3F * 256 + low in
            if len d <? link then
              mkDecoded (Raise IncomingDecodeError) labels seen_pointers cache
            else if link =? off then
              mkDecoded (Raise IncomingDecodeError) labels seen_pointers cache
            else if bool_decide (link ∈ seen_pointers) then
              mkDecoded (Raise IncomingDecodeError) labels seen_pointers cache
            else
              match default [] (cache !! link) with
              | [] =>
                let r := _decode_labels_at_offset fuel d cache link []
                           ({[link]} ∪ seen_pointers) in
                match dr_out r with
                | Return _ =>
                  let labels' := labels ++ dr_labels r in
                  mkDecoded
                    (if MAX_DNS_LABELS <? len labels'
                     then Raise IncomingDecodeError
                     else Return (off + DNS_COMPRESSION_POINTER_LEN))
                    labels' (dr_seen r) (<[link := dr_labels r]> (dr_cache r))
                | Raise e =>
                  mkDecoded (Raise e) labels (dr_seen r)
                    (match cache !! link with
                     | Some _ => <[link := dr_labels r]> (dr_cache r)
                     | None => dr_cache r
                     end)
                | Timeout => mkDecoded Timeout labels (dr_seen r) (dr_cache r)
                end
              | linked_labels =>
                let labels' := labels ++ linked_labels in
                mkDecoded
                  (if MAX_DNS_LABELS <? len labels'
                   then Raise IncomingDecodeError
                   else Return (off + DNS_COMPRESSION_POINTER_LEN))
                  labels' seen_pointers cache
              end
          end
      end
    else mkDecoded (Raise IncomingDecodeError) labels seen_pointers cache
  end.

(** Fuel that the label loop cannot exhaust when it starts at [off] with no
    pointer seen yet. *)
Definition name_fuel (d : bytes) (off : Z) : nat :=
  Z.to_nat ((len d + 1) * (len d + 2) + Z.max 0 (len d - off) + 1).

(** [".".join(labels) + "."] *)
Definition dot : Z := 46.

Fixpoint join_dot (labels : list str) : str :=
  match labels with
  | [] => []
  | [l] => l
  | l :: ls => l ++ dot :: join_dot ls
  end.

Definition _read_name : M str := fun s =>
  let original_offset := offset s in
  let r := _decode_labels_at_offset (name_fuel (data s) original_offset)
             (data s) (name_cache s) original_offset [] ∅ in
  match dr_out r with
  | Return off' =>
    let s' := set_name_cache (<[original_offset := dr_labels r]> (dr_cache r))
                (set_offset off' s) in
    let name := join_dot (dr_labels r) ++ [dot] in
    if MAX_NAME_LENGTH <? len name
    then (Raise IncomingDecodeError, s')
    else (Return name, s')
  | Raise e => (Raise e, set_name_cache (dr_cache r) s)
  | Timeout => (Timeout, set_name_cache (dr_cache r) s)
  end.

(** ** Cursor reads *)

Definition _unpack {A} (unpacker : bytes -> Z -> option A) (length : Z) : M A :=
  modify (fun s => set_offset (offset s + length) s);;;
  get_or_raise struct_error (fun s => unpacker (data s) (offset s - length)).

Definition _read_header : M unit :=
  h <~ _unpack UNPACK_6H 12;;
  modify (set_header h).

(** The list comprehension of [_read_questions]: the list under
    construction is a temporary. *)
Fixpoint read_question_list (n : nat) : M (list DNSQuestion_t) :=
  match n with
  | O => ret []
  | S n =>
    name <~ _read_name;;
    tc <~ _unpack UNPACK_HH 4;;
    qs <~ read_question_list n;;
    ret (DNSQuestion name tc.1 tc.2 :: qs)
  end.

Definition _read_questions : M unit :=
  n <~ get num_questions;;
  qs <~ read_question_list (Z.to_nat n);;
  modify (set_questions qs).

Definition _read_string (length : Z) : M bytes :=
  info <~ get (fun s => getslice (data s) (offset s) (offset s + length));;
  modify (fun s => set_offset (offset s + length) s);;;
  ret info.

Definition _read_character_string : M bytes :=
  length <~ get_or_raise IndexError (fun s => getitem (data s) (offset s));;
  modify (fun s => set_offset (offset s + 1) s);;;
  _read_string length.

(** [b.decode('utf-8')] *)
Definition decode_utf8 (b : bytes) : M str :=
  get_or_raise UnicodeDecodeError (fun _ => decode_strict b).

(** ** The NSEC bitmap *)

(** The loop over [bit in range(0, 8)] for the byte of index [i]. *)
Definition byte_types (window i byte : Z) : list Z :=
  flat_map (fun bit =>
              if Z.land byte (Z.shiftr 0x80 bit) =? 0 then []
              else [bit + window * 256 + i * 8])
           (seqZ 0 8).

(** The loop over [enumerate] of the bitmap bytes of one window. *)
Definition window_types (window : Z) (bitmap : bytes) : list Z :=
  concat (imap (fun i b => byte_types window (Z.of_nat i) (ord b)) bitmap).

Fixpoint read_bitmap_loop (fuel : nat) (end_ : Z) (rdtypes : list Z) : M (list Z) :=
  match fuel with
  | O => fun s => (Timeout, s)
  | S fuel =>
    off <~ get offset;;
    if off <? end_ then
      window <~ get_or_raise IndexError (fun s => getitem (data s) off);;
      bitmap_length <~ get_or_raise IndexError (fun s => getitem (data s) (off + 1));;
      bitmap <~ get (fun s => getslice (data s) (off + 2) (off + 2 + bitmap_length));;
      modify (set_offset (off + (2 + bitmap_length)));;;
      read_bitmap_loop fuel end_ (rdtypes ++ window_types window bitmap)
    else ret rdtypes
  end.

(** Fuel that the bitmap loop cannot exhaust when the cursor is at [off]. *)
Definition bitmap_fuel (d : bytes) (off : Z) : nat :=
  Z.to_nat (Z.max 0 (len d - off) + 1).

Definition _read_bitmap (end_ : Z) : M (list Z) := fun s =>
  read_bitmap_loop (bitmap_fuel (data s) (offset s)) end_ [] s.

(** ** Records *)

Definition _read_record (domain : str) (type_ class_ ttl length : Z)
    : M (option DNSRecord) :=
  now_ <~ get now;;
  if type_ =? _TYPE_A then
    a <~ _read_string 4;;
    ret (Some (DNSAddress domain type_ class_ ttl a now_ None))
  else if (type_ =? _TYPE_CNAME) || (type_ =? _TYPE_PTR) then
    alias <~ _read_name;;
    ret (Some (DNSPointer domain type_ class_ ttl alias now_))
  else if type_ =? _TYPE_TXT then
    t <~ _read_string length;;
    ret (Some (DNSText domain type_ class_ ttl t now_))
  else if type_ =? _TYPE_SRV then
    pwp <~ _unpack UNPACK_3H 6;;
    server <~ _read_name;;
    ret (Some (DNSService domain type_ class_ ttl pwp.1.1 pwp.1.2 pwp.2 server now_))
  else if type_ =? _TYPE_HINFO then
    c <~ _read_character_string;;
    cpu <~ decode_utf8 c;;
    o <~ _read_character_string;;
    os <~ decode_utf8 o;;
    ret (Some (DNSHinfo domain type_ class_ ttl cpu os now_))
  else if type_ =? _TYPE_AAAA then
    a <~ _read_string 16;;
    sc <~ get scope_id;;
    ret (Some (DNSAddress domain type_ class_ ttl a now_ sc))
  else if type_ =? _TYPE_NSEC then
    name_start <~ get offset;;
    next <~ _read_name;;
    rdtypes <~ _read_bitmap (name_start + length);;
    ret (Some (DNSNsec domain type_ class_ ttl next rdtypes now_))
  else
    modify (fun s => set_offset (offset s + length) s);;;
    ret None.

(** The body of the [for] loop of [_read_others]. *)
Definition read_other : M unit :=
  domain <~ _read_name;;
  h <~ get_or_raise struct_error (fun s => UNPACK_HHiH (data s) (offset s));;
  let '(type_, class_, ttl, length) := h in
  modify (fun s => set_offset (offset s + 10) s);;;
  end_ <~ get (fun s => offset s + length);;
  rec <~ try_except (_read_record domain type_ class_ ttl length)
           (modify (set_offset end_);;; ret None);;
  match rec with
  | Some r => modify (fun s => set_answers (_answers s ++ [r]) s)
  | None => ret tt
  end.

Fixpoint repeat_m (n : nat) (body : M unit) : M unit :=
  match n with
  | O => ret tt
  | S n => body;;; repeat_m n body
  end.

Definition _read_others : M unit :=
  modify (set_did_read_others true);;;
  n <~ get (fun s => num_answers s + num_authorities s + num_additionals s);;
  repeat_m (Z.to_nat n) read_other.

(** ** The object: construction and accessors *)

Definition _initial_parse : M unit :=
  _read_header;;;
  _read_questions;;;
  nq <~ get num_questions;;
  (if nq =? 0 then _read_others else ret tt);;;
  modify (set_valid true).

(** The object as the assignments at the head of [__init__] leave it;
    [clock] is what [current_time_millis()] returns. *)
Definition new_object (data : bytes) (source : option (str * Z))
    (scope_id : option Z) (now : option Z) (clock : Z) : DNSIncoming :=
  let now_ := match now with
              | Some t => if t =? 0 then clock else t
              | None => clock
              end in
  mkDNSIncoming false 0 0 data ∅ [] [] 0 0 0 0 0 false now_ scope_id source.

(** [DNSIncoming(data, source, scope_id, now)]. The outcome is [Return tt]
    when the constructor returns the object, [Raise e] when it raises [e]. *)
Definition __init__ (data : bytes) (source : option (str * Z))
    (scope_id : option Z) (now : option Z) (clock : Z)
    : outcome unit * DNSIncoming :=
  try_except _initial_parse (ret tt) (new_object data source scope_id now clock).

Definition is_query (s : DNSIncoming) : bool :=
  Z.land (flags s) _FLAGS_QR_MASK =? _FLAGS_QR_QUERY.

Definition is_response (s : DNSIncoming) : bool :=
  Z.land (flags s) _FLAGS_QR_MASK =? _FLAGS_QR_RESPONSE.

Definition truncated (s : DNSIncoming) : bool :=
  Z.land (flags s) _FLAGS_TC =? _FLAGS_TC.

(** The property [answers]. *)
Definition answers : M (list DNSRecord) :=
  did <~ get _did_read_others;;
  (if did then ret tt else try_except _read_others (ret tt));;;
  get _answers.

(** ** Logging *)

(** What [sys.exc_info()] gives a handler, as far as the logger looks at
    it: the exception being handled and [str] of it. *)
Record exc_info := mkExcInfo {
  exc_value : exn;
  exc_str : string
}.

(** A positional argument of [log.debug]. *)
Inductive log_arg :=
| LogText (text : string)
| LogSource (source : option (str * Z))
| LogInt (n : Z)
| LogBytes (b : bytes).

(** A call of [log.debug]: the positional arguments and [exc_info]. *)
Record log_call := mkLogCall {
  log_args : list log_arg;
  log_exc_info : bool
}.

(** [_log_exception_debug], called with the arguments [logger_data] in a
    handler of the exception [info]. The state is the dictionary [_seen_logs] of the
    module; the call of [log.debug] is returned. *)
Definition _log_exception_debug (logger_data : list log_arg) (info : exc_info)
    (_seen_logs : gmap string exc_info) : log_call * gmap string exc_info :=
  let '(log_exc_info_, seen) :=
    match _seen_logs !! exc_str info with
    | None => (true, <[exc_str info := info]> _seen_logs)
    | Some _ => (false, _seen_logs)
    end in
  (mkLogCall
     (match logger_data with
      | [] => [LogText "Exception occurred"]
      | _ => logger_data
      end)
     log_exc_info_,
   seen).

(** ** Printing *)




Section Printing.

(** [repr] of a question and of a record. *)
Variable repr_question : DNSQuestion_t -> string.
Variable repr_record : DNSRecord -> string.


End Printing.

(** * Vocabulary of the properties *)

(** ** Relations and predicates *)

(** [m] relates the object before and after by [R], whatever its outcome. *)
Definition preserves {A} (R : relation DNSIncoming) (m : M A) : Prop :=
  forall s r s', m s = (r, s') -> R s s'.

(** Only the cursor and the name cache differ. *)
Definition cursor_step (s s' : DNSIncoming) : Prop :=
  s' = set_name_cache (name_cache s') (set_offset (offset s') s).

(** Only the cursor, the name cache and the list of records differ, and the
    list of records has only grown. *)
Definition records_step (s s' : DNSIncoming) : Prop :=
  exists l, s' = set_answers (_answers s ++ l)
                   (set_name_cache (name_cache s') (set_offset (offset s') s)).

(** Whether the bitmap of a window marks the type number [t] as present:
    with [k] the position of [t] in the window, bit [k mod 8] of byte
    [k / 8], the bits of a byte being numbered from the most significant
    one. *)
Definition type_present (window : Z) (bitmap : bytes) (t : Z) : bool :=
  let k := t - window * 256 in
  match bitmap !! Z.to_nat (k / 8) with
  | Some b => Z.testbit (ord b) (7 - k mod 8)
  | None => false
  end.

Definition outcome_map {A B} (f : A -> B) (o : outcome A) : outcome B :=
  match o with
  | Return a => Return (f a)
  | Raise e => Raise e
  | Timeout => Timeout
  end.

(** The attribute [f] is the same before and after. *)
Definition unchanged {A} (f : DNSIncoming -> A) : relation DNSIncoming :=
  fun s s' => f s' = f s.

(** The header and the questions are read without touching [valid],
    [_did_read_others] and [_answers]. *)
Definition parse_step (s s' : DNSIncoming) : Prop :=
  valid s' = valid s /\ _did_read_others s' = _did_read_others s /\
  _answers s' = _answers s /\ data s' = data s.

(** The offsets a pointer may target. *)
Definition range_set (d : bytes) : gset Z := list_to_set (seqZ 0 (len d + 1)).

(** How many of them have not been followed yet. *)
Definition unseen (d : bytes) (seen : gset Z) : nat := size (range_set d ∖ seen).

(** The number of iterations and calls left is at most this. *)
Definition measure (d : bytes) (off : Z) (seen : gset Z) : nat :=
  (unseen d seen * Z.to_nat (len d + 2) + Z.to_nat (Z.max 0 (len d - off)) + 1)%nat.

(** [m] never runs out of fuel. *)
Definition total {A} (m : M A) : Prop := forall s, (m s).1 <> Timeout.

(** Where [_decode_labels_at_offset] stands: its three arguments. *)
Record config := mkConfig {
  c_off : Z;
  c_labels : list str;
  c_seen : gset Z
}.

Definition run (fuel : nat) (d : bytes) (cache : gmap Z (list str)) (c : config)
    : decoded :=
  _decode_labels_at_offset fuel d cache (c_off c) (c_labels c) (c_seen c).

(** One move of the decoder that leads to a further iteration or call: past
    a label, or into a pointer that passes the three checks and is not
    answered by the cache. *)
Inductive step (d : bytes) (cache : gmap Z (list str)) : config -> config -> Prop :=
| step_label off labels seen n :
    off < len d -> getitem d off = Some n -> 0 < n < 0x40 ->
    step d cache (mkConfig off labels seen)
      (mkConfig (off + (1 + n))
         (labels ++ [decode_replace (getslice d (off + 1) (off + 1 + n))]) seen)
| step_pointer off labels seen n low :
    off < len d -> getitem d off = Some n -> 0xC0 <= n ->
    getitem d (off + 1) = Some low ->
    Z.land n 0x3F * 256 + low <= len d ->
    Z.land n 0x3F * 256 + low <> off ->
    Z.land n 0x3F * 256 + low ∉ seen ->
    default [] (cache !! (Z.land n 0x3F * 256 + low)) = [] ->
    step d cache (mkConfig off labels seen)
      (mkConfig (Z.land n 0x3F * 256 + low) []
         ({[Z.land n 0x3F * 256 + low]} ∪ seen)).


(** [name_at d h off labels]: the name encoded at offset [off] of [d] has
    the labels [labels]; [h] counts the labels and pointers gone through.
    This is the wire format alone: no cache, no visited set, no limit. *)
Inductive name_at (d : bytes) : nat -> Z -> list str -> Prop :=
| name_at_end off :
    off < len d -> getitem d off = Some 0 -> name_at d 0 off []
| name_at_label h off n labels :
    off < len d -> getitem d off = Some n -> 0 < n < 0x40 ->
    name_at d h (off + (1 + n)) labels ->
    name_at d (S h) off
      (decode_replace (getslice d (off + 1) (off + 1 + n)) :: labels)
| name_at_pointer h off n low labels :
    off < len d -> getitem d off = Some n -> 0xC0 <= n ->
    getitem d (off + 1) = Some low ->
    name_at d h (Z.land n 0x3F * 256 + low) labels ->
    name_at d (S h) off labels.

(** Every entry of the cache is the name at its offset. *)
Definition cache_ok (d : bytes) (cache : gmap Z (list str)) : Prop :=
  forall k labels, cache !! k = Some labels -> exists h, name_at d h k labels.

(** The buffer is the same and the cache stays right. *)
Definition cache_step (s s' : DNSIncoming) : Prop :=
  data s' = data s /\
  (cache_ok (data s) (name_cache s) -> cache_ok (data s') (name_cache s')).


(** ** Test packets *)

(** Test packets are written as lists of byte values. *)
Definition pack (l : list Z) : bytes :=
  map (fun z => default x00 (Byte.of_N (Z.to_N z))) l.

(** The header of twelve bytes with the given [flags] and no record. *)
Definition header_only (fl : Z) : bytes :=
  pack [0; 0; fl / 256; fl mod 256; 0; 0; 0; 0; 0; 0; 0; 0].

(** The message decoded from it. *)
Definition decoded_header (fl : Z) : DNSIncoming :=
  (__init__ (header_only fl) None None None 0).2.

(** A response with one A record whose rdata stops after two of the four
    address bytes. *)
Definition short_a_packet : bytes :=
  pack [0; 0; 0x84; 0; 0; 0; 0; 1; 0; 0; 0; 0;
        1; 97; 0;  0; 1; 0; 1; 0; 0; 0; 120; 0; 4;  10; 11].

(** A response with one NSEC record: next name the root, bitmap bytes
    [0x00, 0x01, 0x40]. *)
Definition nsec_packet : bytes :=
  pack [0; 0; 0x84; 0; 0; 0; 0; 1; 0; 0; 0; 0;
        1; 97; 0;  0; 47; 0; 1; 0; 0; 0; 120; 0; 4;  0;  0x00; 0x01; 0x40].

(** A query with one question and an answer section with no bytes. *)
Definition query_packet : bytes :=
  pack [0; 0; 0; 0; 0; 1; 0; 1; 0; 0; 0; 0;  1; 97; 0; 0; 1; 0; 1].

(** A response that declares one answer and has no byte after the header. *)
Definition empty_response_packet : bytes :=
  pack [0; 0; 0x84; 0; 0; 0; 0; 1; 0; 0; 0; 0].

(** A response with one complete A record. *)
Definition response_packet : bytes :=
  pack [0; 0; 0x84; 0; 0; 0; 0; 1; 0; 0; 0; 0;
        1; 97; 0;  0; 1; 0; 1; 0; 0; 0; 120; 0; 4;  10; 11; 12; 13].

(** A query with one question and one complete A record. *)
Definition query_with_answer_packet : bytes :=
  pack [0; 0; 0; 0; 0; 1; 0; 1; 0; 0; 0; 0;  1; 97; 0; 0; 1; 0; 1;
        0xC0; 12;  0; 1; 0; 1; 0; 0; 0; 120; 0; 4;  10; 11; 12; 13].

(** A query with two questions, cut after the first label of the second
    name. *)
Definition two_questions_packet : bytes :=
  pack [0; 0; 0; 0; 0; 2; 0; 0; 0; 0; 0; 0;
        1; 97; 0; 0; 1; 0; 1;  1; 98].

(** A response with two answers: a complete A record, then a record whose
    fixed prefix is cut. *)
Definition two_answers_packet : bytes :=
  pack [0; 0; 0x84; 0; 0; 0; 0; 2; 0; 0; 0; 0;
        1; 97; 0;  0; 1; 0; 1; 0; 0; 0; 120; 0; 4;  10; 11; 12; 13;
        0xC0; 12;  0; 1; 0].

(** A response with three answers: an A record, an HINFO record whose CPU
    string is the single byte 0xFF, and an A record. *)
Definition hinfo_packet : bytes :=
  pack [0; 0; 0x84; 0; 0; 0; 0; 3; 0; 0; 0; 0;
        1; 97; 0;  0; 1; 0; 1; 0; 0; 0; 120; 0; 4;  10; 11; 12; 13;
        0xC0; 12;  0; 13; 0; 1; 0; 0; 0; 120; 0; 4;  1; 0xFF; 1; 120;
        0xC0; 12;  0; 1; 0; 1; 0; 0; 0; 120; 0; 4;  10; 11; 12; 14].

(** The same with the header of a query and one question before the
    records. *)
Definition hinfo_query_packet : bytes :=
  pack [0; 0; 0; 0; 0; 1; 0; 3; 0; 0; 0; 0;  1; 97; 0; 0; 1; 0; 1;
        0xC0; 12;  0; 1; 0; 1; 0; 0; 0; 120; 0; 4;  10; 11; 12; 13;
        0xC0; 12;  0; 13; 0; 1; 0; 0; 0; 120; 0; 4;  1; 0xFF; 1; 120;
        0xC0; 12;  0; 1; 0; 1; 0; 0; 0; 120; 0; 4;  10; 11; 12; 14].

(** The response with, as second record, a PTR record whose rdata is a
    compression pointer to itself. *)
Definition self_pointer_packet : bytes :=
  pack [0; 0; 0x84; 0; 0; 0; 0; 3; 0; 0; 0; 0;
        1; 97; 0;  0; 1; 0; 1; 0; 0; 0; 120; 0; 4;  10; 11; 12; 13;
        0xC0; 12;  0; 12; 0; 1; 0; 0; 0; 120; 0; 2;  0xC0; 41;
        0xC0; 12;  0; 1; 0; 1; 0; 0; 0; 120; 0; 4;  10; 11; 12; 14].




(** The object with the cursor on the name at offset [off] of [d]. *)
Definition at_name (d : bytes) (off : Z) : DNSIncoming :=
  set_offset off (new_object d None None None 5).


(** ** Further vocabulary *)

(** The six header fields, in the order of the wire. *)
Definition header_fields (s : DNSIncoming) : Z * Z * Z * Z * Z * Z :=
  (id s, flags s, num_questions s, num_answers s, num_authorities s,
   num_additionals s).

(** The two bytes of a 16-bit value, most significant first. *)
Definition u16 (v : Z) : bytes := pack [v / 256; v mod 256].

(** The twelve bytes of a header. *)
Definition encode_header (h : Z * Z * Z * Z * Z * Z) : bytes :=
  let '(i, f, nq, nan, nau, nad) := h in
  u16 i ++ u16 f ++ u16 nq ++ u16 nan ++ u16 nau ++ u16 nad.

(** A 16-bit value. *)
Definition is_u16 (v : Z) : Prop := 0 <= v < 65536.

(** [m] raises nothing but exceptions that satisfy [P]. *)
Definition raises_only {A} (P : exn -> Prop) (m : M A) : Prop :=
  forall s e s', m s = (Raise e, s') -> P e.




(** A cursor that is not negative stays so. *)
Definition nonneg_step (s s' : DNSIncoming) : Prop :=
  0 <= offset s -> 0 <= offset s'.

(** The ranges of the fixed fields of a record: type, class, TTL, rdlength. *)
Definition prefix_ranges (h : Z * Z * Z * Z) : Prop :=
  let '(type_, class_, ttl, length) := h in
  is_u16 type_ /\ is_u16 class_ /\ - 2 ^ 31 <= ttl < 2 ^ 31 /\ is_u16 length.

(** The name a record was decoded for. *)
Definition record_name (r : DNSRecord) : str :=
  match r with
  | DNSAddress name _ _ _ _ _ _ | DNSPointer name _ _ _ _ _
  | DNSText name _ _ _ _ _ | DNSService name _ _ _ _ _ _ _ _
  | DNSHinfo name _ _ _ _ _ _ | DNSNsec name _ _ _ _ _ _ => name
  end.

(** The fixed fields of a record, as the constructor received them. *)
Definition record_prefix (r : DNSRecord) : Z * Z * Z :=
  match r with
  | DNSAddress _ t c ttl _ _ _ | DNSPointer _ t c ttl _ _
  | DNSText _ t c ttl _ _ | DNSService _ t c ttl _ _ _ _ _
  | DNSHinfo _ t c ttl _ _ _ | DNSNsec _ t c ttl _ _ _ => (t, c, ttl)
  end.

Definition record_created (r : DNSRecord) : Z :=
  match r with
  | DNSAddress _ _ _ _ _ created _ | DNSPointer _ _ _ _ _ created
  | DNSText _ _ _ _ _ created | DNSService _ _ _ _ _ _ _ _ created
  | DNSHinfo _ _ _ _ _ _ created | DNSNsec _ _ _ _ _ _ created => created
  end.

(** The class of a record agrees with its type code, and its payload with
    the class: at most 4 address bytes and no scope for A, at most 16 and
    the scope of the message for AAAA, 16-bit priority, weight and port for
    SRV. *)
Definition payload_ok (sc : option Z) (r : DNSRecord) : Prop :=
  match r with
  | DNSAddress _ t _ _ address _ scope =>
    t = _TYPE_A /\ len address <= 4 /\ scope = None \/
    t = _TYPE_AAAA /\ len address <= 16 /\ scope = sc
  | DNSPointer _ t _ _ _ _ => t = _TYPE_CNAME \/ t = _TYPE_PTR
  | DNSText _ t _ _ _ _ => t = _TYPE_TXT
  | DNSService _ t _ _ priority weight port _ _ =>
    t = _TYPE_SRV /\ is_u16 priority /\ is_u16 weight /\ is_u16 port
  | DNSHinfo _ t _ _ _ _ _ => t = _TYPE_HINFO
  | DNSNsec _ t _ _ _ _ _ => t = _TYPE_NSEC
  end.

(** A record as the decoder of the message with timestamp [now_] and scope
    [sc] builds it. *)
Definition record_ok (now_ : Z) (sc : option Z) (r : DNSRecord) : Prop :=
  payload_ok sc r /\
  is_u16 (record_prefix r).1.2 /\
  - 2 ^ 31 <= (record_prefix r).2 < 2 ^ 31 /\
  record_created r = now_.

(** The number of records the header declares. *)
Definition declared_records (s : DNSIncoming) : Z :=
  num_answers s + num_authorities s + num_additionals s.

(** What the stages before the record section leave alone: the timestamp,
    the scope, the records and the flag of the record section. *)
Definition decoding_context (s : DNSIncoming) : Z * option Z * list DNSRecord * bool :=
  (now s, scope_id s, _answers s, _did_read_others s).

(** The type codes [_read_record] decodes. *)
Definition known_type (type_ : Z) : Prop :=
  type_ = _TYPE_A \/ type_ = _TYPE_CNAME \/ type_ = _TYPE_PTR \/
  type_ = _TYPE_TXT \/ type_ = _TYPE_SRV \/ type_ = _TYPE_HINFO \/
  type_ = _TYPE_AAAA \/ type_ = _TYPE_NSEC.

(** A response with an A record that declares six bytes of rdata, followed
    by a TXT record. *)
Definition long_a_packet : bytes :=
  pack [0; 0; 0x84; 0; 0; 0; 0; 2; 0; 0; 0; 0;
        1; 97; 0;  0; 1; 0; 1; 0; 0; 0; 120; 0; 6;  10; 11; 12; 13; 0; 0;
        0xC0; 12;  0; 16; 0; 1; 0; 0; 0; 120; 0; 1;  120].

(** A response with a record of type 99 and three bytes of rdata, followed
    by an A record. *)
Definition unknown_type_packet : bytes :=
  pack [0; 0; 0x84; 0; 0; 0; 0; 2; 0; 0; 0; 0;
        1; 97; 0;  0; 99; 0; 1; 0; 0; 0; 120; 0; 3;  1; 2; 3;
        0xC0; 12;  0; 1; 0; 1; 0; 0; 0; 120; 0; 4;  10; 11; 12; 13].

(** The bound of the type numbers of an NSEC bitmap: window and bitmap
    length are one byte each, and the length is not checked against the 32
    bytes of a window. *)
Definition rdtype_bound : Z := 255 * 256 + 8 * 255.

(** A bitmap of window 255 whose declared length, 255, runs past the end of
    the buffer: three bitmap bytes are present. *)
Definition last_window : DNSIncoming :=
  at_name (pack [255; 255; 0x80; 0; 0x01]) 0.



(** A label on the wire: its length in one byte, then its bytes. *)
Definition encode_label (l : bytes) : bytes := pack [len l] ++ l.

(** An uncompressed name on the wire: its labels, then a zero byte. *)
Definition encode_name (raw : list bytes) : bytes :=
  concat (map encode_label raw) ++ pack [0].

(** A label the wire format can carry. *)
Definition label_ok (l : bytes) : Prop := 0 < len l < 64.

(** The dotted name of the labels [raw]. *)
Definition name_of (raw : list bytes) : str :=
  join_dot (map decode_replace raw) ++ [dot].

(** A question as it is written: the labels of its name, its type and its
    class. *)
Definition question_spec : Type := list bytes * Z * Z.

Definition encode_question (q : question_spec) : bytes :=
  encode_name q.1.1 ++ u16 q.1.2 ++ u16 q.2.

(** A query on the wire: the header, with the number of questions and no
    record, then the questions. *)
Definition encode_query (i f : Z) (qs : list question_spec) : bytes :=
  encode_header (i, f, len qs, 0, 0, 0) ++ concat (map encode_question qs).

Definition question_ok (q : question_spec) : Prop :=
  Forall label_ok q.1.1 /\ len (name_of q.1.1) <= MAX_NAME_LENGTH /\
  is_u16 q.1.2 /\ is_u16 q.2.

(** The question object of a written question. *)
Definition question_of (q : question_spec) : DNSQuestion_t :=
  DNSQuestion (name_of q.1.1) q.1.2 q.2.

(** The calls of the logger made by a run of handlers, one after the other,
    each with its arguments and the exception it handles. *)
Fixpoint log_all (calls : list (list log_arg * exc_info))
    (seen : gmap string exc_info) : list log_call * gmap string exc_info :=
  match calls with
  | [] => ([], seen)
  | (args, info) :: calls =>
    let r := _log_exception_debug args info seen in
    let rs := log_all calls r.2 in
    (r.1 :: rs.1, rs.2)
  end.

(** The positional arguments the logger passes on. *)
Definition passed_on (args : list log_arg) : list log_arg :=
  match args with
  | [] => [LogText "Exception occurred"]
  | _ => args
  end.


(** The four bytes of a signed 32-bit value, two's complement, most
    significant first. *)
Definition i32 (v : Z) : bytes :=
  u16 (v mod 2 ^ 32 / 65536) ++ u16 (v mod 65536).

(** The payload of a record as it is written: an address of 4 or 16
    bytes, the name a CNAME or PTR record points to, a text, or the
    priority, weight, port and server of a service. *)
Inductive rdata_spec :=
| RdA (address : bytes)
| RdAAAA (address : bytes)
| RdPointer (type_ : Z) (alias : list bytes)
| RdText (text : bytes)
| RdService (priority weight port : Z) (server : list bytes).

(** A record as it is written: the labels of its name, its class, its TTL
    and its payload. *)
Record record_spec := mkRecordSpec {
  rs_name : list bytes;
  rs_class : Z;
  rs_ttl : Z;
  rs_rdata : rdata_spec
}.

Definition rdata_type (rd : rdata_spec) : Z :=
  match rd with
  | RdA _ => _TYPE_A
  | RdAAAA _ => _TYPE_AAAA
  | RdPointer type_ _ => type_
  | RdText _ => _TYPE_TXT
  | RdService _ _ _ _ => _TYPE_SRV
  end.

Definition encode_rdata (rd : rdata_spec) : bytes :=
  match rd with
  | RdA address | RdAAAA address => address
  | RdPointer _ alias => encode_name alias
  | RdText text => text
  | RdService priority weight port server =>
    u16 priority ++ u16 weight ++ u16 port ++ encode_name server
  end.

(** A record on the wire: name, type, class, TTL, length of the payload,
    payload. *)
Definition encode_record (r : record_spec) : bytes :=
  encode_name (rs_name r)
  ++ (u16 (rdata_type (rs_rdata r)) ++ u16 (rs_class r) ++ i32 (rs_ttl r)
      ++ u16 (len (encode_rdata (rs_rdata r))))
  ++ encode_rdata (rs_rdata r).

(** A response on the wire: the header, with no question and the counts
    of the three record sections, then the records. *)
Definition encode_response (i f nan nau nad : Z) (rs : list record_spec) : bytes :=
  encode_header (i, f, 0, nan, nau, nad) ++ concat (map encode_record rs).

Definition written_name_ok (raw : list bytes) : Prop :=
  Forall label_ok raw /\ len (name_of raw) <= MAX_NAME_LENGTH.

Definition rdata_ok (rd : rdata_spec) : Prop :=
  match rd with
  | RdA address => len address = 4
  | RdAAAA address => len address = 16
  | RdPointer type_ alias =>
    (type_ = _TYPE_CNAME \/ type_ = _TYPE_PTR) /\ written_name_ok alias
  | RdText _ => True
  | RdService priority weight port server =>
    is_u16 priority /\ is_u16 weight /\ is_u16 port /\ written_name_ok server
  end.

Definition record_spec_ok (r : record_spec) : Prop :=
  written_name_ok (rs_name r) /\ is_u16 (rs_class r) /\
  - 2 ^ 31 <= rs_ttl r < 2 ^ 31 /\
  is_u16 (len (encode_rdata (rs_rdata r))) /\ rdata_ok (rs_rdata r).

(** The record object of a written payload, for the name [domain]. *)
Definition build_record (domain : str) (class_ ttl : Z) (rd : rdata_spec)
    (now_ : Z) (sc : option Z) : DNSRecord :=
  match rd with
  | RdA address => DNSAddress domain _TYPE_A class_ ttl address now_ None
  | RdAAAA address => DNSAddress domain _TYPE_AAAA class_ ttl address now_ sc
  | RdPointer type_ alias =>
    DNSPointer domain type_ class_ ttl (name_of alias) now_
  | RdText text => DNSText domain _TYPE_TXT class_ ttl text now_
  | RdService priority weight port server =>
    DNSService domain _TYPE_SRV class_ ttl priority weight port
      (name_of server) now_
  end.

(** The record object of a written record. *)
Definition record_of (now_ : Z) (sc : option Z) (r : record_spec) : DNSRecord :=
  build_record (name_of (rs_name r)) (rs_class r) (rs_ttl r) (rs_rdata r) now_ sc.

(** Three written records for the name [a.]: an address, a pointer to [b.]
    and a service on [b.]. *)
Definition written_records : list record_spec :=
  [mkRecordSpec [pack [97]] 1 120 (RdA (pack [10; 11; 12; 13]));
   mkRecordSpec [pack [97]] 1 (-1) (RdPointer _TYPE_PTR [pack [98]]);
   mkRecordSpec [pack [97]] 1 120 (RdService 0 5 8080 [pack [98]])].

(** Bytes below 128. *)
Definition is_ascii (bs : bytes) : Prop := Forall (fun b => ord b < 0x80) bs.

(** A character string on the wire: its length in one byte, then its
    bytes. *)
Definition encode_character_string (bs : bytes) : bytes := pack [len bs] ++ bs.

(** The payload of an HINFO record. *)
Definition encode_hinfo (cpu os : bytes) : bytes :=
  encode_character_string cpu ++ encode_character_string os.

(** * Properties *)

(** ** Reasoning about methods *)

Section Preserves.
Context (R : relation DNSIncoming) `{!PreOrder R}.

Lemma preserves_ret {A} (a : A) : preserves R (ret a).
Proof. intros s r s' [= <- <-]. reflexivity. Qed.

Lemma preserves_get {A} (f : DNSIncoming -> A) : preserves R (get f).
Proof. intros s r s' [= <- <-]. reflexivity. Qed.

Lemma preserves_get_or_raise {A} e (f : DNSIncoming -> option A) :
  preserves R (get_or_raise e f).
Proof.
  intros s r s'. unfold get_or_raise.
  destruct (f s); intros [= <- <-]; reflexivity.
Qed.

Lemma preserves_modify f : (forall s, R s (f s)) -> preserves R (modify f).
Proof. intros Hf s r s' [= <- <-]. apply Hf. Qed.

Lemma preserves_bind {A B} (m : M A) (k : A -> M B) :
  preserves R m -> (forall a, preserves R (k a)) -> preserves R (bind m k).
Proof.
  intros Hm Hk s r s'. unfold bind.
  destruct (m s) as [[a|e|] s1] eqn:E; intros H.
  - transitivity s1; [eapply Hm | eapply Hk]; eauto.
  - injection H as <- <-. eapply Hm; eauto.
  - injection H as <- <-. eapply Hm; eauto.
Qed.

Lemma preserves_try_except {A} (m h : M A) :
  preserves R m -> preserves R h -> preserves R (try_except m h).
Proof.
  intros Hm Hh s r s'. unfold try_except.
  destruct (m s) as [[a|e|] s1] eqn:E; intros H.
  - injection H as <- <-. eapply Hm; eauto.
  - destruct (DECODE_EXCEPTIONS e).
    + transitivity s1; [eapply Hm | eapply Hh]; eauto.
    + injection H as <- <-. eapply Hm; eauto.
  - injection H as <- <-. eapply Hm; eauto.
Qed.

Lemma preserves_repeat_m n body :
  preserves R body -> preserves R (repeat_m n body).
Proof.
  intros Hb. induction n as [|n IH]; simpl.
  - apply preserves_ret.
  - apply preserves_bind; auto.
Qed.
End Preserves.

#[local] Instance cursor_step_preorder : PreOrder cursor_step.
Proof.
  split.
  - intros []. reflexivity.
  - intros [] [] [] H1 H2.
    unfold cursor_step, set_name_cache, set_offset in *. simpl in *.
    injection H1; injection H2; intros; subst; reflexivity.
Qed.

#[local] Instance records_step_preorder : PreOrder records_step.
Proof.
  split.
  - intros s. exists []. destruct s; unfold set_answers; simpl.
    by rewrite app_nil_r.
  - intros [] [] [] [l1 H1] [l2 H2]. exists (l1 ++ l2).
    unfold set_answers, set_name_cache, set_offset in *. simpl in *.
    injection H1; injection H2; intros; subst. by rewrite app_assoc.
Qed.

Lemma cursor_records_step s s' : cursor_step s s' -> records_step s s'.
Proof.
  unfold cursor_step. intros H. exists []. rewrite app_nil_r.
  destruct s, s'; unfold set_name_cache, set_offset in *; simpl in *.
  injection H; intros; subst; reflexivity.
Qed.

Lemma cursor_step_set_offset o s : cursor_step s (set_offset o s).
Proof. by destruct s. Qed.

Lemma cursor_step_set_name_cache c s : cursor_step s (set_name_cache c s).
Proof. by destruct s. Qed.

Lemma cursor_step_set_both c o s :
  cursor_step s (set_name_cache c (set_offset o s)).
Proof. by destruct s. Qed.

Lemma records_step_append r s : records_step s (set_answers (_answers s ++ [r]) s).
Proof. exists [r]. by destruct s. Qed.

Create HintDb frame.

#[local] Hint Resolve cursor_step_set_offset cursor_step_set_name_cache
  cursor_step_set_both records_step_append cursor_records_step : frame.

(** Walks through a method and leaves the goals about its primitives. *)
Ltac frame :=
  repeat first
    [ solve [eauto with frame]
    | apply preserves_ret; solve [typeclasses eauto]
    | apply preserves_get; solve [typeclasses eauto]
    | apply preserves_get_or_raise; solve [typeclasses eauto]
    | apply preserves_modify; intros ?; solve [eauto with frame]
    | apply preserves_bind; [typeclasses eauto | | intros ?]
    | apply preserves_try_except; [typeclasses eauto | | ]
    | apply preserves_repeat_m; [typeclasses eauto | ]
    | match goal with
      | |- preserves _ (if ?b then _ else _) => destruct b
      | |- preserves _ (match ?x with _ => _ end) => destruct x
      end ].

Lemma read_name_frame : preserves cursor_step _read_name.
Proof.
  intros s r s'. unfold _read_name.
  destruct (dr_out _); [case_match|..]; intros [= <- <-]; auto with frame.
Qed.

Lemma unpack_frame {A} (u : bytes -> Z -> option A) n :
  preserves cursor_step (_unpack u n).
Proof. unfold _unpack. frame. Qed.

Lemma read_string_frame n : preserves cursor_step (_read_string n).
Proof. unfold _read_string. frame. Qed.

#[local] Hint Resolve read_name_frame unpack_frame read_string_frame : frame.

Lemma read_character_string_frame : preserves cursor_step _read_character_string.
Proof. unfold _read_character_string. frame. Qed.

Lemma read_bitmap_loop_frame fuel end_ rd :
  preserves cursor_step (read_bitmap_loop fuel end_ rd).
Proof.
  revert rd. induction fuel as [|fuel IH]; intros rd; simpl.
  - intros s r s' [= <- <-]. reflexivity.
  - frame.
Qed.

Lemma read_bitmap_frame end_ : preserves cursor_step (_read_bitmap end_).
Proof. intros s r s'. unfold _read_bitmap. apply read_bitmap_loop_frame. Qed.

#[local] Hint Resolve read_character_string_frame read_bitmap_frame : frame.

Lemma read_record_frame domain type_ class_ ttl length :
  preserves cursor_step (_read_record domain type_ class_ ttl length).
Proof. unfold _read_record, decode_utf8. frame. Qed.

Lemma preserves_cursor_records {A} (m : M A) :
  preserves cursor_step m -> preserves records_step m.
Proof. intros Hm s r s' H. apply cursor_records_step. eapply Hm, H. Qed.

#[local] Hint Resolve read_record_frame preserves_cursor_records : frame.

Lemma read_other_frame : preserves records_step read_other.
Proof. unfold read_other. frame. Qed.

Lemma read_question_list_frame n : preserves cursor_step (read_question_list n).
Proof. induction n as [|n IH]; simpl; frame. Qed.

(** ** The flag accessors *)

Lemma land_pow2 (f n : Z) :
  0 <= n -> Z.land f (2 ^ n) = if Z.testbit f n then 2 ^ n else 0.
Proof.
  intros Hn. apply Z.bits_inj'. intros k Hk.
  rewrite Z.land_spec, Z.pow2_bits_eqb by lia.
  destruct (Z.eqb_spec n k) as [->|Hne].
  - destruct (Z.testbit f k); simpl.
    + by rewrite Z.pow2_bits_true.
    + by rewrite Z.bits_0.
  - rewrite andb_false_r. destruct (Z.testbit f n).
    + by rewrite Z.pow2_bits_false.
    + by rewrite Z.bits_0.
Qed.

(** C8, as the code has it: [is_query()] is true exactly when the QR bit
    (0x8000, bit 15) of [flags] is clear, [is_response()] exactly when it is
    set, so that every flag value makes exactly one of the two true, and
    [truncated] is true exactly when the TC bit (0x0200, bit 9) is set. *)
Theorem flag_accessors_bits (s : DNSIncoming) :
  is_query s = negb (Z.testbit (flags s) 15) /\
  is_response s = Z.testbit (flags s) 15 /\
  is_query s = negb (is_response s) /\
  truncated s = Z.testbit (flags s) 9.
Proof.
  unfold is_query, is_response, truncated, _FLAGS_QR_MASK, _FLAGS_QR_QUERY,
    _FLAGS_QR_RESPONSE, _FLAGS_TC.
  change 0x8000 with (2 ^ 15). change 0x0200 with (2 ^ 9).
  rewrite !land_pow2 by lia.
  destruct (Z.testbit (flags s) 15), (Z.testbit (flags s) 9); done.
Qed.

(** C8, counterexample to the statement of the specification: with the QR
    bit clear and every other bit set
    (so that any second bit paired with QR reads 01) [is_query()] is true,
    and with all sixteen bits set (any such pair reads 11) [is_response()]
    is true. *)
Lemma flag_accessors_two_bit_mask_fails :
  (flags (decoded_header 0x7FFF) = 0x7FFF /\
   Z.testbit (flags (decoded_header 0x7FFF)) 14 = true /\
   is_query (decoded_header 0x7FFF) = true) /\
  (flags (decoded_header 0xFFFF) = 0xFFFF /\
   Z.testbit (flags (decoded_header 0xFFFF)) 14 = true /\
   is_response (decoded_header 0xFFFF) = true).
Proof. vm_compute. done. Qed.

(** ** Reads past the end of the buffer *)

Lemma len_nonneg {A} (l : list A) : 0 <= len l.
Proof. unfold len. lia. Qed.

Lemma len_app {A} (l k : list A) : len (l ++ k) = len l + len k.
Proof. unfold len. rewrite length_app. lia. Qed.

Lemma len_getslice (d : bytes) (a b : Z) :
  0 <= a -> a <= b -> len (getslice d a b) = Z.max 0 (Z.min b (len d) - a).
Proof.
  intros Ha Hb. unfold getslice, slice_index, len.
  rewrite (proj2 (Z.ltb_ge a 0)), (proj2 (Z.ltb_ge b 0)) by lia.
  rewrite length_take, length_drop. lia.
Qed.

Lemma read_string_run (length : Z) (s : DNSIncoming) :
  _read_string length s =
    (Return (getslice (data s) (offset s) (offset s + length)),
     set_offset (offset s + length) s).
Proof. reflexivity. Qed.

(** C10: [_read_string] never raises: it returns the bytes of the buffer
    between the cursor and [length] bytes further, cut at the end of the
    buffer, and moves the cursor by [length]; so an A (or AAAA) record
    whose 4 (or 16) address bytes are cut off by the end of the packet is
    decoded, without error, into an address record with the bytes that are
    left, which are fewer than declared. *)
Theorem read_string_truncates_without_error (s : DNSIncoming)
    (length : Z) (domain : str) (class_ ttl rdlength : Z) :
  0 <= offset s -> 0 <= length ->
  (exists info,
     _read_string length s = (Return info, set_offset (offset s + length) s) /\
     len info = Z.max 0 (Z.min length (len (data s) - offset s)) /\
     (len (data s) < offset s + length -> len info < length \/ length = 0)) /\
  (exists addr,
     _read_record domain _TYPE_A class_ ttl rdlength s =
       (Return (Some (DNSAddress domain _TYPE_A class_ ttl addr (now s) None)),
        set_offset (offset s + 4) s) /\
     addr = getslice (data s) (offset s) (offset s + 4) /\
     (len (data s) < offset s + 4 -> len addr < 4)) /\
  (exists addr,
     _read_record domain _TYPE_AAAA class_ ttl rdlength s =
       (Return (Some (DNSAddress domain _TYPE_AAAA class_ ttl addr (now s)
                        (scope_id s))),
        set_offset (offset s + 16) s) /\
     addr = getslice (data s) (offset s) (offset s + 16) /\
     (len (data s) < offset s + 16 -> len addr < 16)).
Proof.
  intros Ho Hl. repeat split.
  - eexists. split; [apply read_string_run|].
    rewrite len_getslice by lia. pose proof (len_nonneg (data s)). lia.
  - eexists. split; [reflexivity|]. split; [reflexivity|].
    rewrite len_getslice by lia. lia.
  - eexists. split; [reflexivity|]. split; [reflexivity|].
    rewrite len_getslice by lia. lia.
Qed.

Lemma read_string_truncates_without_error_witness :
  (__init__ short_a_packet None None None 5).1 = Return tt /\
  valid (__init__ short_a_packet None None None 5).2 = true /\
  _answers (__init__ short_a_packet None None None 5).2 =
    [DNSAddress [97; 46] 1 1 120 (pack [10; 11]) 5 None] /\
  exists addr,
    _read_record [97; 46] _TYPE_A 1 120 4
        (set_offset 25 (__init__ short_a_packet None None None 5).2) =
      (Return (Some (DNSAddress [97; 46] _TYPE_A 1 120 addr 5 None)),
       set_offset 29 (__init__ short_a_packet None None None 5).2) /\
    len addr < 4.
Proof.
  split; [by vm_compute|]. split; [by vm_compute|]. split; [by vm_compute|].
  destruct (read_string_truncates_without_error
              (set_offset 25 (__init__ short_a_packet None None None 5).2)
              4 [97; 46] 1 120 4) as (_ & (addr & Hrun & _ & Hlen) & _).
  - vm_compute. discriminate.
  - lia.
  - exists addr. split.
    + exact Hrun.
    + apply Hlen. vm_compute. reflexivity.
Defined.

(** ** The NSEC bitmap *)

Lemma mask_bit (b j : Z) :
  0 <= j <= 7 ->
  (Z.land b (Z.shiftr 0x80 j) =? 0) = negb (Z.testbit b (7 - j)).
Proof.
  intros Hj.
  assert (Z.shiftr 0x80 j = 2 ^ (7 - j)) as ->.
  { assert (j = 0 \/ j = 1 \/ j = 2 \/ j = 3 \/ j = 4 \/ j = 5 \/ j = 6 \/ j = 7)
      as Hc by lia.
    destruct Hc as [->|[->|[->|[->|[->|[->|[->| ->]]]]]]]; reflexivity. }
  rewrite land_pow2 by lia.
  destruct (Z.testbit b (7 - j)); [|done].
  apply Z.eqb_neq. pose proof (Z.pow_pos_nonneg 2 (7 - j)). lia.
Qed.

Lemma flat_map_filter {A B} (f : A -> B) (p : A -> bool) (q : B -> bool) l :
  (forall x, In x l -> q (f x) = negb (p x)) ->
  flat_map (fun x => if p x then [] else [f x]) l = List.filter q (map f l).
Proof.
  induction l as [|x l IH]; intros H; simpl; [done|].
  rewrite (H x) by (by left). rewrite IH by (intros; apply H; by right).
  by destruct (p x).
Qed.

Lemma byte_types_filter (window i byte : Z) :
  byte_types window i byte =
    List.filter (fun t => Z.testbit byte (7 - (t - (window * 256 + i * 8))))
      (seqZ (window * 256 + i * 8) 8).
Proof.
  unfold byte_types.
  replace (seqZ (window * 256 + i * 8) 8)
    with (Z.add (window * 256 + i * 8) <$> seqZ 0 8)
    by (rewrite fmap_add_seqZ; f_equal; lia).
  rewrite <- (flat_map_filter (fun bit => window * 256 + i * 8 + bit)
                (fun bit => Z.land byte (Z.shiftr 0x80 bit) =? 0)).
  - apply flat_map_ext. intros bit. replace (bit + window * 256 + i * 8)
      with (window * 256 + i * 8 + bit) by lia. done.
  - intros bit Hin. apply list_elem_of_In, elem_of_seqZ in Hin.
    rewrite mask_bit, negb_involutive by lia. f_equal. lia.
Qed.

Lemma window_types_from (window : Z) (pre bitmap : bytes) :
  concat (imap (fun i b => byte_types window (len pre + Z.of_nat i) (ord b)) bitmap) =
    List.filter (type_present window (pre ++ bitmap))
      (seqZ (window * 256 + 8 * len pre) (8 * len bitmap)).
Proof.
  revert pre. induction bitmap as [|b bitmap IH]; intros pre.
  - reflexivity.
  - rewrite imap_cons. simpl concat.
    replace (8 * len (b :: bitmap)) with (8 + 8 * len bitmap)
      by (unfold len; simpl length; lia).
    rewrite seqZ_app, List.filter_app by (pose proof (len_nonneg bitmap); lia).
    f_equal.
    + rewrite byte_types_filter. change (Z.of_nat 0) with 0.
      replace (window * 256 + (len pre + 0) * 8)
        with (window * 256 + 8 * len pre) by lia.
      apply filter_ext_in. intros t Hin.
      apply list_elem_of_In, elem_of_seqZ in Hin.
      unfold type_present.
      replace ((t - window * 256) / 8) with (len pre)
        by (apply (Z.div_unique _ 8 _ (t - window * 256 - 8 * len pre)); lia).
      unfold len. rewrite Nat2Z.id, list_lookup_middle by done.
      f_equal. f_equal.
      apply (Z.mod_unique _ 8 (len pre)); unfold len in *; lia.
    + specialize (IH (pre ++ [b])). rewrite <- app_assoc in IH. simpl in IH.
      rewrite len_app in IH. change (len [b]) with 1 in IH.
      replace (window * 256 + 8 * len pre + 8)
        with (window * 256 + 8 * (len pre + 1)) by lia.
      rewrite <- IH. f_equal. apply imap_ext. intros i x _. simpl.
      f_equal. lia.
Qed.

(** The type numbers of one window, in the order of the scan: the numbers
    [window*256 + k] for [k] from 0 up, kept when bit [k mod 8], counted
    from the most significant bit, of byte [k / 8] is set. *)
Lemma window_types_filter (window : Z) (bitmap : bytes) :
  window_types window bitmap =
    List.filter (type_present window bitmap)
      (seqZ (window * 256) (8 * len bitmap)).
Proof.
  pose proof (window_types_from window [] bitmap) as H.
  simpl in H. change (len []) with 0 in H. rewrite Z.add_0_r in H.
  rewrite <- H. unfold window_types. apply f_equal, imap_ext.
  intros i x _. done.
Qed.

Lemma ord_range (b : byte) : 0 <= ord b < 256.
Proof.
  unfold ord. pose proof (Byte.to_N_bounded b) as H.
  change 256 with (Z.of_N 256). lia.
Qed.

Lemma getitem_Some (d : bytes) (i v : Z) :
  getitem d i = Some v -> - len d <= i < len d /\ 0 <= v < 256.
Proof.
  unfold getitem, len. intros H.
  destruct (i <? 0) eqn:Hi; [destruct (_ + i <? 0) eqn:Hj; [done|]|];
    apply fmap_Some in H as (b & Hb & ->); apply lookup_lt_Some in Hb;
    split; try apply ord_range; lia.
Qed.

Lemma getitem_nonneg (d : bytes) (i : Z) :
  0 <= i -> getitem d i = ord <$> d !! Z.to_nat i.
Proof. intros Hi. unfold getitem. by rewrite (proj2 (Z.ltb_ge i 0)). Qed.

(** The list under construction is only appended to. *)
Lemma read_bitmap_loop_acc fuel end_ rd s :
  read_bitmap_loop fuel end_ rd s =
    (outcome_map (app rd) (read_bitmap_loop fuel end_ [] s).1,
     (read_bitmap_loop fuel end_ [] s).2).
Proof.
  revert rd s. induction fuel as [|fuel IH]; intros rd s; [done|].
  simpl. unfold bind, get, get_or_raise, modify, ret.
  destruct (offset s <? end_); [|by simpl; rewrite app_nil_r].
  destruct (getitem (data s) (offset s)) as [w|]; [|done].
  destruct (getitem (data s) (offset s + 1)) as [n|]; [|done].
  rewrite (IH (rd ++ _)), (IH (window_types _ _)). simpl.
  destruct (read_bitmap_loop fuel end_ [] _) as [[l|e|] s1]; simpl; try done.
  by rewrite app_assoc.
Qed.

(** More fuel does not change a result. *)
Lemma read_bitmap_loop_mono fuel fuel' end_ rd s :
  (fuel <= fuel')%nat ->
  (read_bitmap_loop fuel end_ rd s).1 <> Timeout ->
  read_bitmap_loop fuel' end_ rd s = read_bitmap_loop fuel end_ rd s.
Proof.
  revert fuel' rd s. induction fuel as [|fuel IH]; intros fuel' rd s Hle Hr.
  { by destruct Hr. }
  destruct fuel' as [|fuel']; [lia|].
  simpl in *. unfold bind, get, get_or_raise, modify, ret in *.
  destruct (offset s <? end_); [|done].
  destruct (getitem (data s) (offset s)) as [w|]; [|done].
  destruct (getitem (data s) (offset s + 1)) as [n|]; [|done].
  apply IH; [lia|done].
Qed.

(** The bitmap loop ends: every iteration reads two bytes inside the
    buffer and moves the cursor by at least two. *)
Lemma read_bitmap_loop_terminates fuel end_ rd s :
  (bitmap_fuel (data s) (offset s) <= fuel)%nat ->
  (read_bitmap_loop fuel end_ rd s).1 <> Timeout.
Proof.
  revert rd s. induction fuel as [|fuel IH]; intros rd s Hf.
  { unfold bitmap_fuel in Hf. lia. }
  simpl. unfold bind, get, get_or_raise, modify, ret.
  destruct (offset s <? end_); [|done].
  destruct (getitem (data s) (offset s)) as [w|] eqn:Hw; [|done].
  destruct (getitem (data s) (offset s + 1)) as [n|] eqn:Hn; [|done].
  apply IH. apply getitem_Some in Hw, Hn.
  unfold bitmap_fuel in *. destruct s; simpl in *. lia.
Qed.

Lemma getslice_nonneg (d : bytes) (a b : Z) :
  0 <= a -> 0 <= b ->
  getslice d a b = take (Z.to_nat (b - a)) (drop (Z.to_nat a) d).
Proof.
  intros Ha Hb. unfold getslice, slice_index.
  rewrite (proj2 (Z.ltb_ge a 0)), (proj2 (Z.ltb_ge b 0)) by lia.
  destruct (Z.le_gt_cases (len d) a).
  - rewrite (Z.min_r a) by lia.
    rewrite !drop_ge by (unfold len in *; lia). by rewrite !take_nil.
  - rewrite (Z.min_l a) by lia. destruct (Z.le_gt_cases b (len d)).
    + by rewrite Z.min_l by lia.
    + rewrite Z.min_r by lia.
      rewrite !take_ge; [done|rewrite length_drop; unfold len in *; lia..].
Qed.

Lemma getslice_at (d : bytes) (a b : Z) (i : nat) (x : byte) :
  0 <= a -> 0 <= b -> getslice d a b !! i = Some x ->
  getitem d (a + Z.of_nat i) = Some (ord x).
Proof.
  intros Ha Hb. rewrite getslice_nonneg by done. intros H.
  apply lookup_take_Some in H as [H _]. rewrite lookup_drop in H.
  rewrite getitem_nonneg by lia.
  by rewrite Z2Nat.inj_add, Nat2Z.id, H by lia.
Qed.

Lemma getslice_suffix (d : bytes) (a c b : Z) :
  0 <= a -> a <= c -> c <= b ->
  getslice d c b = drop (Z.to_nat (c - a)) (getslice d a b).
Proof.
  intros Ha Hc Hb. rewrite !getslice_nonneg by lia.
  replace (Z.to_nat (b - a)) with (Z.to_nat (c - a) + Z.to_nat (b - c))%nat
    by lia.
  rewrite <- take_drop_commute, drop_drop. do 2 f_equal. lia.
Qed.

Lemma read_bitmap_unroll (s : DNSIncoming) (end_ window n : Z) :
  offset s < end_ ->
  getitem (data s) (offset s) = Some window ->
  getitem (data s) (offset s + 1) = Some n ->
  _read_bitmap end_ s =
    (outcome_map
       (app (window_types window
               (getslice (data s) (offset s + 2) (offset s + 2 + n))))
       (_read_bitmap end_ (set_offset (offset s + (2 + n)) s)).1,
     (_read_bitmap end_ (set_offset (offset s + (2 + n)) s)).2).
Proof.
  intros Hlt Hw Hn. unfold _read_bitmap.
  pose proof (getitem_Some _ _ _ Hw) as [Ho _].
  pose proof (getitem_Some _ _ _ Hn) as [_ Hn'].
  assert (exists f, bitmap_fuel (data s) (offset s) = S f /\
            (bitmap_fuel (data s) (offset s + (2 + n)) <= f)%nat) as (f & -> & Hf).
  { exists (Z.to_nat (Z.max 0 (len (data s) - offset s))).
    unfold bitmap_fuel. split; lia. }
  simpl read_bitmap_loop at 1. unfold bind, get, get_or_raise, modify, ret.
  rewrite (proj2 (Z.ltb_lt _ _) Hlt), Hw, Hn. simpl app.
  rewrite read_bitmap_loop_acc.
  replace (data (set_offset (offset s + (2 + n)) s)) with (data s)
    by (by destruct s).
  replace (offset (set_offset (offset s + (2 + n)) s))
    with (offset s + (2 + n)) by (by destruct s).
  rewrite (read_bitmap_loop_mono (bitmap_fuel (data s) (offset s + (2 + n))) f);
    [done|done|].
  apply read_bitmap_loop_terminates. by destruct s.
Qed.

Lemma read_bitmap_done (s : DNSIncoming) (end_ : Z) :
  end_ <= offset s -> _read_bitmap end_ s = (Return [], s).
Proof.
  intros H. unfold _read_bitmap, bitmap_fuel.
  destruct (Z.to_nat _) eqn:E; [lia|].
  simpl. unfold bind, get, ret. by rewrite (proj2 (Z.ltb_ge _ _) H).
Qed.

(** C7: the type numbers read from one window of an NSEC bitmap are, in
    this order, the numbers [window*256 + byte_index*8 + bit_index] whose
    bit is set, the bits of a byte being scanned from the most significant
    one ([bit_index] 0 is 0x80); [_read_bitmap] yields the numbers of the
    window at the cursor followed by those of the rest of the bitmap, and
    stops at [end]; bitmap bytes [0x00, 0x01, 0x40] yield exactly [1]. *)
Theorem read_bitmap_msb_first :
  (forall window bitmap,
     window_types window bitmap =
       List.filter (type_present window bitmap)
         (seqZ (window * 256) (8 * len bitmap))) /\
  (forall s end_ window n,
     offset s < end_ ->
     getitem (data s) (offset s) = Some window ->
     getitem (data s) (offset s + 1) = Some n ->
     _read_bitmap end_ s =
       (outcome_map
          (app (window_types window
                  (getslice (data s) (offset s + 2) (offset s + 2 + n))))
          (_read_bitmap end_ (set_offset (offset s + (2 + n)) s)).1,
        (_read_bitmap end_ (set_offset (offset s + (2 + n)) s)).2)) /\
  (forall s end_, end_ <= offset s -> _read_bitmap end_ s = (Return [], s)) /\
  (forall s,
     0 <= offset s ->
     getslice (data s) (offset s) (offset s + 3) = pack [0x00; 0x01; 0x40] ->
     _read_bitmap (offset s + 3) s = (Return [1], set_offset (offset s + 3) s)).
Proof.
  split; [exact window_types_filter|].
  split; [exact read_bitmap_unroll|].
  split; [exact read_bitmap_done|].
  intros s Ho Hs.
  assert (getitem (data s) (offset s) = Some 0) as Hw.
  { rewrite <- (Z.add_0_r (offset s)).
    apply (getslice_at _ _ (offset s + 3) 0 x00); [lia..|]. by rewrite Hs. }
  assert (getitem (data s) (offset s + 1) = Some 1) as Hn.
  { apply (getslice_at _ _ (offset s + 3) 1 x01); [lia..|]. by rewrite Hs. }
  rewrite (read_bitmap_unroll s _ 0 1) by (done || lia).
  rewrite read_bitmap_done by (destruct s; simpl; lia).
  replace (offset s + 2 + 1) with (offset s + 3) by lia.
  rewrite (getslice_suffix _ (offset s)), Hs by lia.
  replace (Z.to_nat (offset s + 2 - offset s)) with 2%nat by lia.
  reflexivity.
Qed.

Lemma read_bitmap_msb_first_witness :
  _answers (__init__ nsec_packet None None None 5).2 =
    [DNSNsec [97; 46] 47 1 120 [46] [1] 5] /\
  _read_bitmap 29 (set_offset 26 (__init__ nsec_packet None None None 5).2) =
    (Return [1], set_offset 29 (__init__ nsec_packet None None None 5).2).
Proof.
  split; [by vm_compute|].
  destruct read_bitmap_msb_first as (_ & _ & _ & H).
  apply (H (set_offset 26 (__init__ nsec_packet None None None 5).2)).
  - by vm_compute.
  - by vm_compute.
Defined.

(** ** What each stage of the decoder touches *)

#[local] Instance unchanged_preorder {A} (f : DNSIncoming -> A) :
  PreOrder (unchanged f).
Proof. split; unfold unchanged; [done|congruence]. Qed.

Lemma preserves_weaken {A} (R R' : relation DNSIncoming) (m : M A) :
  (forall s s', R s s' -> R' s s') -> preserves R m -> preserves R' m.
Proof. intros HR Hm s r s' H. eapply HR, Hm, H. Qed.

Lemma records_step_fields s s' :
  records_step s s' ->
  data s' = data s /\ valid s' = valid s /\ questions s' = questions s /\
  _did_read_others s' = _did_read_others s /\ flags s' = flags s /\
  num_questions s' = num_questions s /\ now s' = now s /\
  exists l, _answers s' = _answers s ++ l.
Proof. intros [l ->]. destruct s; simpl. eauto 10. Qed.

Lemma cursor_step_fields s s' :
  cursor_step s s' ->
  data s' = data s /\ valid s' = valid s /\ questions s' = questions s /\
  _did_read_others s' = _did_read_others s /\ flags s' = flags s /\
  num_questions s' = num_questions s /\ now s' = now s /\
  _answers s' = _answers s.
Proof. unfold cursor_step. intros ->. by destruct s. Qed.

#[local] Instance parse_step_preorder : PreOrder parse_step.
Proof.
  split.
  - done.
  - intros s1 s2 s3 (?&?&?&?) (?&?&?&?). unfold parse_step. split_and!; congruence.
Qed.

Lemma cursor_parse_step s s' : cursor_step s s' -> parse_step s s'.
Proof. intros H. apply cursor_step_fields in H. unfold parse_step. tauto. Qed.

Lemma preserves_cursor_parse {A} (m : M A) :
  preserves cursor_step m -> preserves parse_step m.
Proof. apply preserves_weaken, cursor_parse_step. Qed.

Lemma parse_step_set_header h s : parse_step s (set_header h s).
Proof. destruct s, h as [[[[[??]?]?]?]?]. done. Qed.

Lemma parse_step_set_questions q s : parse_step s (set_questions q s).
Proof. by destruct s. Qed.

#[local] Hint Resolve preserves_cursor_parse parse_step_set_header
  parse_step_set_questions read_question_list_frame : frame.

Lemma read_header_frame : preserves parse_step _read_header.
Proof. unfold _read_header. frame. Qed.

Lemma read_questions_frame : preserves parse_step _read_questions.
Proof. unfold _read_questions. frame. Qed.

(** A list comprehension that raises assigns nothing. *)
Lemma read_questions_raise s e s' :
  _read_questions s = (Raise e, s') -> cursor_step s s'.
Proof.
  unfold _read_questions, bind, get, modify.
  destruct (read_question_list _ s) as [[qs|e'|] s1] eqn:E; [done| |done].
  intros [= <- <-]. eapply read_question_list_frame, E.
Qed.

Lemma read_others_unfold s :
  _read_others s =
    repeat_m (Z.to_nat (num_answers s + num_authorities s + num_additionals s))
      read_other (set_did_read_others true s).
Proof. by destruct s. Qed.

Lemma read_others_frame s r s' :
  _read_others s = (r, s') -> records_step (set_did_read_others true s) s'.
Proof.
  rewrite read_others_unfold.
  apply preserves_repeat_m; [typeclasses eauto|apply read_other_frame].
Qed.

Lemma read_others_fields s r s' :
  _read_others s = (r, s') ->
  data s' = data s /\ valid s' = valid s /\ questions s' = questions s /\
  _did_read_others s' = true /\ flags s' = flags s /\
  num_questions s' = num_questions s /\
  exists l, _answers s' = _answers s ++ l.
Proof.
  intros H. apply read_others_frame, records_step_fields in H.
  destruct s; simpl in *. destruct H as (?&?&?&?&?&?&?&?). eauto 10.
Qed.

(** An iteration of the record loop that raises appends nothing. *)
Lemma read_other_raise s e s' :
  read_other s = (Raise e, s') -> cursor_step s s'.
Proof.
  unfold read_other, bind, get, modify, get_or_raise, try_except, ret.
  destruct (_read_name s) as [[domain|e1|] s1] eqn:E1;
    [|intros [= <- <-]; eapply read_name_frame, E1|done].
  apply read_name_frame in E1.
  destruct (UNPACK_HHiH (data s1) (offset s1)) as [[[[ty cl] ttl] rl]|];
    [|intros [= <- <-]; done].
  destruct (_read_record _ _ _ _ _ _) as [[rec|e2|] s2] eqn:E2.
  - by destruct rec.
  - destruct (DECODE_EXCEPTIONS e2); [done|].
    intros [= <- <-]. apply read_record_frame in E2.
    etransitivity; [exact E1|]. etransitivity; [|exact E2].
    apply cursor_step_set_offset.
  - done.
Qed.

(** ** Construction, [valid] and the deferred record section *)

Lemma initial_parse_run s :
  _initial_parse s =
    match _read_header s with
    | (Return _, s1) =>
      match _read_questions s1 with
      | (Return _, s2) =>
        if num_questions s2 =? 0 then
          match _read_others s2 with
          | (Return _, s3) => (Return tt, set_valid true s3)
          | (Raise e, s3) => (Raise e, s3)
          | (Timeout, s3) => (Timeout, s3)
          end
        else (Return tt, set_valid true s2)
      | (Raise e, s2) => (Raise e, s2)
      | (Timeout, s2) => (Timeout, s2)
      end
    | (Raise e, s1) => (Raise e, s1)
    | (Timeout, s1) => (Timeout, s1)
    end.
Proof.
  unfold _initial_parse, bind at 1.
  destruct (_read_header s) as [[[]|e|] s1]; try done.
  unfold bind at 1.
  destruct (_read_questions s1) as [[[]|e|] s2]; try done.
  unfold bind, get, modify, ret.
  destruct (num_questions s2 =? 0); [|done].
  by destruct (_read_others s2) as [[[]|e|] s3].
Qed.

Lemma answers_run s :
  answers s =
    if _did_read_others s then (Return (_answers s), s)
    else match _read_others s with
         | (Return _, s') => (Return (_answers s'), s')
         | (Raise e, s') =>
           if DECODE_EXCEPTIONS e then (Return (_answers s'), s')
           else (Raise e, s')
         | (Timeout, s') => (Timeout, s')
         end.
Proof.
  unfold answers, bind, get, try_except, ret.
  destruct (_did_read_others s); [done|].
  destruct (_read_others s) as [[[]|e|] s']; try done.
  by destruct (DECODE_EXCEPTIONS e).
Qed.

(** A record whose payload raises one of [DECODE_EXCEPTIONS] is skipped:
    the iteration returns normally with the cursor on the declared end of
    the record and appends nothing. *)
Lemma read_other_resync s domain s1 type_ class_ ttl length e s2 :
  _read_name s = (Return domain, s1) ->
  UNPACK_HHiH (data s1) (offset s1) = Some (type_, class_, ttl, length) ->
  _read_record domain type_ class_ ttl length (set_offset (offset s1 + 10) s1)
    = (Raise e, s2) ->
  DECODE_EXCEPTIONS e = true ->
  read_other s = (Return tt, set_offset (offset s1 + 10 + length) s2) /\
  _answers s2 = _answers s.
Proof.
  intros Hn Hu Hr He.
  unfold read_other, bind, get, modify, get_or_raise, try_except, ret.
  rewrite Hn, Hu, Hr, He. split.
  - by destruct s1.
  - apply read_name_frame, cursor_step_fields in Hn.
    apply read_record_frame, cursor_step_fields in Hr.
    destruct Hn as (_&_&_&_&_&_&_&Hn), Hr as (_&_&_&_&_&_&_&Hr).
    rewrite Hr, <- Hn. by destruct s1.
Qed.

(** C1, as the code has it: on a constructed message [valid] is true
    exactly when the header was read, the question section was read and,
    if the header declares no question, the record section, which
    [_initial_parse] then decodes at once, was read too, all without a decode
    exception reaching [__init__]. A record payload that raises a decode
    exception is skipped and the iteration returns normally, and reading
    [answers] later never changes [valid]. *)
Theorem valid_after_construction (d : bytes) (src : option (str * Z))
    (sc nw : option Z) (clk : Z) (m : DNSIncoming) :
  __init__ d src sc nw clk = (Return tt, m) ->
  (valid m = true <->
     exists s1 s2,
       _read_header (new_object d src sc nw clk) = (Return tt, s1) /\
       _read_questions s1 = (Return tt, s2) /\
       (num_questions s2 = 0 -> exists s3, _read_others s2 = (Return tt, s3))) /\
  (forall r s', answers m = (r, s') -> valid s' = valid m) /\
  (forall s domain s1 type_ class_ ttl length e s2,
     _read_name s = (Return domain, s1) ->
     UNPACK_HHiH (data s1) (offset s1) = Some (type_, class_, ttl, length) ->
     _read_record domain type_ class_ ttl length
        (set_offset (offset s1 + 10) s1) = (Raise e, s2) ->
     DECODE_EXCEPTIONS e = true ->
     read_other s = (Return tt, set_offset (offset s1 + 10 + length) s2)).
Proof.
  intros Hinit. split; [|split].
  - unfold __init__, try_except in Hinit. rewrite initial_parse_run in Hinit.
    set (s0 := new_object d src sc nw clk) in *.
    assert (valid s0 = false) as Hv0 by done.
    destruct (_read_header s0) as [[[]|e|] s1] eqn:Eh.
    + pose proof (read_header_frame _ _ _ Eh) as (Hv1 & _).
      destruct (_read_questions s1) as [[[]|e|] s2] eqn:Eq.
      * pose proof (read_questions_frame _ _ _ Eq) as (Hv2 & _).
        destruct (num_questions s2 =? 0) eqn:Enq.
        -- apply Z.eqb_eq in Enq.
           destruct (_read_others s2) as [[[]|e|] s3] eqn:Eo.
           ++ injection Hinit as <-. split; [|by destruct s3].
              intros _. exists s1, s2. eauto.
           ++ destruct (DECODE_EXCEPTIONS e); [|done].
              injection Hinit as <-.
              pose proof (read_others_fields _ _ _ Eo) as (_ & Hv3 & _).
              split; [congruence|].
              intros (s1' & s2' & [= <-] & H2 & H).
              rewrite Eq in H2. injection H2 as <-.
              destruct (H Enq) as (s3' & H3). congruence.
           ++ done.
        -- apply Z.eqb_neq in Enq. injection Hinit as <-.
           split; [|by destruct s2]. intros _. exists s1, s2.
           split; [done|]. split; [done|]. done.
      * destruct (DECODE_EXCEPTIONS e); [|done]. injection Hinit as <-.
        pose proof (read_questions_frame _ _ _ Eq) as (Hv2 & _).
        split; [congruence|]. intros (s1' & s2' & [= <-] & H & _). congruence.
      * done.
    + destruct (DECODE_EXCEPTIONS e); [|done]. injection Hinit as <-.
      pose proof (read_header_frame _ _ _ Eh) as (Hv1 & _).
      split; [congruence|]. by intros (s1' & s2' & [=] & _).
    + done.
  - intros r s'. rewrite answers_run.
    destruct (_did_read_others m); [by intros [= <- <-]|].
    destruct (_read_others m) as [[[]|e|] s1] eqn:Eo;
      apply read_others_fields in Eo as (_ & Hv & _);
      [|destruct (DECODE_EXCEPTIONS e)|]; by intros [= <- <-].
  - intros. eapply read_other_resync; eauto.
Qed.

Lemma valid_after_construction_witness :
  ((__init__ query_packet None None None 5).1 = Return tt /\
   valid (__init__ query_packet None None None 5).2 = true /\
   (answers (__init__ query_packet None None None 5).2).1 = Return []) /\
  (valid (__init__ query_packet None None None 5).2 = true <->
     exists s1 s2,
       _read_header (new_object query_packet None None None 5) = (Return tt, s1) /\
       _read_questions s1 = (Return tt, s2) /\
       (num_questions s2 = 0 -> exists s3, _read_others s2 = (Return tt, s3))).
Proof.
  split; [by vm_compute|].
  apply (valid_after_construction query_packet None None None 5
           (__init__ query_packet None None None 5).2).
  by vm_compute.
Defined.

(** C1, counterexample to the statement of the specification: the
    response declares one answer and ends after
    the header; the header and the (empty) question section are read without
    error, the record section raises a decode exception, and [valid] is
    false. *)
Lemma valid_false_on_record_section_error :
  (__init__ empty_response_packet None None None 5).1 = Return tt /\
  valid (__init__ empty_response_packet None None None 5).2 = false /\
  (_read_header (new_object empty_response_packet None None None 5)).1
    = Return tt /\
  (_read_questions
     (_read_header (new_object empty_response_packet None None None 5)).2).1
    = Return tt /\
  (_read_others
     (_read_questions
        (_read_header (new_object empty_response_packet None None None 5)).2).2).1
    = Raise IncomingDecodeError.
Proof. by vm_compute. Qed.

(** A header that cannot be read leaves the counts as they were. *)
Lemma read_header_raise s e s' :
  _read_header s = (Raise e, s') -> s' = set_offset (offset s + 12) s.
Proof.
  unfold _read_header, _unpack, bind, modify, get_or_raise.
  destruct (UNPACK_6H _ _); [done|]. by intros [= _ <-].
Qed.

(** C5, as the code has it: once [_did_read_others] is set, [answers]
    returns the stored list and changes nothing; any access sets it, so
    every access after the first returns the same list without decoding.
    Construction leaves the record section undecoded (flag clear, list
    empty) when the header declares a question; when it declares none and
    the header and questions are read, construction decodes the record
    section itself. *)
Theorem answers_deferred_and_cached :
  (forall s, _did_read_others s = true -> answers s = (Return (_answers s), s)) /\
  (forall s r s',
     answers s = (r, s') ->
     _did_read_others s' = true /\
     (forall l, r = Return l -> l = _answers s') /\
     answers s' = (Return (_answers s'), s')) /\
  (forall d src sc nw clk r m,
     __init__ d src sc nw clk = (r, m) ->
     (num_questions m <> 0 -> _did_read_others m = false) /\
     (_did_read_others m = false -> _answers m = []) /\
     (forall s1 s2,
        _read_header (new_object d src sc nw clk) = (Return tt, s1) ->
        _read_questions s1 = (Return tt, s2) ->
        num_questions s2 = 0 -> _did_read_others m = true)).
Proof.
  assert (forall s, _did_read_others s = true ->
            answers s = (Return (_answers s), s)) as Hcached.
  { intros s H. by rewrite answers_run, H. }
  split; [exact Hcached|]. split.
  - intros s r s' H.
    assert (_did_read_others s' = true /\ (forall l, r = Return l -> l = _answers s'))
      as [Hd Hl].
    { rewrite answers_run in H. destruct (_did_read_others s) eqn:Ed.
      - injection H as <- <-. split; [done|]. by intros l [= <-].
      - destruct (_read_others s) as [[[]|e|] s1] eqn:Eo;
          pose proof (read_others_fields _ _ _ Eo) as (_&_&_&Hd&_);
          [|destruct (DECODE_EXCEPTIONS e)|]; injection H as <- <-;
          (split; [done|]); by intros l [= <-]. }
    auto.
  - intros d src sc nw clk r m Hinit.
    unfold __init__, try_except, ret in Hinit.
    rewrite initial_parse_run in Hinit.
    set (s0 := new_object d src sc nw clk) in *.
    assert (_did_read_others s0 = false /\ _answers s0 = [] /\ num_questions s0 = 0)
      as (Hd0 & Ha0 & Hn0) by done.
    destruct (_read_header s0) as [[[]|e|] s1] eqn:Eh;
      pose proof (read_header_frame _ _ _ Eh) as (_ & Hd1 & Ha1 & _).
    2:{ assert (m = s1) as -> by (destruct (DECODE_EXCEPTIONS e); congruence).
        split_and!; [|congruence|done].
        intros Hn. apply read_header_raise in Eh. by subst s1. }
    2:{ injection Hinit as _ <-. split_and!; [congruence|congruence|done]. }
    destruct (_read_questions s1) as [[[]|e|] s2] eqn:Eq;
      pose proof (read_questions_frame _ _ _ Eq) as (_ & Hd2 & Ha2 & _).
    2:{ assert (m = s2) as -> by (destruct (DECODE_EXCEPTIONS e); congruence).
        split_and!; [congruence|congruence|].
        intros s1' s2' [= <-]. congruence. }
    2:{ injection Hinit as _ <-. split_and!; [congruence|congruence|].
        intros s1' s2' [= <-]. congruence. }
    destruct (num_questions s2 =? 0) eqn:Enq.
    + apply Z.eqb_eq in Enq.
      assert (_did_read_others m = true /\ num_questions m = 0) as [Hdm Hnm].
      { destruct (_read_others s2) as [[[]|e|] s3] eqn:Eo;
          pose proof (read_others_fields _ _ _ Eo) as (_&_&_&Hd3&_&Hn3&_).
        - injection Hinit as _ <-. destruct s3; simpl in *. split; congruence.
        - assert (m = s3) as -> by (destruct (DECODE_EXCEPTIONS e); congruence).
          split; congruence.
        - injection Hinit as _ <-. split; congruence. }
      split_and!; [done|congruence|done].
    + apply Z.eqb_neq in Enq. injection Hinit as _ <-.
      split_and!.
      * intros _. destruct s2; simpl in *. congruence.
      * intros _. destruct s2; simpl in *. congruence.
      * intros s1' s2' [= <-] H2. rewrite Eq in H2. injection H2 as <-. done.
Qed.

Lemma answers_deferred_and_cached_witness :
  (_did_read_others (__init__ query_with_answer_packet None None None 5).2 = false /\
   _answers (__init__ query_with_answer_packet None None None 5).2 = [] /\
   (answers (__init__ query_with_answer_packet None None None 5).2).1 =
     Return [DNSAddress [97; 46] 1 1 120 (pack [10; 11; 12; 13]) 5 None]) /\
  answers (answers (__init__ query_with_answer_packet None None None 5).2).2 =
    (Return (_answers (answers (__init__ query_with_answer_packet None None None 5).2).2),
     (answers (__init__ query_with_answer_packet None None None 5).2).2).
Proof.
  split; [by vm_compute|].
  destruct answers_deferred_and_cached as (H & _ & _).
  apply H. by vm_compute.
Defined.

(** C5, counterexample to the statement of the specification: the
    response declares no question, and its
    record section is decoded during construction: the constructed message
    already has [_did_read_others] set and its record in [_answers]. *)
Lemma answers_decoded_during_construction :
  (__init__ response_packet None None None 5).1 = Return tt /\
  _did_read_others (__init__ response_packet None None None 5).2 = true /\
  _answers (__init__ response_packet None None None 5).2 =
    [DNSAddress [97; 46] 1 1 120 (pack [10; 11; 12; 13]) 5 None].
Proof. by vm_compute. Qed.

(** ** What a decode error leaves behind *)

Lemma repeat_m_raise (body : M unit) k j s s_k e s_f :
  repeat_m k body s = (Return tt, s_k) ->
  body s_k = (Raise e, s_f) ->
  repeat_m (k + S j) body s = (Raise e, s_f).
Proof.
  revert s. induction k as [|k IH]; intros s Hk Hb.
  - injection Hk as <-. simpl. unfold bind. by rewrite Hb.
  - simpl in *. unfold bind in *.
    destruct (body s) as [[[]|e'|] s1]; try done. by apply IH.
Qed.

Lemma read_header_questions : preserves (unchanged questions) _read_header.
Proof.
  intros s r s'. unfold _read_header, _unpack, bind, modify, get_or_raise.
  simpl. destruct (UNPACK_6H _ _) as [[[[[[??]?]?]?]?]|];
    intros [= <- <-]; by destruct s.
Qed.

(** C4, as the code has it: when a decode exception stops the decoding,
    the constructor, or [answers], still returns; the records decoded before
    the failing one are in the record list, and a failure in the record
    section leaves the question list untouched; a failure in the question
    section leaves the question list as it was, empty at construction: the
    questions decoded before the failure are not kept. *)
Theorem decode_error_keeps_records (d : bytes) (src : option (str * Z))
    (sc nw : option Z) (clk : Z) :
  (forall e m,
     _initial_parse (new_object d src sc nw clk) = (Raise e, m) ->
     DECODE_EXCEPTIONS e = true ->
     __init__ d src sc nw clk = (Return tt, m)) /\
  (forall s e s',
     _did_read_others s = false ->
     _read_others s = (Raise e, s') ->
     DECODE_EXCEPTIONS e = true ->
     answers s = (Return (_answers s'), s')) /\
  (forall s k s_k e s_f,
     (k < Z.to_nat (num_answers s + num_authorities s + num_additionals s))%nat ->
     repeat_m k read_other (set_did_read_others true s) = (Return tt, s_k) ->
     read_other s_k = (Raise e, s_f) ->
     _read_others s = (Raise e, s_f) /\
     _answers s_f = _answers s_k /\
     questions s_f = questions s) /\
  (forall s e s', _read_questions s = (Raise e, s') -> questions s' = questions s) /\
  (forall s1 e s2,
     _read_header (new_object d src sc nw clk) = (Return tt, s1) ->
     _read_questions s1 = (Raise e, s2) ->
     DECODE_EXCEPTIONS e = true ->
     __init__ d src sc nw clk = (Return tt, s2) /\
     questions s2 = [] /\ valid s2 = false).
Proof.
  split_and!.
  - intros e m H He. unfold __init__, try_except. by rewrite H, He.
  - intros s e s' Hd H He. by rewrite answers_run, Hd, H, He.
  - intros s k s_k e s_f Hk Hrun Hfail.
    pose proof (read_other_raise _ _ _ Hfail) as Hc.
    apply cursor_step_fields in Hc as (_&_&Hq&_&_&_&_&Ha).
    pose proof (preserves_repeat_m records_step k read_other read_other_frame
                  _ _ _ Hrun) as Hr.
    apply records_step_fields in Hr as (_&_&Hq'&_).
    split_and!.
    + rewrite read_others_unfold.
      replace (Z.to_nat _) with (k + S (Z.to_nat (num_answers s
        + num_authorities s + num_additionals s) - S k))%nat by lia.
      by eapply repeat_m_raise.
    + done.
    + rewrite Hq, Hq'. by destruct s.
  - intros s e s' H. apply read_questions_raise, cursor_step_fields in H. tauto.
  - intros s1 e s2 Hh Hq He.
    pose proof (read_header_questions _ _ _ Hh) as Hq1.
    pose proof (read_header_frame _ _ _ Hh) as (Hv1 & _).
    pose proof (read_questions_raise _ _ _ Hq) as Hc.
    apply cursor_step_fields in Hc as (_&Hv2&Hq2&_).
    split_and!.
    + unfold __init__, try_except. by rewrite initial_parse_run, Hh, Hq, He.
    + by rewrite Hq2, Hq1.
    + by rewrite Hv2, Hv1.
Qed.

Lemma decode_error_keeps_records_witness :
  __init__ two_answers_packet None None None 5 =
    (Return tt, (__init__ two_answers_packet None None None 5).2) /\
  _answers (__init__ two_answers_packet None None None 5).2 =
    [DNSAddress [97; 46] 1 1 120 (pack [10; 11; 12; 13]) 5 None] /\
  valid (__init__ two_answers_packet None None None 5).2 = false.
Proof.
  split; [|by vm_compute].
  apply (decode_error_keeps_records two_answers_packet None None None 5)
    with (e := struct_error); by vm_compute.
Defined.

(** C4, counterexample to the statement of the specification: the first
    of the two questions is complete, the
    second is cut; the constructor returns, and the question list is empty
    although reading one question from the same position succeeds. *)
Lemma decoded_questions_not_kept :
  (__init__ two_questions_packet None None None 5).1 = Return tt /\
  questions (__init__ two_questions_packet None None None 5).2 = [] /\
  (read_question_list 1
     (_read_header (new_object two_questions_packet None None None 5)).2).1 =
    Return [DNSQuestion [97; 46] 1 1] /\
  (read_question_list 2
     (_read_header (new_object two_questions_packet None None None 5)).2).1 =
    Raise IncomingDecodeError.
Proof. by vm_compute. Qed.

(** C2, the code at the failing input: the second of three records is an
    HINFO record with a correct rdlength whose CPU string is not UTF-8. The
    strict decoding raises [UnicodeDecodeError], which no [except] clause of
    the decoder catches: the constructor raises it for the response, and
    [answers] raises it for the query, with only the first record decoded.
    A payload that raises one of [DECODE_EXCEPTIONS] is skipped as the
    specification says: with a self-pointing PTR payload the first and third records are
    decoded and [valid] is true. *)
Theorem hinfo_invalid_utf8_not_skipped :
  ((__init__ hinfo_packet None None None 5).1 = Raise UnicodeDecodeError /\
   valid (__init__ hinfo_packet None None None 5).2 = false /\
   _answers (__init__ hinfo_packet None None None 5).2 =
     [DNSAddress [97; 46] 1 1 120 (pack [10; 11; 12; 13]) 5 None]) /\
  ((__init__ hinfo_query_packet None None None 5).1 = Return tt /\
   (answers (__init__ hinfo_query_packet None None None 5).2).1 =
     Raise UnicodeDecodeError /\
   _answers (answers (__init__ hinfo_query_packet None None None 5).2).2 =
     [DNSAddress [97; 46] 1 1 120 (pack [10; 11; 12; 13]) 5 None]) /\
  ((__init__ self_pointer_packet None None None 5).1 = Return tt /\
   valid (__init__ self_pointer_packet None None None 5).2 = true /\
   _answers (__init__ self_pointer_packet None None None 5).2 =
     [DNSAddress [97; 46] 1 1 120 (pack [10; 11; 12; 13]) 5 None;
      DNSAddress [97; 46] 1 1 120 (pack [10; 11; 12; 14]) 5 None]).
Proof. by vm_compute. Qed.

(** ** Name decompression: one iteration, fuel and termination *)

(** Splits one iteration of [_decode_labels_at_offset], already unfolded,
    into its eleven paths: end of name, label, reserved length, pointer
    beyond the buffer, pointer to itself, pointer seen, pointer followed,
    pointer found in the cache, no second pointer byte, no length byte,
    cursor at the end of the buffer. *)
Ltac decode_paths d cache off seen :=
  destruct (off <? len d) eqn:Hlt;
  [ destruct (getitem d off) as [n|] eqn:Hn;
    [ destruct (n =? 0) eqn:Hz;
      [ | destruct (n <? 0x40) eqn:Hl;
          [ | destruct (n <? 0xC0) eqn:Hr;
              [ | destruct (getitem d (off + 1)) as [low|] eqn:Hlow;
                  [ destruct (len d <? Z.land n 63 * 256 + low) eqn:Hb;
                    [ | destruct (Z.land n 63 * 256 + low =? off) eqn:Hs;
                        [ | destruct (bool_decide (Z.land n 63 * 256 + low ∈ seen)) eqn:Hc;
                            [ | destruct (default [] (cache !! (Z.land n 63 * 256 + low)))
                                  as [|l0 ls] eqn:Hk ] ] ]
                  | ] ] ] ]
    | ]
  | ].

(** More fuel does not change a result. *)
Lemma decode_mono fuel fuel' d cache off labels seen :
  (fuel <= fuel')%nat ->
  dr_out (_decode_labels_at_offset fuel d cache off labels seen) <> Timeout ->
  _decode_labels_at_offset fuel' d cache off labels seen =
    _decode_labels_at_offset fuel d cache off labels seen.
Proof.
  revert fuel' off labels seen.
  induction fuel as [|fuel IH]; intros fuel' off labels seen Hle Hout.
  { by destruct Hout. }
  destruct fuel' as [|fuel']; [lia|].
  cbn [_decode_labels_at_offset] in *.
  decode_paths d cache off seen; try reflexivity.
  - apply IH; [lia|done].
  - rewrite (IH fuel'); [done|lia|].
    intros E. rewrite E in Hout. by apply Hout.
Qed.

(** A call never assigns the cache entry of a pointer it was given as
    visited. In particular the call made for the target [link], which is
    given [link] as visited, leaves the entry of [link] alone: the list
    object it appends to is the one the entry holds, from the lookup to the
    assignment that follows the call. *)
Lemma decode_keeps_seen_entries fuel d cache off labels seen k :
  k ∈ seen ->
  dr_cache (_decode_labels_at_offset fuel d cache off labels seen) !! k
    = cache !! k.
Proof.
  revert off labels seen.
  induction fuel as [|fuel IH]; intros off labels seen Hin; [done|].
  cbn [_decode_labels_at_offset].
  decode_paths d cache off seen; try done.
  - by apply IH.
  - apply bool_decide_eq_false in Hc.
    set (link := Z.land n 63 * 256 + low) in *.
    assert (link <> k) as Hne by (by intros ->).
    specialize (IH link [] ({[link]} ∪ seen) (elem_of_union_r _ _ _ Hin)).
    destruct (dr_out _); simpl.
    + by rewrite lookup_insert_ne.
    + destruct (cache !! link); [by rewrite lookup_insert_ne|done].
    + done.
Qed.

Lemma elem_of_range_set d x : x ∈ range_set d <-> 0 <= x <= len d.
Proof. unfold range_set. rewrite elem_of_list_to_set, elem_of_seqZ. lia. Qed.

Lemma unseen_empty d : unseen d ∅ = Z.to_nat (len d + 1).
Proof.
  unfold unseen, range_set. rewrite difference_empty_L.
  rewrite size_list_to_set by apply NoDup_seqZ. by rewrite length_seqZ.
Qed.

Lemma unseen_add d link seen :
  0 <= link <= len d -> link ∉ seen ->
  unseen d seen = S (unseen d ({[link]} ∪ seen)).
Proof.
  intros Hr Hs. unfold unseen.
  assert (range_set d ∖ seen = {[link]} ∪ range_set d ∖ ({[link]} ∪ seen)) as ->.
  { apply set_eq. intros x. rewrite elem_of_union, !elem_of_difference,
      elem_of_union, elem_of_singleton.
    destruct (decide (x = link)) as [->|]; [|tauto].
    rewrite elem_of_range_set. tauto. }
  rewrite size_union, size_singleton; [done|].
  intros x Hx1 Hx2. apply elem_of_singleton in Hx1 as ->.
  apply elem_of_difference in Hx2 as [_ Hx2].
  apply Hx2, elem_of_union_l, elem_of_singleton. done.
Qed.

Lemma name_fuel_measure d off : (measure d off ∅ <= name_fuel d off)%nat.
Proof.
  unfold measure, name_fuel. rewrite unseen_empty.
  pose proof (len_nonneg d). apply Nat2Z.inj_le.
  rewrite !Nat2Z.inj_add, Nat2Z.inj_mul, !Z2Nat.id by lia. lia.
Qed.

Lemma pointer_target_nonneg n low : 0 <= low -> 0 <= Z.land n 63 * 256 + low.
Proof.
  intros Hl. assert (0 <= Z.land n 63) by (apply Z.land_nonneg; lia). lia.
Qed.

(** Name decompression ends: a label moves the offset forward, a pointer
    that is followed targets an offset of the buffer not followed before. *)
Lemma decode_terminates fuel d cache off labels seen :
  (measure d off seen <= fuel)%nat ->
  dr_out (_decode_labels_at_offset fuel d cache off labels seen) <> Timeout.
Proof.
  revert off labels seen.
  induction fuel as [|fuel IH]; intros off labels seen Hm.
  { unfold measure in Hm. nia. }
  cbn [_decode_labels_at_offset].
  decode_paths d cache off seen; try done.
  - apply IH. apply getitem_Some in Hn.
    unfold measure, DNS_COMPRESSION_HEADER_LEN in *. lia.
  - apply getitem_Some in Hlow.
    pose proof (pointer_target_nonneg n low ltac:(lia)) as Hp.
    apply Z.ltb_ge in Hb. apply bool_decide_eq_false in Hc.
    set (link := Z.land n 63 * 256 + low) in *.
    specialize (IH link [] ({[link]} ∪ seen)).
    destruct (dr_out _) eqn:E; [by case_match|done|].
    exfalso. apply IH; [|done].
    unfold measure in *. rewrite (unseen_add d link seen) in Hm by (done || lia).
    rewrite Nat.mul_succ_l in Hm. nia.
  - by case_match.
Qed.

(** Two runs that both end agree, whatever their fuel. *)
Lemma decode_fuel_irrelevant f1 f2 d cache off labels seen :
  dr_out (_decode_labels_at_offset f1 d cache off labels seen) <> Timeout ->
  dr_out (_decode_labels_at_offset f2 d cache off labels seen) <> Timeout ->
  _decode_labels_at_offset f1 d cache off labels seen =
    _decode_labels_at_offset f2 d cache off labels seen.
Proof.
  intros H1 H2. destruct (Nat.le_ge_cases f1 f2).
  - symmetry. by apply decode_mono.
  - by apply decode_mono.
Qed.

(** A run that ends is the run with the fuel [_read_name] gives. *)
Lemma decode_name_fuel f d cache off labels :
  dr_out (_decode_labels_at_offset f d cache off labels ∅) <> Timeout ->
  _decode_labels_at_offset (name_fuel d off) d cache off labels ∅ =
    _decode_labels_at_offset f d cache off labels ∅.
Proof.
  intros H. apply decode_fuel_irrelevant; [|done].
  apply decode_terminates, name_fuel_measure.
Qed.

Lemma total_ret {A} (a : A) : total (ret a).
Proof. done. Qed.

Lemma total_get {A} (f : DNSIncoming -> A) : total (get f).
Proof. done. Qed.

Lemma total_modify f : total (modify f).
Proof. done. Qed.

Lemma total_get_or_raise {A} e (f : DNSIncoming -> option A) :
  total (get_or_raise e f).
Proof. intros s. unfold get_or_raise. by destruct (f s). Qed.

Lemma total_bind {A B} (m : M A) (k : A -> M B) :
  total m -> (forall a, total (k a)) -> total (bind m k).
Proof.
  intros Hm Hk s. unfold bind. specialize (Hm s).
  destruct (m s) as [[a|e|] s1]; [apply Hk|done|done].
Qed.

Lemma total_try_except {A} (m h : M A) :
  total m -> total h -> total (try_except m h).
Proof.
  intros Hm Hh s. unfold try_except. specialize (Hm s).
  destruct (m s) as [[a|e|] s1]; [done| |done].
  destruct (DECODE_EXCEPTIONS e); [apply Hh|done].
Qed.

Lemma total_repeat_m n body : total body -> total (repeat_m n body).
Proof.
  intros Hb. induction n as [|n IH]; simpl; [done|]. by apply total_bind.
Qed.

Lemma read_name_total : total _read_name.
Proof.
  intros s. unfold _read_name.
  pose proof (decode_terminates (name_fuel (data s) (offset s)) (data s)
                (name_cache s) (offset s) [] ∅ (name_fuel_measure _ _)) as H.
  destruct (dr_out _); [by case_match|done|done].
Qed.

Lemma read_bitmap_total end_ : total (_read_bitmap end_).
Proof. intros s. by apply read_bitmap_loop_terminates. Qed.

Create HintDb total.

#[local] Hint Resolve read_name_total read_bitmap_total : total.

(** Walks through a method and leaves the goals about its loops. *)
Ltac totality :=
  repeat first
    [ solve [eauto with total]
    | apply total_ret
    | apply total_get
    | apply total_modify
    | apply total_get_or_raise
    | apply total_bind; [|intros ?]
    | apply total_try_except
    | apply total_repeat_m
    | match goal with
      | |- total (if ?b then _ else _) => destruct b
      | |- total (match ?x with _ => _ end) => destruct x
      end ].

Lemma read_record_total domain type_ class_ ttl length :
  total (_read_record domain type_ class_ ttl length).
Proof.
  unfold _read_record, _read_string, _unpack, _read_character_string,
    decode_utf8.
  totality.
Qed.

#[local] Hint Resolve read_record_total : total.

Lemma read_other_total : total read_other.
Proof. unfold read_other. totality. Qed.

Lemma read_question_list_total n : total (read_question_list n).
Proof. induction n as [|n IH]; simpl; unfold _unpack; totality. Qed.

#[local] Hint Resolve read_other_total read_question_list_total : total.

Lemma read_others_total : total _read_others.
Proof. unfold _read_others. totality. Qed.

#[local] Hint Resolve read_others_total : total.

Lemma initial_parse_total : total _initial_parse.
Proof.
  unfold _initial_parse, _read_header, _read_questions, _unpack. totality.
Qed.

Lemma answers_total : total answers.
Proof. unfold answers. totality. Qed.

(** ** Name decompression as a walk *)

(** Sets up the conditions of a path of one iteration so that the
    unfolded iteration reduces along it. *)
Ltac on_path :=
  match goal with
  | |- context [_decode_labels_at_offset (S ?f) _ _ _ _ _] =>
    let x := fresh "fuel" in
    let E := fresh in
    remember f as x eqn:E; cbn [_decode_labels_at_offset]; subst x
  end;
  repeat match goal with
  | H : ?a < ?b |- context [?a <? ?b] => rewrite (proj2 (Z.ltb_lt a b) H)
  | H : getitem ?d ?o = Some _ |- context [getitem ?d ?o] => rewrite H
  end.

Lemma step_measure d cache c c' :
  step d cache c c' ->
  (measure d (c_off c') (c_seen c') < measure d (c_off c) (c_seen c))%nat.
Proof.
  intros [off labels seen n Hlt Hn Hr|off labels seen n low Hlt Hn Hr Hlow Hb Hs Hc Hk];
    simpl; unfold measure.
  - lia.
  - apply getitem_Some in Hlow.
    pose proof (pointer_target_nonneg n low ltac:(lia)).
    rewrite (unseen_add d _ seen) by (done || lia).
    rewrite Nat.mul_succ_l. nia.
Qed.


(** The moves are the decoder's: a call goes on exactly as long as the
    call at the next position does, and where there is no move one
    iteration ends the call. *)
Lemma step_timeout d cache c c' fuel :
  step d cache c c' ->
  dr_out (run (S fuel) d cache c) = Timeout <->
  dr_out (run fuel d cache c') = Timeout.
Proof.
  intros [off labels seen n Hlt Hn Hr|off labels seen n low Hlt Hn Hr Hlow Hb Hs Hc Hk];
    unfold run; simpl c_off; simpl c_labels; simpl c_seen; on_path.
  - rewrite (proj2 (Z.eqb_neq n 0)), (proj2 (Z.ltb_lt n 64)) by lia. done.
  - rewrite (proj2 (Z.eqb_neq n 0)), (proj2 (Z.ltb_ge n 64)),
      (proj2 (Z.ltb_ge n 192)), (proj2 (Z.ltb_ge _ _) Hb),
      (proj2 (Z.eqb_neq _ _) Hs), bool_decide_eq_false_2, Hk by (done || lia).
    destruct (dr_out (_decode_labels_at_offset fuel _ _ _ _ _)); simpl;
      [by case_match|done|done].
Qed.

Lemma no_step_ends d cache c fuel :
  (forall c', ~ step d cache c c') ->
  dr_out (run (S fuel) d cache c) <> Timeout.
Proof.
  destruct c as [off labels seen]. intros Hno. unfold run. simpl.
  decode_paths d cache off seen; simpl; try done.
  - exfalso. apply Z.ltb_lt in Hlt, Hl. apply Z.eqb_neq in Hz.
    pose proof (getitem_Some _ _ _ Hn) as [_ ?].
    eapply Hno, step_label; [done|done|lia].
  - exfalso. apply Z.ltb_lt in Hlt. apply Z.ltb_ge in Hr, Hb.
    apply Z.eqb_neq in Hs. apply bool_decide_eq_false in Hc.
    by eapply Hno, step_pointer.
  - by case_match.
Qed.



(** C9: decoding ends, for every buffer and from every state: neither the
    constructor, nor [answers], [_read_name] or [_read_bitmap] exhausts the
    fuel of its loops. A call of the label loop goes on only through a move
    to a next position: a label moves the offset forward, and a pointer that
    is followed adds to the visited set an offset between 0 and the length
    of the buffer that was not in it, so that the number of moves left
    decreases. An iteration of the bitmap loop reads two bytes inside the
    buffer and moves the cursor by two or more. *)
Theorem decoding_terminates :
  (forall d src sc nw clk, (__init__ d src sc nw clk).1 <> Timeout) /\
  (forall s, (answers s).1 <> Timeout) /\
  (forall s, (_read_name s).1 <> Timeout) /\
  (forall s end_, (_read_bitmap end_ s).1 <> Timeout) /\
  (forall d cache c c',
     step d cache c c' ->
     (c_off c < c_off c' /\ c_seen c' = c_seen c \/
      0 <= c_off c' <= len d /\ (c_off c' ∉ c_seen c) /\
      c_seen c' = {[c_off c']} ∪ c_seen c) /\
     (measure d (c_off c') (c_seen c') < measure d (c_off c) (c_seen c))%nat /\
     (forall fuel,
        dr_out (run (S fuel) d cache c) = Timeout <->
        dr_out (run fuel d cache c') = Timeout)) /\
  (forall d cache c fuel,
     (forall c', ~ step d cache c c') ->
     dr_out (run (S fuel) d cache c) <> Timeout) /\
  (forall s end_ rd window n fuel,
     offset s < end_ ->
     getitem (data s) (offset s) = Some window ->
     getitem (data s) (offset s + 1) = Some n ->
     offset s + 1 < len (data s) /\ 0 <= n /\
     read_bitmap_loop (S fuel) end_ rd s =
       read_bitmap_loop fuel end_
         (rd ++ window_types window
                  (getslice (data s) (offset s + 2) (offset s + 2 + n)))
         (set_offset (offset s + (2 + n)) s)).
Proof.
  split_and!.
  - intros. unfold __init__.
    apply total_try_except; [apply initial_parse_total|apply total_ret].
  - apply answers_total.
  - apply read_name_total.
  - intros s end_. apply read_bitmap_total.
  - intros d cache c c' Hs.
    split; [|split; [by eapply step_measure|by intros; apply step_timeout]].
    destruct Hs as [off labels seen n Hlt Hn Hr
                   |off labels seen n low Hlt Hn Hr Hlow Hb Hs Hc Hk]; simpl.
    + left. split; [lia|done].
    + right. apply getitem_Some in Hlow.
      pose proof (pointer_target_nonneg n low ltac:(lia)). done.
  - apply no_step_ends.
  - intros s end_ rd window n fuel Hlt Hw Hn.
    pose proof (getitem_Some _ _ _ Hn) as [? ?]. split_and!; [lia..|].
    simpl. unfold bind, get, get_or_raise, modify, ret.
    by rewrite (proj2 (Z.ltb_lt _ _) Hlt), Hw, Hn.
Qed.

Lemma decoding_terminates_witness :
  (__init__ nsec_packet None None None 5).1 <> Timeout /\
  (measure nsec_packet 14 ∅ < measure nsec_packet 12 ∅)%nat.
Proof.
  destruct decoding_terminates as (Hinit & _ & _ & _ & Hstep & _).
  split; [apply Hinit|].
  eapply (Hstep nsec_packet ∅ (mkConfig 12 [] ∅)
           (mkConfig (12 + (1 + 1))
              ([] ++ [decode_replace (getslice nsec_packet (12 + 1) (12 + 1 + 1))])
              ∅)).
  apply step_label; [by vm_compute|by vm_compute|lia].
Defined.

(** ** Pointers that must fail *)





(** ** What the name cache holds *)

Lemma name_at_inv d h off labels n :
  name_at d h off labels -> getitem d off = Some n ->
  off < len d /\
  (n = 0 /\ h = 0%nat /\ labels = [] \/
   (0 < n < 0x40 /\ exists h' labels',
      h = S h' /\
      labels = decode_replace (getslice d (off + 1) (off + 1 + n)) :: labels' /\
      name_at d h' (off + (1 + n)) labels') \/
   (0xC0 <= n /\ exists h' low,
      h = S h' /\ getitem d (off + 1) = Some low /\
      name_at d h' (Z.land n 0x3F * 256 + low) labels)).
Proof.
  intros H Hn.
  destruct H as [off Hlt Hg|h off m labels Hlt Hg Hr H
                |h off m low labels Hlt Hg Hr Hl H];
    rewrite Hg in Hn; injection Hn as <-; (split; [done|]).
  - by left.
  - right. left. eauto 10.
  - right. right. eauto 10.
Qed.

(** The bytes determine the name. *)
Lemma name_at_fun d h1 off labels1 :
  name_at d h1 off labels1 ->
  forall h2 labels2, name_at d h2 off labels2 -> h1 = h2 /\ labels1 = labels2.
Proof.
  intros H1.
  induction H1 as [off Hlt Hg|h off n labels Hlt Hg Hr H1' IH
                  |h off n low labels Hlt Hg Hr Hl H1' IH];
    intros h2 labels2 H2;
    pose proof (name_at_inv _ _ _ _ _ H2 Hg)
      as [_ [(Hn0&Hh&HL)|[(Hn0&h'&l'&Hh&HL&H')|(Hn0&h'&low'&Hh&Hl'&H')]]];
    try lia; subst.
  - done.
  - destruct (IH _ _ H') as [-> ->]. done.
  - rewrite Hl in Hl'. injection Hl' as <-.
    destruct (IH _ _ H') as [-> ->]. done.
Qed.

Lemma cache_ok_insert d cache k labels h :
  cache_ok d cache -> name_at d h k labels -> cache_ok d (<[k := labels]> cache).
Proof.
  intros Hok Hname k' labels'. rewrite lookup_insert.
  destruct (decide (k = k')) as [->|]; [|apply Hok].
  intros [= <-]. eauto.
Qed.

Lemma default_nil_lookup {A} (o : option (list A)) l0 ls :
  default [] o = l0 :: ls -> o = Some (l0 :: ls).
Proof. by destruct o as [l|]; simpl; intros; subst. Qed.

(** What a call of the decoder appends is the name at its offset, in
    full when it returns and a prefix of it otherwise, and it keeps the
    cache right. *)
Lemma decode_sound fuel d cache off labels seen :
  cache_ok d cache ->
  cache_ok d (dr_cache (_decode_labels_at_offset fuel d cache off labels seen)) /\
  (forall v,
     dr_out (_decode_labels_at_offset fuel d cache off labels seen) = Return v ->
     exists h L,
       dr_labels (_decode_labels_at_offset fuel d cache off labels seen)
         = labels ++ L /\
       name_at d h off L) /\
  (forall h L,
     name_at d h off L ->
     exists P,
       dr_labels (_decode_labels_at_offset fuel d cache off labels seen)
         = labels ++ P /\
       P `prefix_of` L).
Proof.
  intros Hok. revert off labels seen.
  assert (forall (labels : list str) L, exists P : list str,
            labels = labels ++ P /\ P `prefix_of` L) as Hnil.
  { intros labels L. exists []. rewrite app_nil_r. split; [done|apply prefix_nil]. }
  induction fuel as [|fuel IH]; intros off labels seen.
  { simpl. split_and!; [done|done|auto]. }
  cbn [_decode_labels_at_offset].
  decode_paths d cache off seen; simpl; try (split_and!; [done|done|by auto]).
  - (* end of name *)
    apply Z.ltb_lt in Hlt. apply Z.eqb_eq in Hz as ->. split_and!; [done| |].
    + intros v _. exists 0%nat, []. rewrite app_nil_r. split; [done|].
      by apply name_at_end.
    + auto.
  - (* label *)
    apply Z.ltb_lt in Hlt, Hl. apply Z.eqb_neq in Hz.
    pose proof (getitem_Some _ _ _ Hn) as [_ ?].
    unfold DNS_COMPRESSION_HEADER_LEN.
    destruct (IH (off + (1 + n))
                (labels ++ [decode_replace (getslice d (off + 1) (off + 1 + n))])
                seen) as (IHc & IHr & IHp).
    split_and!; [done| |].
    + intros v Hv. destruct (IHr v Hv) as (h & L & -> & HL).
      exists (S h), (decode_replace (getslice d (off + 1) (off + 1 + n)) :: L).
      rewrite <- app_assoc. split; [done|].
      apply name_at_label; [done|done|lia|done].
    + intros h L HL.
      pose proof (name_at_inv _ _ _ _ _ HL Hn)
        as [_ [(?&?&?)|[(?&h'&L'&->&->&H')|(?&?)]]]; try lia.
      destruct (IHp _ _ H') as (P & -> & HP).
      exists (decode_replace (getslice d (off + 1) (off + 1 + n)) :: P).
      rewrite <- app_assoc. split; [done|]. by apply prefix_cons.
  - (* pointer followed *)
    apply Z.ltb_lt in Hlt. apply Z.ltb_ge in Hr.
    set (link := Z.land n 63 * 256 + low) in *.
    destruct (IH link [] ({[link]} ∪ seen)) as (IHc & IHr & IHp).
    destruct (dr_out (_decode_labels_at_offset fuel d cache link [] _)) eqn:E;
      simpl.
    + destruct (IHr _ eq_refl) as (h & L & HL & Hname). simpl in HL.
      split_and!.
      * rewrite HL. by eapply cache_ok_insert.
      * intros v _. exists (S h), L. rewrite HL. split; [done|].
        by eapply name_at_pointer.
      * intros h0 L0 H0.
        pose proof (name_at_inv _ _ _ _ _ H0 Hn)
          as [_ [(?&?&?)|[(?&?)|(_&h'&low'&->&Hl'&H')]]]; try lia.
        rewrite Hlow in Hl'. injection Hl' as <-.
        destruct (name_at_fun _ _ _ _ Hname _ _ H') as [_ <-].
        exists L. by rewrite HL.
    + split_and!; [|done|auto].
      destruct (cache !! link) as [x|] eqn:Hx; [|done].
      simpl in Hk. subst x. destruct (Hok _ _ Hx) as [h Hname].
      destruct (IHp _ _ Hname) as (P & HP & Hpre).
      apply prefix_nil_inv in Hpre as ->. simpl in HP.
      rewrite HP. by eapply cache_ok_insert.
    + split_and!; [done|done|auto].
  - (* pointer found in the cache *)
    apply Z.ltb_lt in Hlt. apply Z.ltb_ge in Hr.
    apply default_nil_lookup in Hk. destruct (Hok _ _ Hk) as [h Hname].
    split_and!; [done| |].
    + intros v _. exists (S h), (l0 :: ls). split; [done|].
      by eapply name_at_pointer.
    + intros h0 L0 H0.
      pose proof (name_at_inv _ _ _ _ _ H0 Hn)
        as [_ [(?&?&?)|[(?&?)|(_&h'&low'&->&Hl'&H')]]]; try lia.
      rewrite Hlow in Hl'. injection Hl' as <-.
      destruct (name_at_fun _ _ _ _ Hname _ _ H') as [_ <-].
      by exists (l0 :: ls).
Qed.

#[local] Instance cache_step_preorder : PreOrder cache_step.
Proof.
  split.
  - done.
  - intros s1 s2 s3 [Hd1 H1] [Hd2 H2]. split; [congruence|auto].
Qed.

Lemma cache_step_set_offset o s : cache_step s (set_offset o s).
Proof. by destruct s. Qed.

Lemma cache_step_set_header h s : cache_step s (set_header h s).
Proof. destruct s, h as [[[[[??]?]?]?]?]. done. Qed.

Lemma cache_step_set_questions q s : cache_step s (set_questions q s).
Proof. by destruct s. Qed.

Lemma cache_step_set_answers a s : cache_step s (set_answers a s).
Proof. by destruct s. Qed.

Lemma cache_step_set_did_read_others b s : cache_step s (set_did_read_others b s).
Proof. by destruct s. Qed.

Lemma cache_step_set_valid b s : cache_step s (set_valid b s).
Proof. by destruct s. Qed.

Lemma read_name_cache : preserves cache_step _read_name.
Proof.
  intros s r s'. unfold _read_name.
  pose proof (decode_sound (name_fuel (data s) (offset s)) (data s)
                (name_cache s) (offset s) [] ∅) as Hsound.
  destruct (dr_out _) eqn:E.
  - intros H.
    assert (s' = set_name_cache
                   (<[offset s := dr_labels (_decode_labels_at_offset
                        (name_fuel (data s) (offset s)) (data s)
                        (name_cache s) (offset s) [] ∅)]>
                      (dr_cache (_decode_labels_at_offset
                        (name_fuel (data s) (offset s)) (data s)
                        (name_cache s) (offset s) [] ∅)))
                   (set_offset a s)) as -> by (case_match; congruence).
    split; [by destruct s|]. intros Hok.
    destruct (Hsound Hok) as (Hc & Hr & _).
    destruct (Hr _ eq_refl) as (h & L & HL & Hname). simpl in HL.
    destruct s; simpl in *. rewrite HL. by eapply cache_ok_insert.
  - intros [= <- <-]. split; [by destruct s|]. intros Hok.
    destruct (Hsound Hok) as (Hc & _). by destruct s.
  - intros [= <- <-]. split; [by destruct s|]. intros Hok.
    destruct (Hsound Hok) as (Hc & _). by destruct s.
Qed.

#[local] Hint Resolve cache_step_set_offset cache_step_set_header
  cache_step_set_questions cache_step_set_answers
  cache_step_set_did_read_others cache_step_set_valid read_name_cache : frame.

Lemma read_bitmap_loop_cache fuel end_ rd :
  preserves cache_step (read_bitmap_loop fuel end_ rd).
Proof.
  revert rd. induction fuel as [|fuel IH]; intros rd; simpl.
  - intros s r s' [= <- <-]. reflexivity.
  - frame.
Qed.

Lemma read_bitmap_cache end_ : preserves cache_step (_read_bitmap end_).
Proof. intros s r s'. unfold _read_bitmap. apply read_bitmap_loop_cache. Qed.

#[local] Hint Resolve read_bitmap_cache : frame.

Lemma read_others_cache : preserves cache_step _read_others.
Proof.
  unfold _read_others, read_other, _read_record, _read_string, _unpack,
    _read_character_string, decode_utf8.
  frame.
Qed.

Lemma read_question_list_cache n : preserves cache_step (read_question_list n).
Proof. induction n as [|n IH]; simpl; unfold _unpack; frame. Qed.

#[local] Hint Resolve read_others_cache read_question_list_cache : frame.


Lemma answers_cache : preserves cache_step answers.
Proof. unfold answers. frame. Qed.


Lemma answers_cache_ok s :
  cache_ok (data s) (name_cache s) ->
  cache_ok (data (answers s).2) (name_cache (answers s).2).
Proof.
  destruct (answers s) as [r s'] eqn:E. apply answers_cache in E as [_ E].
  exact E.
Qed.

(** ** A cached target and the same target decoded directly *)







(** * Further properties *)

(** ** The header *)

Lemma ord_pack_byte (z : Z) :
  0 <= z < 256 -> ord (default x00 (Byte.of_N (Z.to_N z))) = z.
Proof.
  intros Hz. unfold ord.
  destruct (Byte.of_N (Z.to_N z)) as [b|] eqn:E.
  - apply Byte.to_of_N in E. simpl. rewrite E. lia.
  - apply Byte.of_N_None_iff in E. lia.
Qed.

Lemma be_uint_u16 (v : Z) : is_u16 v -> be_uint (u16 v) = v.
Proof.
  intros Hv. unfold is_u16 in Hv. unfold be_uint, u16, pack. simpl.
  rewrite !ord_pack_byte.
  - pose proof (Z.div_mod v 256). lia.
  - apply Z.mod_pos_bound. lia.
  - split; [apply Z.div_pos; lia|apply Z.div_lt_upper_bound; lia].
Qed.

Lemma fold_be_bound (bs : bytes) (acc : Z) :
  0 <= acc ->
  0 <= fold_left (fun a b => a * 256 + ord b) bs acc
    < (acc + 1) * 256 ^ Z.of_nat (length bs).
Proof.
  revert acc. induction bs as [|b bs IH]; intros acc Hacc.
  - simpl. lia.
  - cbn [fold_left length]. pose proof (ord_range b).
    destruct (IH (acc * 256 + ord b)) as [H1 H2]; [lia|].
    split; [done|].
    rewrite Nat2Z.inj_succ, Z.pow_succ_r by lia.
    pose proof (Z.pow_pos_nonneg 256 (Z.of_nat (length bs))). nia.
Qed.

Lemma be_uint_field_u16 (bs : bytes) (pos : nat) : is_u16 (be_uint (field bs pos 2)).
Proof.
  unfold is_u16, be_uint, field.
  pose proof (fold_be_bound (take 2 (drop pos bs)) 0 ltac:(lia)) as [H1 H2].
  split; [done|].
  assert (length (take 2 (drop pos bs)) <= 2)%nat by (rewrite length_take; lia).
  assert (256 ^ Z.of_nat (length (take 2 (drop pos bs))) <= 256 ^ 2)
    by (apply Z.pow_le_mono_r; lia).
  lia.
Qed.

(** What the stages after the header leave of it. *)
Lemma cursor_step_header s s' :
  cursor_step s s' -> unchanged header_fields s s'.
Proof. unfold cursor_step, unchanged. intros ->. by destruct s. Qed.

Lemma records_step_header s s' :
  records_step s s' -> unchanged header_fields s s'.
Proof. unfold unchanged. intros [l ->]. by destruct s. Qed.

Lemma read_questions_header : preserves (unchanged header_fields) _read_questions.
Proof.
  intros s r s'. unfold _read_questions, bind, get, modify.
  destruct (read_question_list _ s) as [[qs|e|] s1] eqn:E;
    apply read_question_list_frame, cursor_step_header in E;
    intros [= <- <-]; [|done..].
  unfold unchanged in *. rewrite <- E. by destruct s1.
Qed.

Lemma read_others_header : preserves (unchanged header_fields) _read_others.
Proof.
  intros s r s' H. apply read_others_frame, records_step_header in H.
  unfold unchanged in *. rewrite H. by destruct s.
Qed.

Lemma read_header_run s :
  _read_header s =
    match UNPACK_6H (data s) (offset s) with
    | Some h => (Return tt, set_header h (set_offset (offset s + 12) s))
    | None => (Raise struct_error, set_offset (offset s + 12) s)
    end.
Proof.
  unfold _read_header, _unpack, bind, modify, get_or_raise.
  replace (data (set_offset (offset s + 12) s)) with (data s) by (by destruct s).
  replace (offset (set_offset (offset s + 12) s) - 12) with (offset s)
    by (destruct s; simpl; lia).
  by destruct (UNPACK_6H _ _).
Qed.

(** After the header, the rest of [_initial_parse]. *)
Lemma initial_parse_header s r s' :
  _initial_parse s = (r, s') ->
  header_fields s' =
    match UNPACK_6H (data s) (offset s) with
    | Some h => h
    | None => header_fields s
    end.
Proof.
  rewrite initial_parse_run, read_header_run.
  destruct (UNPACK_6H _ _) as [h|].
  2:{ intros [= <- <-]. by destruct s. }
  set (s1 := set_header h _).
  assert (header_fields s1 = h) as Hh
    by (destruct s, h as [[[[[??]?]?]?]?]; done).
  destruct (_read_questions s1) as [[[]|e|] s2] eqn:Eq;
    apply read_questions_header in Eq; unfold unchanged in Eq;
    [|intros [= <- <-]; congruence..].
  destruct (num_questions s2 =? 0).
  - destruct (_read_others s2) as [[[]|e|] s3] eqn:Eo;
      apply read_others_header in Eo; unfold unchanged in Eo;
      intros [= <- <-]; [|congruence..].
    rewrite <- Hh, <- Eq, <- Eo. by destruct s3.
  - intros [= <- <-]. rewrite <- Hh, <- Eq. by destruct s2.
Qed.

Lemma init_header d src sc nw clk :
  header_fields (__init__ d src sc nw clk).2 =
    match UNPACK_6H d 0 with
    | Some h => h
    | None => (0, 0, 0, 0, 0, 0)
    end.
Proof.
  unfold __init__, try_except.
  destruct (_initial_parse _) as [r s'] eqn:E.
  apply initial_parse_header in E. simpl in E.
  assert (header_fields s' =
            match UNPACK_6H d 0 with
            | Some h => h
            | None => (0, 0, 0, 0, 0, 0)
            end) as <- by (rewrite E; by destruct (UNPACK_6H d 0)).
  destruct r as [[]|e|]; [done| |done]. by destruct (DECODE_EXCEPTIONS e).
Qed.

(** X1: a buffer of fewer than twelve bytes gives a message that is
    returned, not valid, with every header field 0, no question and no
    record; reading [answers] then returns the empty list. *)
Theorem short_buffer_is_invalid (d : bytes) (src : option (str * Z))
    (sc nw : option Z) (clk : Z) :
  len d < 12 ->
  (__init__ d src sc nw clk).1 = Return tt /\
  valid (__init__ d src sc nw clk).2 = false /\
  header_fields (__init__ d src sc nw clk).2 = (0, 0, 0, 0, 0, 0) /\
  questions (__init__ d src sc nw clk).2 = [] /\
  _answers (__init__ d src sc nw clk).2 = [] /\
  (answers (__init__ d src sc nw clk).2).1 = Return [] /\
  valid (answers (__init__ d src sc nw clk).2).2 = false.
Proof.
  intros Hlen.
  assert (UNPACK_6H d 0 = None) as Hu.
  { unfold UNPACK_6H, unpack_from. simpl.
    by rewrite Z.sub_0_r, (proj2 (Z.ltb_lt _ _) Hlen). }
  assert (__init__ d src sc nw clk
          = (Return tt, set_offset 12 (new_object d src sc nw clk))) as ->.
  { unfold __init__, try_except.
    rewrite initial_parse_run, read_header_run. simpl. by rewrite Hu. }
  split_and!; try done.
Qed.

Lemma short_buffer_is_invalid_witness :
  (__init__ [] None None None 5).1 = Return tt /\
  valid (__init__ [] None None None 5).2 = false /\
  header_fields (__init__ [] None None None 5).2 = (0, 0, 0, 0, 0, 0) /\
  questions (__init__ [] None None None 5).2 = [] /\
  _answers (__init__ [] None None None 5).2 = [] /\
  (answers (__init__ [] None None None 5).2).1 = Return [] /\
  valid (answers (__init__ [] None None None 5).2).2 = false.
Proof. apply short_buffer_is_invalid. by vm_compute. Defined.

Lemma unpack_6H_encode (h : Z * Z * Z * Z * Z * Z) (rest : bytes) :
  (let '(i, f, nq, nan, nau, nad) := h in
   is_u16 i /\ is_u16 f /\ is_u16 nq /\ is_u16 nan /\ is_u16 nau /\ is_u16 nad) ->
  UNPACK_6H (encode_header h ++ rest) 0 = Some h.
Proof.
  destruct h as [[[[[i f] nq] nan] nau] nad]. intros (Hi&Hf&Hq&Ha&Hu&Hd).
  unfold UNPACK_6H, unpack_from. change (0 <? 0) with false. cbv iota.
  assert ((len (encode_header (i, f, nq, nan, nau, nad) ++ rest) - 0 <? 12) = false)
    as ->.
  { apply Z.ltb_ge. rewrite len_app. pose proof (len_nonneg rest).
    change (len (encode_header _)) with 12. lia. }
  change (Z.to_nat 0) with 0%nat. rewrite drop_0.
  rewrite (take_app_length' (encode_header _)) by done.
  cbn [mbind option_bind option_ret mret].
  change (field (encode_header (i, f, nq, nan, nau, nad)) 0 2) with (u16 i).
  change (field (encode_header (i, f, nq, nan, nau, nad)) 2 2) with (u16 f).
  change (field (encode_header (i, f, nq, nan, nau, nad)) 4 2) with (u16 nq).
  change (field (encode_header (i, f, nq, nan, nau, nad)) 6 2) with (u16 nan).
  change (field (encode_header (i, f, nq, nan, nau, nad)) 8 2) with (u16 nau).
  change (field (encode_header (i, f, nq, nan, nau, nad)) 10 2) with (u16 nad).
  by rewrite !be_uint_u16.
Qed.

(** X2: the header fields of the message decoded from a buffer that
    starts with the twelve bytes of six 16-bit values, most significant
    byte first, are these values, whatever follows the header. *)
Theorem header_round_trip (h : Z * Z * Z * Z * Z * Z) (rest : bytes)
    (src : option (str * Z)) (sc nw : option Z) (clk : Z) :
  (let '(i, f, nq, nan, nau, nad) := h in
   is_u16 i /\ is_u16 f /\ is_u16 nq /\ is_u16 nan /\ is_u16 nau /\ is_u16 nad) ->
  header_fields (__init__ (encode_header h ++ rest) src sc nw clk).2 = h.
Proof. intros Hh. by rewrite init_header, unpack_6H_encode. Qed.

Lemma header_round_trip_witness :
  header_fields
    (__init__ (encode_header (0x1234, 0x8400, 0, 2, 0, 65535) ++ pack [1; 2; 3])
       None None None 5).2
  = (0x1234, 0x8400, 0, 2, 0, 65535).
Proof. apply header_round_trip. unfold is_u16. lia. Defined.

Lemma init_fields_u16 (d : bytes) (src : option (str * Z))
    (sc nw : option Z) (clk : Z) :
  is_u16 (id (__init__ d src sc nw clk).2) /\
  is_u16 (flags (__init__ d src sc nw clk).2) /\
  is_u16 (num_questions (__init__ d src sc nw clk).2) /\
  is_u16 (num_answers (__init__ d src sc nw clk).2) /\
  is_u16 (num_authorities (__init__ d src sc nw clk).2) /\
  is_u16 (num_additionals (__init__ d src sc nw clk).2).
Proof.
  pose proof (init_header d src sc nw clk) as H. unfold header_fields in H.
  unfold UNPACK_6H in H.
  destruct (unpack_from 12 d 0) as [bs|]; simpl in H; injection H as -> -> -> -> -> ->.
  - split_and!; apply be_uint_field_u16.
  - unfold is_u16. lia.
Qed.

(** X3: whatever the buffer, the id, the flags and the four counts of the
    constructed message are 16-bit values. *)
Theorem header_fields_are_u16 (d : bytes) (src : option (str * Z))
    (sc nw : option Z) (clk : Z) :
  is_u16 (id (__init__ d src sc nw clk).2) /\
  is_u16 (flags (__init__ d src sc nw clk).2) /\
  is_u16 (num_questions (__init__ d src sc nw clk).2) /\
  is_u16 (num_answers (__init__ d src sc nw clk).2) /\
  is_u16 (num_authorities (__init__ d src sc nw clk).2) /\
  is_u16 (num_additionals (__init__ d src sc nw clk).2).
Proof. apply init_fields_u16. Qed.

(** ** What can be raised *)

Lemma raises_only_ret {A} P (a : A) : raises_only P (ret a).
Proof. by intros s e s'. Qed.




Lemma raises_only_bind {A B} P (m : M A) (k : A -> M B) :
  raises_only P m -> (forall a, raises_only P (k a)) -> raises_only P (bind m k).
Proof.
  intros Hm Hk s e s'. unfold bind.
  destruct (m s) as [[a|e1|] s1] eqn:E; [apply Hk| |done].
  intros [= <- <-]. eapply Hm, E.
Qed.

Lemma raises_only_repeat_m P n body :
  raises_only P body -> raises_only P (repeat_m n body).
Proof.
  intros Hb. induction n as [|n IH]; simpl; [apply raises_only_ret|].
  by apply raises_only_bind.
Qed.


(** What escapes [try: m except DECODE_EXCEPTIONS: h]. *)
Lemma raises_only_try_except {A} (P : exn -> Prop) (m h : M A) :
  raises_only (fun e => DECODE_EXCEPTIONS e = false -> P e) m ->
  raises_only P h -> raises_only P (try_except m h).
Proof.
  intros Hm Hh s e s'. unfold try_except.
  destruct (m s) as [[a|e1|] s1] eqn:E; [done| |done].
  destruct (DECODE_EXCEPTIONS e1) eqn:Ed; [apply Hh|].
  intros [= <- <-]. by eapply Hm.
Qed.













Lemma decode_return_bounds fuel d cache off labels seen v :
  0 <= off ->
  dr_out (_decode_labels_at_offset fuel d cache off labels seen) = Return v ->
  off < v <= len d.
Proof.
  revert off labels seen.
  induction fuel as [|fuel IH]; intros off labels seen Hoff; [done|].
  cbn [_decode_labels_at_offset].
  decode_paths d cache off seen; simpl; try done.
  - intros [= <-]. apply Z.ltb_lt in Hlt.
    unfold DNS_COMPRESSION_HEADER_LEN. lia.
  - intros H. apply getitem_Some in Hn.
    apply IH in H; unfold DNS_COMPRESSION_HEADER_LEN in *; lia.
  - apply getitem_Some in Hlow.
    destruct (dr_out (_decode_labels_at_offset fuel _ _ _ _ _)); simpl;
      [|done..].
    case_match; [done|]. intros [= <-].
    unfold DNS_COMPRESSION_POINTER_LEN. lia.
  - apply getitem_Some in Hlow. case_match; [done|]. intros [= <-].
    unfold DNS_COMPRESSION_POINTER_LEN. lia.
Qed.

(** X6: a name that is read from a cursor inside the buffer moves the
    cursor forward by at least one byte and not beyond the end of the
    buffer; the name has at most 253 characters and ends with a dot. *)
Theorem read_name_success (s : DNSIncoming) (name : str) (s' : DNSIncoming) :
  0 <= offset s ->
  _read_name s = (Return name, s') ->
  offset s < offset s' <= len (data s) /\
  0 < len name <= MAX_NAME_LENGTH /\
  last name = Some dot.
Proof.
  intros Hoff H. unfold _read_name in H.
  destruct (dr_out _) eqn:E; [|done..].
  apply decode_return_bounds in E; [|done].
  case_match eqn:Hlen; [done|]. injection H as <- <-.
  apply Z.ltb_ge in Hlen. split_and!.
  - destruct s; simpl in *. lia.
  - destruct s; simpl in *. lia.
  - rewrite len_app. pose proof (len_nonneg (join_dot (dr_labels
      (_decode_labels_at_offset (name_fuel (data s) (offset s)) (data s)
         (name_cache s) (offset s) [] ∅)))).
    change (len [dot]) with 1. lia.
  - done.
  - apply last_snoc.
Qed.

Lemma read_name_success_witness :
  offset (at_name nsec_packet 12) < offset (_read_name (at_name nsec_packet 12)).2
    <= len (data (at_name nsec_packet 12)) /\
  0 < len [97; 46] <= MAX_NAME_LENGTH /\
  last [97; 46] = Some dot.
Proof.
  apply (read_name_success (at_name nsec_packet 12) [97; 46]
           (_read_name (at_name nsec_packet 12)).2); by vm_compute.
Defined.

(** ** The cursor *)

#[local] Instance nonneg_step_preorder : PreOrder nonneg_step.
Proof.
  split; unfold nonneg_step.
  - by intros s.
  - intros s1 s2 s3 H1 H2 H. auto.
Qed.

Lemma be_sint4_range (bs : bytes) (pos : nat) :
  - 2 ^ 31 <= be_sint 4 (field bs pos 4) < 2 ^ 31.
Proof.
  unfold be_sint, be_uint, field.
  pose proof (fold_be_bound (take 4 (drop pos bs)) 0 ltac:(lia)) as [H1 H2].
  assert (length (take 4 (drop pos bs)) <= 4)%nat by (rewrite length_take; lia).
  assert (256 ^ Z.of_nat (length (take 4 (drop pos bs))) <= 256 ^ 4)
    by (apply Z.pow_le_mono_r; lia).
  change (8 * 4 - 1) with 31. change (8 * 4) with 32.
  destruct (_ <? 2 ^ 31) eqn:E; [apply Z.ltb_lt in E|apply Z.ltb_ge in E]; lia.
Qed.

Lemma unpack_HHiH_ranges d off h :
  UNPACK_HHiH d off = Some h -> prefix_ranges h.
Proof.
  unfold UNPACK_HHiH. destruct (unpack_from 10 d off) as [bs|]; [|done].
  intros [= <-]. split_and!;
    [apply be_uint_field_u16..|apply be_sint4_range|apply be_sint4_range
    |apply be_uint_field_u16].
Qed.

Lemma nonneg_advance n s : 0 <= n -> nonneg_step s (set_offset (offset s + n) s).
Proof. intros Hn H. destruct s; simpl in *. lia. Qed.

Lemma nonneg_set_offset o s : 0 <= o -> nonneg_step s (set_offset o s).
Proof. intros Ho _. by destruct s. Qed.

Lemma nonneg_set_header h s : nonneg_step s (set_header h s).
Proof. unfold nonneg_step. destruct s, h as [[[[[??]?]?]?]?]. auto. Qed.

Lemma nonneg_set_questions q s : nonneg_step s (set_questions q s).
Proof. unfold nonneg_step. destruct s. auto. Qed.

Lemma nonneg_set_answers a s : nonneg_step s (set_answers a s).
Proof. unfold nonneg_step. destruct s. auto. Qed.

Lemma nonneg_set_did_read_others b s : nonneg_step s (set_did_read_others b s).
Proof. unfold nonneg_step. destruct s. auto. Qed.

Lemma nonneg_set_valid b s : nonneg_step s (set_valid b s).
Proof. unfold nonneg_step. destruct s. auto. Qed.

Lemma read_name_nonneg : preserves nonneg_step _read_name.
Proof.
  intros s r s' H Hoff. unfold _read_name in H. destruct (dr_out _) eqn:E.
  - apply decode_return_bounds in E; [|done].
    assert (offset s' = a) as ->
      by (case_match; injection H as <- <-; by destruct s).
    lia.
  - injection H as _ <-. by destruct s.
  - injection H as _ <-. by destruct s.
Qed.

#[local] Hint Resolve nonneg_set_header nonneg_set_questions nonneg_set_answers
  nonneg_set_did_read_others nonneg_set_valid read_name_nonneg : frame.

#[local] Hint Extern 1 (nonneg_step _ (set_offset (offset _ + _) _)) =>
  apply nonneg_advance; lia : frame.

Lemma unpack_nonneg {A} (u : bytes -> Z -> option A) n :
  0 <= n -> preserves nonneg_step (_unpack u n).
Proof. intros Hn. unfold _unpack. frame. Qed.

Lemma read_string_nonneg n : 0 <= n -> preserves nonneg_step (_read_string n).
Proof. intros Hn. unfold _read_string. frame. Qed.

Lemma read_character_string_nonneg :
  preserves nonneg_step _read_character_string.
Proof.
  intros s r s'.
  unfold _read_character_string, _read_string, bind, get_or_raise, modify,
    get, ret.
  destruct (getitem (data s) (offset s)) as [n|] eqn:E; intros [= <- <-];
    [|done].
  apply getitem_Some in E. intros H. destruct s; simpl in *. lia.
Qed.

Lemma read_bitmap_loop_nonneg fuel end_ rd :
  preserves nonneg_step (read_bitmap_loop fuel end_ rd).
Proof.
  revert rd. induction fuel as [|fuel IH]; intros rd s r s'; simpl.
  { by intros [= <- <-]. }
  unfold bind, get, get_or_raise, modify, ret.
  destruct (offset s <? end_); [|by intros [= <- <-]].
  destruct (getitem (data s) (offset s)) as [w|]; [|by intros [= <- <-]].
  destruct (getitem (data s) (offset s + 1)) as [n|] eqn:En;
    [|by intros [= <- <-]].
  apply getitem_Some in En. intros H%IH Hoff. apply H.
  destruct s; simpl in *. lia.
Qed.

Lemma read_bitmap_nonneg end_ : preserves nonneg_step (_read_bitmap end_).
Proof. intros s r s'. unfold _read_bitmap. apply read_bitmap_loop_nonneg. Qed.

#[local] Hint Resolve read_character_string_nonneg read_bitmap_nonneg : frame.

Lemma read_record_nonneg domain type_ class_ ttl length :
  0 <= length ->
  preserves nonneg_step (_read_record domain type_ class_ ttl length).
Proof.
  intros Hl. unfold _read_record, _read_string, _unpack, decode_utf8. frame.
Qed.

Lemma read_other_nonneg : preserves nonneg_step read_other.
Proof.
  unfold read_other.
  apply preserves_bind; [typeclasses eauto|apply read_name_nonneg|intros domain].
  intros s r s'. unfold bind at 1, get_or_raise.
  destruct (UNPACK_HHiH (data s) (offset s)) as [[[[ty cl] ttl] rl]|] eqn:E;
    [|by intros [= <- <-]].
  apply unpack_HHiH_ranges in E as (_&_&_&[Hrl _]).
  revert s r s'. change (preserves nonneg_step
    (modify (fun s => set_offset (offset s + 10) s);;;
     end_ <~ get (fun s => offset s + rl);;
     rec <~ try_except (_read_record domain ty cl ttl rl)
              (modify (set_offset end_);;; ret None);;
     match rec with
     | Some r => modify (fun s => set_answers (_answers s ++ [r]) s)
     | None => ret tt
     end)).
  apply preserves_bind; [typeclasses eauto|frame|intros _].
  intros s r s' H Hoff. revert H. unfold bind at 1, get.
  revert Hoff. revert s r s'.
  intros s r s' Hoff H.
  assert (preserves nonneg_step
            (rec <~ try_except (_read_record domain ty cl ttl rl)
                      (modify (set_offset (offset s + rl));;; ret None);;
             match rec with
             | Some r => modify (fun s => set_answers (_answers s ++ [r]) s)
             | None => ret tt
             end)) as Hp.
  { apply preserves_bind; [typeclasses eauto| |intros [rec|]; frame].
    apply preserves_try_except; [typeclasses eauto| |].
    - by apply read_record_nonneg.
    - apply preserves_bind; [typeclasses eauto| |intros _; frame].
      apply preserves_modify. intros s0. apply nonneg_set_offset. lia. }
  by eapply Hp.
Qed.

#[local] Hint Resolve read_other_nonneg : frame.

Lemma read_others_nonneg : preserves nonneg_step _read_others.
Proof. unfold _read_others. frame. Qed.

Lemma read_question_list_nonneg n : preserves nonneg_step (read_question_list n).
Proof.
  induction n as [|n IH]; simpl; [frame|].
  apply preserves_bind; [typeclasses eauto|apply read_name_nonneg|intros name].
  apply preserves_bind; [typeclasses eauto|by apply unpack_nonneg|intros tc].
  frame.
Qed.

#[local] Hint Resolve read_others_nonneg read_question_list_nonneg : frame.

Lemma initial_parse_nonneg : preserves nonneg_step _initial_parse.
Proof.
  unfold _initial_parse, _read_header, _read_questions.
  apply preserves_bind; [typeclasses eauto| |intros _; frame].
  apply preserves_bind; [typeclasses eauto|by apply unpack_nonneg|intros h].
  frame.
Qed.

Lemma answers_nonneg : preserves nonneg_step answers.
Proof. unfold answers. frame. Qed.

(** X7: the cursor is never negative: it is not after construction, and
    no method of the decoder makes it so. No read of the decoder therefore
    counts from the end of the buffer. *)
Theorem cursor_never_negative :
  (forall d src sc nw clk, 0 <= offset (__init__ d src sc nw clk).2) /\
  (forall s, 0 <= offset s -> 0 <= offset (answers s).2) /\
  (forall s, 0 <= offset s -> 0 <= offset (_read_name s).2) /\
  (forall s, 0 <= offset s -> 0 <= offset (_read_others s).2) /\
  (forall s end_, 0 <= offset s -> 0 <= offset (_read_bitmap end_ s).2).
Proof.
  split_and!.
  - intros. unfold __init__.
    destruct (try_except _ _ _) as [r m] eqn:E.
    assert (preserves nonneg_step (try_except _initial_parse (ret tt))) as Hp.
    { apply preserves_try_except; [typeclasses eauto| |frame].
      apply initial_parse_nonneg. }
    by apply (Hp _ _ _ E).
  - intros s. destruct (answers s) eqn:E. by apply (answers_nonneg _ _ _ E).
  - intros s. destruct (_read_name s) eqn:E. by apply (read_name_nonneg _ _ _ E).
  - intros s. destruct (_read_others s) eqn:E.
    by apply (read_others_nonneg _ _ _ E).
  - intros s end_. destruct (_read_bitmap end_ s) eqn:E.
    by apply (read_bitmap_nonneg _ _ _ _ E).
Qed.

Lemma cursor_witness_for_never_negative :
  0 <= offset (answers (__init__ query_with_answer_packet None None None 5).2).2.
Proof.
  destruct cursor_never_negative as (Hinit & Hans & _).
  apply Hans, Hinit.
Defined.

(** ** The records of a message *)

Lemma len_getslice_le (d : bytes) (a n : Z) :
  0 <= n -> len (getslice d a (a + n)) <= n.
Proof.
  intros Hn. unfold getslice, slice_index, len.
  rewrite length_take, length_drop.
  destruct (a <? 0) eqn:Ea, (a + n <? 0) eqn:Eb; lia.
Qed.

Lemma unpack_3H_ranges d off p :
  UNPACK_3H d off = Some p -> is_u16 p.1.1 /\ is_u16 p.1.2 /\ is_u16 p.2.
Proof.
  unfold UNPACK_3H. destruct (unpack_from 6 d off) as [bs|]; [|done].
  intros [= <-]. split_and!; apply be_uint_field_u16.
Qed.

(** The record that [_read_record] returns. *)
Lemma read_record_ok domain type_ class_ ttl length s rec s' :
  prefix_ranges (type_, class_, ttl, length) ->
  _read_record domain type_ class_ ttl length s = (Return (Some rec), s') ->
  record_ok (now s) (scope_id s) rec /\
  record_name rec = domain /\ record_prefix rec = (type_, class_, ttl).
Proof.
  intros (Ht & Hc & Httl & Hl).
  unfold _read_record, bind at 1, get.
  destruct (type_ =? _TYPE_A) eqn:E1.
  { apply Z.eqb_eq in E1 as ->. intros [= <- <-].
    unfold record_ok; simpl; split_and!; try (done || lia). left. split_and!; try done.
    apply len_getslice_le. lia. }
  destruct ((type_ =? _TYPE_CNAME) || (type_ =? _TYPE_PTR)) eqn:E2.
  { unfold bind, ret. destruct (_read_name s) as [[x|e|] s1]; intros [= <- <-].
    unfold record_ok; simpl; split_and!; (done || lia). }
  destruct (type_ =? _TYPE_TXT) eqn:E3.
  { apply Z.eqb_eq in E3 as ->. intros [= <- <-]. unfold record_ok; simpl; split_and!; (done || lia). }
  destruct (type_ =? _TYPE_SRV) eqn:E4.
  { apply Z.eqb_eq in E4 as ->.
    unfold _unpack, bind, modify, get_or_raise, ret.
    destruct (UNPACK_3H _ _) as [p|] eqn:Ep; [|done].
    apply unpack_3H_ranges in Ep as (?&?&?).
    destruct (_read_name _) as [[x|e|] s1]; intros [= <- <-].
    unfold record_ok; simpl; split_and!; (done || lia). }
  destruct (type_ =? _TYPE_HINFO) eqn:E5.
  { apply Z.eqb_eq in E5 as ->.
    unfold bind, ret, decode_utf8, get_or_raise.
    destruct (_read_character_string s) as [[c|e|] s1]; [|done..].
    destruct (decode_strict c); [|done].
    destruct (_read_character_string s1) as [[o|e|] s2]; [|done..].
    destruct (decode_strict o); [|done].
    intros [= <- <-]. unfold record_ok; simpl; split_and!; (done || lia). }
  destruct (type_ =? _TYPE_AAAA) eqn:E6.
  { apply Z.eqb_eq in E6 as ->. intros [= <- <-].
    unfold record_ok; simpl; split_and!; try (done || lia). right.
    split_and!; [done|apply len_getslice_le; lia|by destruct s]. }
  destruct (type_ =? _TYPE_NSEC) eqn:E7.
  { apply Z.eqb_eq in E7 as ->. unfold bind, ret, get.
    destruct (_read_name s) as [[x|e|] s1]; [|done..].
    destruct (_read_bitmap _ s1) as [[t|e|] s2]; intros [= <- <-].
    unfold record_ok; simpl; split_and!; (done || lia). }
  done.
Qed.

Lemma cursor_step_context s s' :
  cursor_step s s' ->
  now s' = now s /\ scope_id s' = scope_id s /\ _answers s' = _answers s /\
  header_fields s' = header_fields s.
Proof. unfold cursor_step. intros ->. by destruct s. Qed.

(** One iteration of the record loop appends nothing or one record, built
    from the prefix it read. *)
Lemma read_other_appends s r s' :
  read_other s = (r, s') ->
  exists l,
    _answers s' = _answers s ++ l /\ (length l <= 1)%nat /\
    Forall (record_ok (now s) (scope_id s)) l /\
    now s' = now s /\ scope_id s' = scope_id s /\
    header_fields s' = header_fields s.
Proof.
  assert (forall s1, cursor_step s s1 ->
            exists l : list DNSRecord,
              _answers s1 = _answers s ++ l /\ (length l <= 1)%nat /\
              Forall (record_ok (now s) (scope_id s)) l /\
              now s1 = now s /\ scope_id s1 = scope_id s /\
              header_fields s1 = header_fields s) as Hnil.
  { intros s1 (?&?&?&?)%cursor_step_context. exists [].
    rewrite app_nil_r. split_and!; try done. simpl. lia. }
  unfold read_other, bind, get, modify, get_or_raise, try_except, ret.
  destruct (_read_name s) as [[domain|e|] s1] eqn:E1;
    pose proof (read_name_frame _ _ _ E1) as Hc1;
    [|intros [= <- <-]; by apply Hnil..].
  destruct (UNPACK_HHiH (data s1) (offset s1)) as [[[[ty cl] ttl] rl]|] eqn:E2;
    [|intros [= <- <-]; by apply Hnil].
  apply unpack_HHiH_ranges in E2.
  assert (cursor_step s (set_offset (offset s1 + 10) s1)) as Hc2.
  { etransitivity; [exact Hc1|apply cursor_step_set_offset]. }
  destruct (_read_record _ _ _ _ _ _) as [[[rec|]|e|] s2] eqn:E3;
    pose proof (read_record_frame _ _ _ _ _ _ _ _ E3) as Hc3.
  - intros [= <- <-].
    apply read_record_ok in E3 as (Hok & _); [|done].
    assert (cursor_step s s2) as (Hn&Hs&Ha&Hh)%cursor_step_context
      by (etransitivity; done).
    apply cursor_step_context in Hc2 as (Hn2&Hs2&_).
    exists [rec]. split_and!.
    + destruct s2; simpl in *. by rewrite Ha.
    + simpl. lia.
    + apply Forall_singleton. by rewrite <- Hn2, <- Hs2.
    + by destruct s2.
    + by destruct s2.
    + by destruct s2.
  - intros [= <- <-]. apply Hnil. by etransitivity.
  - destruct (DECODE_EXCEPTIONS e); intros [= <- <-]; apply Hnil.
    + etransitivity; [|apply cursor_step_set_offset]. by etransitivity.
    + by etransitivity.
  - intros [= <- <-]. apply Hnil. by etransitivity.
Qed.

Lemma repeat_read_other_appends n s r s' :
  repeat_m n read_other s = (r, s') ->
  exists l,
    _answers s' = _answers s ++ l /\ (length l <= n)%nat /\
    Forall (record_ok (now s) (scope_id s)) l /\
    now s' = now s /\ scope_id s' = scope_id s /\
    header_fields s' = header_fields s.
Proof.
  revert s. induction n as [|n IH]; intros s; simpl.
  - intros [= <- <-]. exists []. rewrite app_nil_r. by split_and!.
  - unfold bind. destruct (read_other s) as [[[]|e|] s1] eqn:E;
      apply read_other_appends in E as (l1 & Ha1 & Hl1 & Hok1 & Hn1 & Hs1 & Hh1).
    + intros (l2 & Ha2 & Hl2 & Hok2 & Hn2 & Hs2 & Hh2)%IH.
      exists (l1 ++ l2). rewrite Ha2, Ha1, <- app_assoc, length_app.
      split_and!; try congruence; [lia|].
      apply Forall_app. split; [done|]. by rewrite <- Hn1, <- Hs1.
    + intros [= <- <-]. exists l1. split_and!; try done. lia.
    + intros [= <- <-]. exists l1. split_and!; try done. lia.
Qed.

Lemma read_others_appends s r s' :
  _read_others s = (r, s') ->
  exists l,
    _answers s' = _answers s ++ l /\
    len l <= Z.max 0 (declared_records s) /\
    Forall (record_ok (now s) (scope_id s)) l /\
    now s' = now s /\ scope_id s' = scope_id s /\
    header_fields s' = header_fields s /\ _did_read_others s' = true.
Proof.
  intros H. pose proof (read_others_fields _ _ _ H) as (_&_&_&Hd&_).
  rewrite read_others_unfold in H.
  apply repeat_read_other_appends in H as (l & Ha & Hl & Hok & Hn & Hs & Hh).
  exists l. split_and!; try done; try by destruct s.
  unfold declared_records, len. lia.
Qed.

Lemma read_header_context : preserves (unchanged decoding_context) _read_header.
Proof.
  intros s r s'. rewrite read_header_run.
  destruct (UNPACK_6H _ _) as [[[[[[??]?]?]?]?]|]; intros [= <- <-];
    by destruct s.
Qed.

Lemma read_questions_context : preserves (unchanged decoding_context) _read_questions.
Proof.
  intros s r s'. unfold _read_questions, bind, get, modify.
  assert (forall s1, cursor_step s s1 -> unchanged decoding_context s s1) as Hc.
  { unfold cursor_step, unchanged. intros s1 ->. by destruct s. }
  destruct (read_question_list _ s) as [[qs|e|] s1] eqn:E;
    apply read_question_list_frame, Hc in E;
    intros [= <- <-]; [|done..].
  unfold unchanged in *. rewrite <- E. by destruct s1.
Qed.

Lemma declared_records_header s s' :
  header_fields s' = header_fields s -> declared_records s' = declared_records s.
Proof. unfold header_fields, declared_records. by intros [= _ _ _ -> -> ->]. Qed.

(** The records of a constructed message: none if the record section was
    left for later, else at most as many as declared, all well built. *)
Lemma init_records d src sc nw clk :
  len (_answers (__init__ d src sc nw clk).2)
    <= declared_records (__init__ d src sc nw clk).2 /\
  Forall (record_ok (now (__init__ d src sc nw clk).2)
            (scope_id (__init__ d src sc nw clk).2))
    (_answers (__init__ d src sc nw clk).2) /\
  (_did_read_others (__init__ d src sc nw clk).2 = false ->
   _answers (__init__ d src sc nw clk).2 = []).
Proof.
  pose proof (init_fields_u16 d src sc nw clk) as (_&_&_&Ha&Hu&Hd).
  assert (0 <= declared_records (__init__ d src sc nw clk).2) as Hdecl
    by (unfold declared_records, is_u16 in *; lia).
  revert Hdecl. clear Ha Hu Hd.
  unfold __init__, try_except. rewrite initial_parse_run.
  set (s0 := new_object d src sc nw clk).
  assert (forall s, unchanged decoding_context s0 s ->
            0 <= declared_records s ->
            len (_answers s) <= declared_records s /\
            Forall (record_ok (now s) (scope_id s)) (_answers s) /\
            (_did_read_others s = false -> _answers s = [])) as Hsame.
  { intros s [= Hn Hs Ha Hdid] Hdecl. rewrite Ha. simpl. by split_and!. }
  destruct (_read_header s0) as [[[]|e|] s1] eqn:Eh;
    apply read_header_context in Eh.
  2:{ destruct (DECODE_EXCEPTIONS e); by apply Hsame. }
  2:{ by apply Hsame. }
  destruct (_read_questions s1) as [[[]|e|] s2] eqn:Eq;
    apply read_questions_context in Eq;
    assert (unchanged decoding_context s0 s2) as H2 by (by etransitivity).
  2:{ destruct (DECODE_EXCEPTIONS e); by apply Hsame. }
  2:{ by apply Hsame. }
  destruct (num_questions s2 =? 0).
  2:{ simpl. intros Hdecl. destruct (Hsame s2 H2) as (?&?&?);
        by destruct s2. }
  injection H2 as Hn2 Hs2 Ha2 Hd2.
  assert (forall r s3, _read_others s2 = (r, s3) ->
            0 <= declared_records s3 ->
            len (_answers s3) <= declared_records s3 /\
            Forall (record_ok (now s3) (scope_id s3)) (_answers s3) /\
            (_did_read_others s3 = false -> _answers s3 = [])) as Hrun.
  { intros r s3 (l & Ha & Hl & Hok & Hn & Hs & Hh & Hdid)%read_others_appends Hdecl.
    apply declared_records_header in Hh.
    rewrite Ha, Ha2, Hn, Hs, Hh in *. simpl. split_and!; [lia|done|congruence]. }
  destruct (_read_others s2) as [[[]|e|] s3] eqn:Eo.
  - simpl. intros Hdecl.
    destruct (Hrun _ _ eq_refl) as (?&?&?); by destruct s3.
  - destruct (DECODE_EXCEPTIONS e); by eapply Hrun.
  - by eapply Hrun.
Qed.

(** The records of a message once [answers] was read. *)
Lemma answers_records d src sc nw clk :
  len (_answers (answers (__init__ d src sc nw clk).2).2)
    <= declared_records (__init__ d src sc nw clk).2 /\
  Forall (record_ok (now (__init__ d src sc nw clk).2)
            (scope_id (__init__ d src sc nw clk).2))
    (_answers (answers (__init__ d src sc nw clk).2).2).
Proof.
  destruct (init_records d src sc nw clk) as (Hlen & Hok & Hnil).
  pose proof (init_fields_u16 d src sc nw clk) as (_&_&_&Ha&Hu&Hd).
  set (m := (__init__ d src sc nw clk).2) in *.
  rewrite answers_run. destruct (_did_read_others m) eqn:Ed; [done|].
  specialize (Hnil eq_refl).
  assert (forall r s', _read_others m = (r, s') ->
            len (_answers s') <= declared_records m /\
            Forall (record_ok (now m) (scope_id m)) (_answers s')) as Hrun.
  { intros r s' (l & Hl & Hb & Hl' & _)%read_others_appends.
    rewrite Hl, Hnil. simpl. split; [|done].
    unfold declared_records, is_u16 in *. lia. }
  destruct (_read_others m) as [[[]|e|] s'] eqn:Eo;
    [|destruct (DECODE_EXCEPTIONS e)|]; by eapply Hrun.
Qed.

(** X8: a message never holds more records than its header declares:
    neither after construction nor after [answers] was read is the list of
    records longer than the sum of the three counts. *)
Theorem records_within_declared_count (d : bytes) (src : option (str * Z))
    (sc nw : option Z) (clk : Z) :
  len (_answers (__init__ d src sc nw clk).2)
    <= declared_records (__init__ d src sc nw clk).2 /\
  len (_answers (answers (__init__ d src sc nw clk).2).2)
    <= declared_records (__init__ d src sc nw clk).2.
Proof.
  split; [apply init_records|apply answers_records].
Qed.

(** X9: every record of a message is built from what was read for it:
    the record class agrees with the type code (A and AAAA give addresses of
    at most 4 and 16 bytes, the latter with the scope of the message, CNAME
    and PTR pointers, TXT, SRV with 16-bit priority, weight and port, HINFO,
    NSEC), its class field is a 16-bit value, its TTL a signed 32-bit value,
    and its creation time the timestamp of the message. No record has an
    unknown type. *)
Theorem records_are_well_built (d : bytes) (src : option (str * Z))
    (sc nw : option Z) (clk : Z) :
  Forall (record_ok (now (__init__ d src sc nw clk).2)
            (scope_id (__init__ d src sc nw clk).2))
    (_answers (__init__ d src sc nw clk).2) /\
  Forall (record_ok (now (__init__ d src sc nw clk).2)
            (scope_id (__init__ d src sc nw clk).2))
    (_answers (answers (__init__ d src sc nw clk).2).2) /\
  now (__init__ d src sc nw clk).2 =
    match nw with
    | Some t => if t =? 0 then clk else t
    | None => clk
    end /\
  scope_id (__init__ d src sc nw clk).2 = sc.
Proof.
  split_and!; [apply init_records|apply answers_records| |].
  - unfold __init__.
    destruct (try_except _ _ _) as [r m] eqn:E.
    assert (preserves (unchanged now) (try_except _initial_parse (ret tt))) as Hp.
    { apply preserves_try_except; [typeclasses eauto| |apply preserves_ret;
                                                        typeclasses eauto].
      intros s r' s' H. rewrite initial_parse_run in H.
      unfold unchanged.
      destruct (_read_header s) as [[[]|e|] s1] eqn:Eh;
        apply read_header_context in Eh; injection Eh as Hn1 _ _ _;
        [|injection H as _ <-; done..].
      destruct (_read_questions s1) as [[[]|e|] s2] eqn:Eq;
        apply read_questions_context in Eq; injection Eq as Hn2 _ _ _;
        [|injection H as _ <-; congruence..].
      destruct (num_questions s2 =? 0).
      - destruct (_read_others s2) as [[[]|e|] s3] eqn:Eo;
          apply read_others_appends in Eo as (_&_&_&_&Hn3&_);
          injection H as _ <-; [|congruence..].
        destruct s3; simpl in *. congruence.
      - injection H as _ <-. destruct s2; simpl in *. congruence. }
    pose proof (Hp _ _ _ E) as Hm. unfold unchanged in Hm. simpl.
    by rewrite Hm.
  - unfold __init__.
    destruct (try_except _ _ _) as [r m] eqn:E.
    assert (preserves (unchanged scope_id) (try_except _initial_parse (ret tt)))
      as Hp.
    { apply preserves_try_except; [typeclasses eauto| |apply preserves_ret;
                                                        typeclasses eauto].
      intros s r' s' H. rewrite initial_parse_run in H.
      unfold unchanged.
      destruct (_read_header s) as [[[]|e|] s1] eqn:Eh;
        apply read_header_context in Eh; injection Eh as _ Hn1 _ _;
        [|injection H as _ <-; done..].
      destruct (_read_questions s1) as [[[]|e|] s2] eqn:Eq;
        apply read_questions_context in Eq; injection Eq as _ Hn2 _ _;
        [|injection H as _ <-; congruence..].
      destruct (num_questions s2 =? 0).
      - destruct (_read_others s2) as [[[]|e|] s3] eqn:Eo;
          apply read_others_appends in Eo as (_&_&_&_&_&Hn3&_);
          injection H as _ <-; [|congruence..].
        destruct s3; simpl in *. congruence.
      - injection H as _ <-. destruct s2; simpl in *. congruence. }
    pose proof (Hp _ _ _ E) as Hm. unfold unchanged in Hm. simpl.
    by rewrite Hm.
Qed.

(** X10: a record whose type code is none of the eight that are decoded is
    skipped: the iteration returns normally, appends nothing and leaves the
    cursor on the declared end of the record, whatever its rdlength. *)
Theorem unknown_type_is_skipped (s : DNSIncoming) (domain : str)
    (s1 : DNSIncoming) (type_ class_ ttl length : Z) :
  _read_name s = (Return domain, s1) ->
  UNPACK_HHiH (data s1) (offset s1) = Some (type_, class_, ttl, length) ->
  ~ known_type type_ ->
  read_other s = (Return tt, set_offset (offset s1 + 10 + length) s1) /\
  _answers (read_other s).2 = _answers s.
Proof.
  intros Hn Hu Hk.
  assert (read_other s = (Return tt, set_offset (offset s1 + 10 + length) s1))
    as ->.
  { unfold read_other, bind at 1. rewrite Hn.
    unfold bind at 1, get_or_raise. rewrite Hu.
    unfold bind, modify, get, try_except, _read_record, ret.
    unfold known_type in Hk.
    rewrite !(proj2 (Z.eqb_neq type_ _)) by tauto. simpl.
    by destruct s1. }
  split; [done|].
  apply read_name_frame, cursor_step_context in Hn as (_&_&Ha&_).
  rewrite <- Ha. by destruct s1.
Qed.

Lemma unknown_type_is_skipped_witness :
  (read_other (at_name unknown_type_packet 12)
   = (Return tt,
      set_offset (15 + 10 + 3) (_read_name (at_name unknown_type_packet 12)).2) /\
   _answers (read_other (at_name unknown_type_packet 12)).2
   = _answers (at_name unknown_type_packet 12)) /\
  _answers (__init__ unknown_type_packet None None None 5).2 =
    [DNSAddress [97; 46] 1 1 120 (pack [10; 11; 12; 13]) 5 None].
Proof.
  split; [|by vm_compute].
  apply (unknown_type_is_skipped (at_name unknown_type_packet 12) [97; 46]
           (_read_name (at_name unknown_type_packet 12)).2 99 1 120 3).
  - by vm_compute.
  - by vm_compute.
  - unfold known_type. vm_compute. intuition discriminate.
Defined.

(** X11: an address record is read as 4 (A) or 16 (AAAA) bytes whatever
    its rdlength: the iteration appends the record and leaves the cursor 4
    or 16 bytes after the fixed fields, not on the declared end, so that a
    larger or smaller rdlength shifts the records that follow. *)
Theorem address_record_ignores_rdlength (s : DNSIncoming) (domain : str)
    (s1 : DNSIncoming) (type_ class_ ttl length : Z) :
  _read_name s = (Return domain, s1) ->
  UNPACK_HHiH (data s1) (offset s1) = Some (type_, class_, ttl, length) ->
  (type_ = _TYPE_A ->
   read_other s =
     (Return tt,
      set_answers
        (_answers s ++
         [DNSAddress domain type_ class_ ttl
            (getslice (data s) (offset s1 + 10) (offset s1 + 10 + 4))
            (now s) None])
        (set_offset (offset s1 + 10 + 4) s1))) /\
  (type_ = _TYPE_AAAA ->
   read_other s =
     (Return tt,
      set_answers
        (_answers s ++
         [DNSAddress domain type_ class_ ttl
            (getslice (data s) (offset s1 + 10) (offset s1 + 10 + 16))
            (now s) (scope_id s)])
        (set_offset (offset s1 + 10 + 16) s1))).
Proof.
  intros Hn Hu.
  pose proof (read_name_frame _ _ _ Hn) as Hc.
  pose proof (cursor_step_context _ _ Hc) as (Hnow&Hsc&Ha&_).
  apply cursor_step_fields in Hc as (Hd&_).
  split; intros ->; unfold read_other, bind at 1; rewrite Hn;
    unfold bind at 1, get_or_raise; rewrite Hu;
    unfold bind, modify, get, try_except, _read_record, _read_string, ret;
    simpl; rewrite <- Hnow, <- Ha, <- Hd; [|rewrite <- Hsc]; by destruct s1.
Qed.

Lemma address_record_ignores_rdlength_witness :
  read_other (at_name long_a_packet 12) =
    (Return tt,
     set_answers
       (_answers (at_name long_a_packet 12) ++
        [DNSAddress [97; 46] 1 1 120
           (getslice (data (at_name long_a_packet 12)) (15 + 10) (15 + 10 + 4))
           (now (at_name long_a_packet 12)) None])
       (set_offset (15 + 10 + 4) (_read_name (at_name long_a_packet 12)).2)) /\
  (__init__ long_a_packet None None None 5).1 = Return tt /\
  _answers (__init__ long_a_packet None None None 5).2 =
    [DNSAddress [97; 46] 1 1 120 (pack [10; 11; 12; 13]) 5 None].
Proof.
  split; [|by vm_compute].
  apply (address_record_ignores_rdlength (at_name long_a_packet 12) [97; 46]
           (_read_name (at_name long_a_packet 12)).2 1 1 120 6).
  - by vm_compute.
  - by vm_compute.
  - reflexivity.
Defined.

(** ** Bitmap windows *)

Lemma seqZ_sorted (m : Z) (n : nat) : StronglySorted Z.lt (seqZ m (Z.of_nat n)).
Proof.
  induction n as [|n IH].
  - constructor.
  - rewrite seqZ_S.
    apply StronglySorted_app_2; [|done|repeat constructor].
    intros x y Hx Hy. apply elem_of_seqZ in Hx.
    apply list_elem_of_singleton in Hy. lia.
Qed.

Lemma filter_sorted {A} (R : A -> A -> Prop) (p : A -> bool) (l : list A) :
  StronglySorted R l -> StronglySorted R (List.filter p l).
Proof.
  induction 1 as [|a l Hs IH Ha]; simpl; [constructor|].
  destruct (p a); [|done]. constructor; [done|].
  apply List.Forall_forall. intros x Hx.
  apply List.filter_In in Hx as [Hx _].
  revert x Hx. by apply List.Forall_forall.
Qed.

Lemma window_types_range (window : Z) (bitmap : bytes) :
  Forall (fun t => window * 256 <= t < window * 256 + 8 * len bitmap)
    (window_types window bitmap).
Proof.
  rewrite window_types_filter. apply List.Forall_forall. intros t Ht.
  apply List.filter_In in Ht as [Ht _].
  apply list_elem_of_In, elem_of_seqZ in Ht. lia.
Qed.

(** X12: the type numbers of one window of an NSEC bitmap come out in
    strictly increasing order, hence without repetition, and lie between
    [window*256] and [window*256 + 8*len bitmap]. *)
Theorem window_types_increasing (window : Z) (bitmap : bytes) :
  StronglySorted Z.lt (window_types window bitmap) /\
  NoDup (window_types window bitmap) /\
  Forall (fun t => window * 256 <= t < window * 256 + 8 * len bitmap)
    (window_types window bitmap).
Proof.
  assert (StronglySorted Z.lt (window_types window bitmap)) as Hs.
  { rewrite window_types_filter. apply filter_sorted.
    pose proof (len_nonneg bitmap).
    replace (8 * len bitmap) with (Z.of_nat (Z.to_nat (8 * len bitmap))) by lia.
    apply seqZ_sorted. }
  split_and!; [done| |apply window_types_range].
  induction Hs as [|a l _ IH Ha]; constructor; [|done].
  intros Hin. rewrite Forall_forall in Ha. specialize (Ha _ Hin). lia.
Qed.

Lemma read_bitmap_loop_outcome fuel end_ rd s r s' :
  read_bitmap_loop fuel end_ rd s = (r, s') ->
  0 <= offset s ->
  Forall (fun t => 0 <= t < rdtype_bound) rd ->
  match r with
  | Return l => Forall (fun t => 0 <= t < rdtype_bound) l /\ end_ <= offset s'
  | Raise e => e = IndexError /\ offset s' < end_ /\ len (data s) <= offset s' + 1
  | Timeout => True
  end /\ offset s <= offset s' /\ s' = set_offset (offset s') s.
Proof.
  revert rd s. induction fuel as [|fuel IH]; intros rd s E H0 Hrd.
  { simpl in E. injection E as <- <-. split; [done|]. split; [lia|by destruct s]. }
  simpl in E. unfold bind, get, get_or_raise, modify, ret in E.
  destruct (offset s <? end_) eqn:Hlt.
  2:{ injection E as <- <-. apply Z.ltb_ge in Hlt.
      split; [done|]. split; [lia|by destruct s]. }
  apply Z.ltb_lt in Hlt.
  destruct (getitem (data s) (offset s)) as [window|] eqn:Hw.
  2:{ injection E as <- <-. split; [|split; [lia|by destruct s]].
      split_and!; [done|done|].
      rewrite getitem_nonneg in Hw by done.
      apply fmap_None, lookup_ge_None in Hw. unfold len. lia. }
  destruct (getitem (data s) (offset s + 1)) as [n|] eqn:Hn.
  2:{ injection E as <- <-. split; [|split; [lia|by destruct s]].
      split_and!; [done|done|].
      rewrite getitem_nonneg in Hn by lia.
      apply fmap_None, lookup_ge_None in Hn. unfold len. lia. }
  apply getitem_Some in Hw as [_ Hw]. apply getitem_Some in Hn as [_ Hn].
  apply IH in E as (Hr & Ho & Hs).
  - replace (data (set_offset (offset s + (2 + n)) s)) with (data s) in Hr
      by (by destruct s).
    replace (offset (set_offset (offset s + (2 + n)) s)) with (offset s + (2 + n))
      in Ho by (by destruct s).
    split; [done|]. split; [lia|]. rewrite Hs. by destruct s.
  - destruct s; simpl in *; lia.
  - apply Forall_app; split; [done|].
    eapply Forall_impl; [apply window_types_range|].
    intros t Ht. simpl in Ht.
    pose proof (len_getslice_le (data s) (offset s + 2) n) as Hl.
    pose proof (len_nonneg (getslice (data s) (offset s + 2) (offset s + 2 + n))).
    unfold rdtype_bound. lia.
Qed.

(** X13: read from a cursor that is not negative, an NSEC bitmap either is
    returned, with every type number below [255*256 + 8*255] (the bitmap
    length is not checked against the 32 bytes of a window, so numbers past
    65535 are possible) and the cursor on or past [end_], or fails with
    IndexError, the cursor being before [end_] and within one byte of the
    end of the buffer.  Only the cursor changes, and it never moves back. *)
Theorem read_bitmap_outcome (end_ : Z) (s : DNSIncoming) (r : outcome (list Z))
    (s' : DNSIncoming) :
  _read_bitmap end_ s = (r, s') ->
  0 <= offset s ->
  match r with
  | Return l => Forall (fun t => 0 <= t < rdtype_bound) l /\ end_ <= offset s'
  | Raise e => e = IndexError /\ offset s' < end_ /\ len (data s) <= offset s' + 1
  | Timeout => False
  end /\ offset s <= offset s' /\ s' = set_offset (offset s') s.
Proof.
  intros E H0. unfold _read_bitmap in E.
  pose proof (read_bitmap_loop_terminates
                (bitmap_fuel (data s) (offset s)) end_ [] s) as Ht.
  rewrite E in Ht. simpl in Ht.
  apply read_bitmap_loop_outcome in E as (Hr & Ho); [|done|constructor].
  split; [|done]. destruct r; [done|done|]. apply Ht; [lia|done].
Qed.

Lemma read_bitmap_outcome_witness :
  (Forall (fun t => 0 <= t < rdtype_bound) [65280; 65303] /\
   5 <= offset (_read_bitmap 5 last_window).2) /\
  0 <= offset last_window <= offset (_read_bitmap 5 last_window).2 /\
  (_read_bitmap 5 last_window).2 =
    set_offset (offset (_read_bitmap 5 last_window).2) last_window.
Proof.
  pose proof (read_bitmap_outcome 5 last_window (Return [65280; 65303])
                (_read_bitmap 5 last_window).2) as H.
  destruct H as (Hr & Ho & Hs); [by vm_compute|by vm_compute|].
  split; [exact Hr|]. split; [|exact Hs]. split; [by vm_compute|exact Ho].
Defined.

(** ** Names that cannot be read *)




(** ** What [answers] touches *)

Lemma answers_frame (s : DNSIncoming) :
  exists l,
    (answers s).2 =
      set_answers (_answers s ++ l)
        (set_name_cache (name_cache (answers s).2)
           (set_offset (offset (answers s).2) (set_did_read_others true s))).
Proof.
  destruct (answers s) as [r s'] eqn:H. simpl.
  rewrite answers_run in H. destruct (_did_read_others s) eqn:Ed.
  - injection H as _ <-. exists []. rewrite app_nil_r. destruct s; simpl in *.
    by rewrite Ed.
  - assert (exists r', _read_others s = (r', s')) as [r' E].
    { destruct (_read_others s) as [[[]|e|] s1]; [|destruct (DECODE_EXCEPTIONS e)|];
        injection H as _ <-; eauto. }
    apply read_others_frame in E as [l ->]. exists l. by destruct s.
Qed.

(** X15: reading [answers] changes nothing but the cursor, the name
    cache, the flag of the record section, which it sets, and the list of
    records, which it extends: the records present before are a prefix of
    those present after, and the buffer, the header fields, the questions,
    [valid], the timestamp, the scope and the source are as before. *)
Theorem answers_changes_decoder_state_only (s : DNSIncoming) :
  exists l,
    (answers s).2 =
      set_answers (_answers s ++ l)
        (set_name_cache (name_cache (answers s).2)
           (set_offset (offset (answers s).2) (set_did_read_others true s))).
Proof. apply answers_frame. Qed.

(** ** Written names and queries *)

Lemma getitem_app (pre rest : bytes) (b : byte) :
  getitem (pre ++ b :: rest) (len pre) = Some (ord b).
Proof.
  rewrite getitem_nonneg by apply len_nonneg. unfold len.
  rewrite Nat2Z.id, lookup_app_r by lia. by rewrite Nat.sub_diag.
Qed.

Lemma getslice_app (pre l rest : bytes) (n : Z) :
  n = len l -> getslice (pre ++ l ++ rest) (len pre) (len pre + n) = l.
Proof.
  intros ->. pose proof (len_nonneg pre). pose proof (len_nonneg l).
  rewrite getslice_nonneg by lia. unfold len.
  rewrite Nat2Z.id, drop_app_length.
  replace (Z.to_nat _) with (length l) by lia.
  by rewrite take_app_length.
Qed.

Lemma len_encode_label (l : bytes) : len (encode_label l) = 1 + len l.
Proof. unfold encode_label. by rewrite len_app. Qed.

Lemma len_encode_name_cons (l : bytes) (raw : list bytes) :
  len (encode_name (l :: raw)) = 1 + len l + len (encode_name raw).
Proof.
  unfold encode_name. cbn [map concat].
  rewrite <- app_assoc, len_app, len_encode_label. lia.
Qed.

(** The label loop on an uncompressed name: one iteration for each label
    and one for the zero byte, no pointer, the cache and the visited set
    untouched. *)
Lemma decode_uncompressed (raw : list bytes) :
  forall (pre post : bytes) cache labels seen fuel,
    Forall label_ok raw -> (length raw < fuel)%nat ->
    _decode_labels_at_offset fuel (pre ++ encode_name raw ++ post) cache
      (len pre) labels seen =
    mkDecoded (Return (len pre + len (encode_name raw)))
      (labels ++ map decode_replace raw) seen cache.
Proof.
  induction raw as [|l raw IH]; intros pre post cache labels seen fuel Hok Hf;
    (destruct fuel as [|fuel]; [simpl in Hf; lia|]).
  - assert (len pre < len (pre ++ encode_name [] ++ post)) as Hlt.
    { rewrite !len_app. change (len (encode_name [])) with 1.
      pose proof (len_nonneg post). lia. }
    assert (getitem (pre ++ encode_name [] ++ post) (len pre) = Some 0) as Hn.
    { apply (getitem_app pre post x00). }
    on_path. simpl. by rewrite app_nil_r.
  - apply Forall_cons in Hok as [Hl Hok]. unfold label_ok in Hl.
    assert (len pre < len (pre ++ encode_name (l :: raw) ++ post)) as Hlt.
    { rewrite !len_app, len_encode_name_cons.
      pose proof (len_nonneg post). pose proof (len_nonneg (encode_name raw)).
      lia. }
    assert (getitem (pre ++ encode_name (l :: raw) ++ post) (len pre)
            = Some (len l)) as Hn.
    { unfold encode_name, encode_label. simpl. rewrite <- !app_assoc. simpl.
      rewrite getitem_app, ord_pack_byte by lia. done. }
    on_path.
    rewrite (proj2 (Z.eqb_neq (len l) 0)), (proj2 (Z.ltb_lt (len l) 64)) by lia.
    unfold DNS_COMPRESSION_HEADER_LEN.
    assert (getslice (pre ++ encode_name (l :: raw) ++ post) (len pre + 1)
              (len pre + 1 + len l) = l) as ->.
    { unfold encode_name, encode_label. simpl. rewrite <- !app_assoc.
      change (pre ++ ?b :: l ++ ?r) with (pre ++ [b] ++ l ++ r).
      rewrite (app_assoc pre).
      replace (len pre + 1) with (len (pre ++ pack [len l]))
        by (by rewrite len_app).
      by apply getslice_app. }
    assert (pre ++ encode_name (l :: raw) ++ post
            = (pre ++ encode_label l) ++ encode_name raw ++ post) as ->.
    { unfold encode_name. cbn [map concat]. by rewrite <- !app_assoc. }
    replace (len pre + (1 + len l)) with (len (pre ++ encode_label l))
      by (rewrite len_app, len_encode_label; lia).
    rewrite IH by (done || simpl in Hf; lia).
    rewrite len_app, len_encode_label, len_encode_name_cons, <- app_assoc.
    simpl. do 2 f_equal. lia.
Qed.

Lemma read_name_uncompressed (s : DNSIncoming) (pre post : bytes)
    (raw : list bytes) :
  data s = pre ++ encode_name raw ++ post ->
  offset s = len pre ->
  Forall label_ok raw ->
  _read_name s =
    (if MAX_NAME_LENGTH <? len (name_of raw)
     then Raise IncomingDecodeError else Return (name_of raw),
     set_name_cache (<[offset s := map decode_replace raw]> (name_cache s))
       (set_offset (offset s + len (encode_name raw)) s)).
Proof.
  intros Hd Ho Hok. unfold _read_name. rewrite Hd, Ho.
  rewrite (decode_name_fuel (S (length raw)))
    by (by rewrite decode_uncompressed by (done || lia)).
  rewrite decode_uncompressed by (done || lia). simpl.
  unfold name_of. by destruct (MAX_NAME_LENGTH <? _).
Qed.

(** X16: a name written without compression (each label as its length,
    between 1 and 63, and its bytes, then a zero byte) is read back as its
    labels joined and ended by dots, with the cursor just after the zero
    byte and the labels cached under the offset of the name, whatever
    surrounds the name in the buffer and whatever the cache holds; when the
    dotted name is longer than 253 characters the read raises
    IncomingDecodeError instead, with the same cursor and cache. The limit of
    128 labels plays no part here: it is checked at pointers only. *)
Theorem uncompressed_name_round_trip (s : DNSIncoming) (pre post : bytes)
    (raw : list bytes) :
  data s = pre ++ encode_name raw ++ post ->
  offset s = len pre ->
  Forall label_ok raw ->
  _read_name s =
    (if MAX_NAME_LENGTH <? len (name_of raw)
     then Raise IncomingDecodeError else Return (name_of raw),
     set_name_cache (<[offset s := map decode_replace raw]> (name_cache s))
       (set_offset (offset s + len (encode_name raw)) s)).
Proof. apply read_name_uncompressed. Qed.

Lemma uncompressed_name_round_trip_witness :
  _read_name (at_name query_packet 12) =
    (Return [97; 46],
     set_name_cache (<[12 := [[97]]]> ∅) (set_offset 15 (at_name query_packet 12))).
Proof.
  apply (uncompressed_name_round_trip (at_name query_packet 12)
           (pack [0; 0; 0; 0; 0; 1; 0; 1; 0; 0; 0; 0]) (pack [0; 1; 0; 1])
           [pack [97]]).
  - reflexivity.
  - reflexivity.
  - repeat constructor.
Defined.

Lemma offset_set_offset o s : offset (set_offset o s) = o.
Proof. by destruct s. Qed.

Lemma data_set_offset o s : data (set_offset o s) = data s.
Proof. by destruct s. Qed.

Lemma unpack_run {A} (u : bytes -> Z -> option A) (n : Z) (s : DNSIncoming) :
  _unpack u n s =
    match u (data s) (offset s) with
    | Some v => (Return v, set_offset (offset s + n) s)
    | None => (Raise struct_error, set_offset (offset s + n) s)
    end.
Proof.
  unfold _unpack, bind, modify, get_or_raise.
  replace (data (set_offset (offset s + n) s)) with (data s) by (by destruct s).
  replace (offset (set_offset (offset s + n) s) - n) with (offset s)
    by (destruct s; simpl; lia).
  by destruct (u _ _).
Qed.

Lemma unpack_HH_encode (pre rest : bytes) (a b : Z) :
  is_u16 a -> is_u16 b ->
  UNPACK_HH (pre ++ u16 a ++ u16 b ++ rest) (len pre) = Some (a, b).
Proof.
  intros Ha Hb. unfold UNPACK_HH, unpack_from.
  pose proof (len_nonneg pre). pose proof (len_nonneg rest).
  rewrite (proj2 (Z.ltb_ge (len pre) 0)) by lia.
  assert ((len (pre ++ u16 a ++ u16 b ++ rest) - len pre <? 4) = false) as ->.
  { apply Z.ltb_ge. rewrite !len_app. change (len (u16 _)) with 2. lia. }
  unfold len at 1. rewrite Nat2Z.id, drop_app_length.
  cbn [mbind option_bind option_ret mret].
  change (take (Z.to_nat 4) (u16 a ++ u16 b ++ rest)) with (u16 a ++ u16 b).
  change (field (u16 a ++ u16 b) 0 2) with (u16 a).
  change (field (u16 a ++ u16 b) 2 2) with (u16 b).
  by rewrite !be_uint_u16.
Qed.

Lemma len_encode_question (q : question_spec) :
  len (encode_question q) = len (encode_name q.1.1) + 4.
Proof.
  unfold encode_question. rewrite !len_app. change (len (u16 _)) with 2. lia.
Qed.

(** The comprehension of [_read_questions] on written questions. *)
Lemma read_question_list_encode (qs : list question_spec) :
  forall (pre rest : bytes) (s : DNSIncoming),
    data s = pre ++ concat (map encode_question qs) ++ rest ->
    offset s = len pre ->
    Forall question_ok qs ->
    exists cache,
      read_question_list (length qs) s =
        (Return (map question_of qs),
         set_name_cache cache
           (set_offset (offset s + len (concat (map encode_question qs))) s)).
Proof.
  induction qs as [|[[raw t] c] qs IH]; intros pre rest s Hd Ho Hok.
  { exists (name_cache s). simpl. unfold ret. f_equal.
    change (len []) with 0. rewrite Z.add_0_r. by destruct s. }
  apply Forall_cons in Hok as [(Hl & Hn & Ht & Hc) Hok]. simpl in Hl, Hn, Ht, Hc.
  cbn [map concat] in *. unfold encode_question at 1 in Hd. cbn [fst snd] in Hd.
  rewrite <- !app_assoc in Hd.
  cbn [length read_question_list]. unfold bind at 1.
  rewrite (read_name_uncompressed s pre _ raw Hd Ho Hl).
  rewrite (proj2 (Z.ltb_ge _ _) Hn).
  set (s1 := set_name_cache _ _).
  assert (data s1 = data s) as Hd1 by (by destruct s).
  assert (offset s1 = len (pre ++ encode_name raw)) as Ho1.
  { rewrite len_app, <- Ho. by destruct s. }
  unfold bind at 1. rewrite unpack_run, Hd1, Ho1, Hd, app_assoc.
  rewrite unpack_HH_encode by done.
  set (s2 := set_offset _ s1).
  destruct (IH (pre ++ encode_question (raw, t, c)) rest s2) as [cache IHq].
  - unfold s2. rewrite data_set_offset, Hd1, Hd. unfold encode_question. cbn [fst snd]. by rewrite <- !app_assoc.
  - unfold s2. rewrite offset_set_offset, !len_app, len_encode_question.
    cbn [fst snd]. lia.
  - done.
  - exists cache. unfold bind, ret. rewrite IHq. f_equal.
    unfold s2, s1.
    rewrite offset_set_offset, !len_app, len_encode_question, <- Ho.
    cbn [fst snd]. destruct s. unfold set_name_cache, set_offset. simpl.
    f_equal. lia.
Qed.

(** X17: a query written as a header with the number of its questions
    and no record, followed by the questions (uncompressed name of at most
    253 characters, 16-bit type and class), is decoded in full by the
    constructor: the message is valid, its questions are the written ones in
    order, its header fields the written ones, its cursor just after the last
    question, and the record section is left unread, unless there is no
    question, in which case it was read and found empty. Bytes after the
    questions are ignored. *)
Theorem query_round_trip (i f : Z) (qs : list question_spec) (rest : bytes)
    (src : option (str * Z)) (sc nw : option Z) (clk : Z) :
  is_u16 i -> is_u16 f -> is_u16 (len qs) -> Forall question_ok qs ->
  exists cache,
    __init__ (encode_query i f qs ++ rest) src sc nw clk =
      (Return tt,
       mkDNSIncoming (len qs =? 0) f (len (encode_query i f qs))
         (encode_query i f qs ++ rest) cache (map question_of qs) [] i (len qs)
         0 0 0 true (now (new_object [] src sc nw clk)) sc src).
Proof.
  intros Hi Hf Hq Hok. unfold __init__, try_except.
  rewrite initial_parse_run, read_header_run.
  set (s0 := new_object _ src sc nw clk).
  change (data s0) with (encode_query i f qs ++ rest).
  change (offset s0) with 0.
  unfold encode_query at 1. rewrite <- app_assoc.
  rewrite unpack_6H_encode by (unfold is_u16 in *; lia).
  set (s1 := set_header _ _).
  unfold _read_questions, bind at 1, get. unfold bind at 1.
  change (num_questions s1) with (len qs). unfold len at 1. rewrite Nat2Z.id.
  destruct (read_question_list_encode qs (encode_header (i, f, len qs, 0, 0, 0))
              rest s1) as [cache Hqs]; [by unfold encode_query|done|done|].
  rewrite Hqs. unfold modify.
  set (s2 := set_questions _ _).
  change (num_questions s2) with (len qs).
  exists cache. destruct (len qs =? 0) eqn:E0.
  - rewrite read_others_unfold.
    change (num_answers s2 + num_authorities s2 + num_additionals s2) with 0.
    change (Z.to_nat 0) with 0%nat. cbn [repeat_m]. unfold ret. f_equal.
    unfold s2, s1, s0, encode_query. rewrite len_app.
    change (len (encode_header _)) with 12. reflexivity.
  - f_equal. unfold s2, s1, s0, encode_query. rewrite len_app.
    change (len (encode_header _)) with 12. reflexivity.
Qed.

Lemma query_round_trip_witness :
  exists cache,
    __init__ (encode_query 7 0 [([pack [97]; pack [98; 99]], 12, 1); ([pack [100]], 1, 1)]
                ++ pack [9])
      None None None 5 =
      (Return tt,
       mkDNSIncoming false 0 29
         (encode_query 7 0 [([pack [97]; pack [98; 99]], 12, 1); ([pack [100]], 1, 1)]
            ++ pack [9])
         cache [DNSQuestion [97; 46; 98; 99; 46] 12 1; DNSQuestion [100; 46] 1 1]
         [] 7 2 0 0 0 true 5 None None).
Proof.
  apply (query_round_trip 7 0 [([pack [97]; pack [98; 99]], 12, 1); ([pack [100]], 1, 1)]
           (pack [9]) None None None 5).
  - unfold is_u16. lia.
  - unfold is_u16. lia.
  - by vm_compute.
  - repeat constructor; by vm_compute.
Defined.

(** ** Well-formed names *)




(** ** The logger *)

Lemma log_lookup args info seen k :
  (_log_exception_debug args info seen).2 !! k =
    match seen !! k with
    | Some v => Some v
    | None => if decide (k = exc_str info) then Some info else None
    end.
Proof.
  unfold _log_exception_debug.
  destruct (seen !! exc_str info) as [v|] eqn:E; simpl.
  - destruct (seen !! k) eqn:Ek; [done|].
    destruct (decide _) as [->|]; [congruence|done].
  - rewrite lookup_insert. destruct (decide (exc_str info = k)) as [<-|Hne].
    + rewrite E. by rewrite decide_True.
    + destruct (seen !! k); [done|]. by rewrite decide_False.
Qed.

Lemma log_all_keeps calls seen k v :
  seen !! k = Some v -> (log_all calls seen).2 !! k = Some v.
Proof.
  revert seen. induction calls as [|[args info] calls IH]; intros seen H; [done|].
  simpl. apply IH. by rewrite log_lookup, H.
Qed.

Lemma log_all_call calls :
  forall seen i args info,
    calls !! i = Some (args, info) ->
    exists c,
      (log_all calls seen).1 !! i = Some c /\
      log_args c = passed_on args /\
      (log_exc_info c = true <->
       seen !! exc_str info = None /\
       Forall (fun p => exc_str p.2 <> exc_str info) (take i calls)).
Proof.
  induction calls as [|[a0 i0] calls IH]; intros seen i args info Hi; [done|].
  destruct i as [|i].
  - injection Hi as -> ->. simpl. eexists. split; [done|].
    unfold _log_exception_debug.
    destruct (seen !! exc_str info); simpl; (split; [done|]); split;
      try done; by intros [? _].
  - simpl in Hi.
    destruct (IH (_log_exception_debug a0 i0 seen).2 i args info Hi)
      as (c & Hc & Ha & Hf).
    exists c. simpl. split; [done|]. split; [done|].
    rewrite Hf, log_lookup, Forall_cons. simpl.
    destruct (seen !! exc_str info); [by split; intros [? ?]|].
    destruct (decide _) as [->|Hne].
    + split; [by intros [? _]|]. by intros (_ & ? & _).
    + split; [intros [_ ?]|intros (_ & _ & ?)]; split_and!; done.
Qed.

(** X19: over any run of handlers, a call of the logger asks for the
    traceback exactly when the message of its exception is not in
    [_seen_logs] at the start and no earlier call of the run had the same
    message; it passes its arguments on, or the text 'Exception occurred'
    when it has none; and no entry of [_seen_logs] is ever removed or
    replaced. *)
Theorem traceback_logged_once (calls : list (list log_arg * exc_info))
    (seen : gmap string exc_info) :
  (forall i args info,
     calls !! i = Some (args, info) ->
     exists c,
       (log_all calls seen).1 !! i = Some c /\
       log_args c = passed_on args /\
       (log_exc_info c = true <->
        seen !! exc_str info = None /\
        Forall (fun p => exc_str p.2 <> exc_str info) (take i calls))) /\
  (forall k v, seen !! k = Some v -> (log_all calls seen).2 !! k = Some v).
Proof.
  split.
  - intros i args info. apply log_all_call.
  - intros k v. apply log_all_keeps.
Qed.

Lemma traceback_logged_once_witness :
  exists c,
    (log_all [([LogInt 1], mkExcInfo IndexError "index out of range");
              ([], mkExcInfo IndexError "index out of range")] ∅).1 !! 1%nat
      = Some c /\
    log_args c = [LogText "Exception occurred"] /\
    log_exc_info c = false.
Proof.
  destruct (traceback_logged_once
              [([LogInt 1], mkExcInfo IndexError "index out of range");
               ([], mkExcInfo IndexError "index out of range")] ∅) as [H _].
  destruct (H 1%nat [] (mkExcInfo IndexError "index out of range") eq_refl)
    as (c & Hc & Ha & Hf).
  exists c. split; [exact Hc|]. split; [exact Ha|].
  destruct (log_exc_info c); [|done].
  destruct (proj1 Hf eq_refl) as [_ Hall].
  apply Forall_cons in Hall as [Hne _]. by destruct Hne.
Defined.

(** ** Printing *)






(** ** Written responses *)

Lemma unpack_from_app (pre blk rest : bytes) (n : Z) :
  len blk = n -> unpack_from n (pre ++ blk ++ rest) (len pre) = Some blk.
Proof.
  intros <-. unfold unpack_from.
  pose proof (len_nonneg pre). pose proof (len_nonneg rest).
  rewrite (proj2 (Z.ltb_ge (len pre) 0)) by lia.
  assert ((len (pre ++ blk ++ rest) - len pre <? len blk) = false) as ->.
  { apply Z.ltb_ge. rewrite !len_app. lia. }
  unfold len. rewrite !Nat2Z.id, drop_app_length. by rewrite take_app_length.
Qed.

Lemma be_sint4_i32 (v : Z) : - 2 ^ 31 <= v < 2 ^ 31 -> be_sint 4 (i32 v) = v.
Proof.
  intros Hv. unfold be_sint.
  assert (be_uint (i32 v) = v mod 2 ^ 32) as ->.
  { unfold be_uint, i32, u16, pack. simpl fold_left.
    pose proof (Z.mod_pos_bound v (2 ^ 32) ltac:(lia)).
    rewrite !ord_pack_byte; Z.div_mod_to_equations; lia. }
  change (8 * 4 - 1) with 31. change (8 * 4) with 32.
  destruct (_ <? 2 ^ 31) eqn:E; [apply Z.ltb_lt in E|apply Z.ltb_ge in E];
    Z.div_mod_to_equations; lia.
Qed.

Lemma unpack_HHiH_encode (pre rest : bytes) (t c ttl l : Z) :
  is_u16 t -> is_u16 c -> - 2 ^ 31 <= ttl < 2 ^ 31 -> is_u16 l ->
  UNPACK_HHiH (pre ++ (u16 t ++ u16 c ++ i32 ttl ++ u16 l) ++ rest) (len pre)
  = Some (t, c, ttl, l).
Proof.
  intros Ht Hc Httl Hl. unfold UNPACK_HHiH.
  rewrite unpack_from_app by done.
  cbn [mbind option_bind option_ret mret].
  change (field (u16 t ++ u16 c ++ i32 ttl ++ u16 l) 0 2) with (u16 t).
  change (field (u16 t ++ u16 c ++ i32 ttl ++ u16 l) 2 2) with (u16 c).
  change (field (u16 t ++ u16 c ++ i32 ttl ++ u16 l) 4 4) with (i32 ttl).
  change (field (u16 t ++ u16 c ++ i32 ttl ++ u16 l) 8 2) with (u16 l).
  by rewrite !be_uint_u16, be_sint4_i32.
Qed.

Lemma unpack_3H_encode (pre rest : bytes) (a b c : Z) :
  is_u16 a -> is_u16 b -> is_u16 c ->
  UNPACK_3H (pre ++ (u16 a ++ u16 b ++ u16 c) ++ rest) (len pre) = Some (a, b, c).
Proof.
  intros Ha Hb Hc. unfold UNPACK_3H.
  rewrite unpack_from_app by done.
  cbn [mbind option_bind option_ret mret].
  change (field (u16 a ++ u16 b ++ u16 c) 0 2) with (u16 a).
  change (field (u16 a ++ u16 b ++ u16 c) 2 2) with (u16 b).
  change (field (u16 a ++ u16 b ++ u16 c) 4 2) with (u16 c).
  by rewrite !be_uint_u16.
Qed.

(** [_read_record] on a written payload. *)
Lemma read_record_encode (domain : str) (class_ ttl : Z) (rd : rdata_spec)
    (pre rest : bytes) (s : DNSIncoming) :
  data s = pre ++ encode_rdata rd ++ rest ->
  offset s = len pre ->
  rdata_ok rd ->
  exists cache,
    _read_record domain (rdata_type rd) class_ ttl (len (encode_rdata rd)) s =
      (Return (Some (build_record domain class_ ttl rd (now s) (scope_id s))),
       set_name_cache cache (set_offset (offset s + len (encode_rdata rd)) s)).
Proof.
  intros Hd Ho Hok. unfold _read_record, bind at 1, get.
  destruct rd as [a|a|t alias|text|p w po srv]; cbn [rdata_type encode_rdata] in *.
  - change (_TYPE_A =? _TYPE_A) with true. cbv iota.
    unfold bind, ret. rewrite read_string_run, Hd, Ho.
    rewrite getslice_app by done. simpl in Hok. rewrite Hok.
    exists (name_cache s). simpl. by destruct s.
  - change (_TYPE_AAAA =? _TYPE_A) with false.
    change ((_TYPE_AAAA =? _TYPE_CNAME) || (_TYPE_AAAA =? _TYPE_PTR)) with false.
    change (_TYPE_AAAA =? _TYPE_TXT) with false.
    change (_TYPE_AAAA =? _TYPE_SRV) with false.
    change (_TYPE_AAAA =? _TYPE_HINFO) with false.
    change (_TYPE_AAAA =? _TYPE_AAAA) with true. cbv iota.
    unfold bind, ret, get. rewrite read_string_run, Hd, Ho.
    rewrite getslice_app by done. simpl in Hok. rewrite Hok.
    exists (name_cache s). simpl. by destruct s.
  - destruct Hok as [Ht [Hl Hn]].
    assert ((t =? _TYPE_A) = false) as ->
      by (destruct Ht as [-> | ->]; reflexivity).
    assert ((t =? _TYPE_CNAME) || (t =? _TYPE_PTR) = true) as ->
      by (destruct Ht as [-> | ->]; reflexivity).
    unfold bind, ret. rewrite (read_name_uncompressed s pre rest alias Hd Ho Hl).
    rewrite (proj2 (Z.ltb_ge _ _) Hn). simpl. eexists. reflexivity.
  - change (_TYPE_TXT =? _TYPE_A) with false.
    change ((_TYPE_TXT =? _TYPE_CNAME) || (_TYPE_TXT =? _TYPE_PTR)) with false.
    change (_TYPE_TXT =? _TYPE_TXT) with true. cbv iota.
    unfold bind, ret. rewrite read_string_run, Hd, Ho.
    rewrite getslice_app by done.
    exists (name_cache s). simpl. by destruct s.
  - destruct Hok as (Hp & Hw & Hpo & Hl & Hn).
    change (_TYPE_SRV =? _TYPE_A) with false.
    change ((_TYPE_SRV =? _TYPE_CNAME) || (_TYPE_SRV =? _TYPE_PTR)) with false.
    change (_TYPE_SRV =? _TYPE_TXT) with false.
    change (_TYPE_SRV =? _TYPE_SRV) with true. cbv iota.
    rewrite <- !app_assoc in Hd.
    unfold bind at 1. rewrite unpack_run, Hd, Ho.
    rewrite (app_assoc (u16 p)), (app_assoc (u16 p ++ u16 w)), <- (app_assoc (u16 p)).
    rewrite unpack_3H_encode by done.
    set (s1 := set_offset _ s).
    unfold bind, ret.
    rewrite (read_name_uncompressed s1 (pre ++ u16 p ++ u16 w ++ u16 po) rest srv).
    + rewrite (proj2 (Z.ltb_ge _ _) Hn). cbn [fst snd].
      exists (<[offset s1 := map decode_replace srv]> (name_cache s1)).
      f_equal. unfold s1. rewrite !len_app. change (len (u16 _)) with 2.
      destruct s. unfold set_name_cache, set_offset. simpl. f_equal. lia.
    + unfold s1. rewrite data_set_offset, Hd. by rewrite <- !app_assoc.
    + unfold s1. rewrite offset_set_offset, !len_app.
      change (len (u16 _)) with 2. lia.
    + done.
Qed.

Lemma len_encode_record (r : record_spec) :
  len (encode_record r) =
    len (encode_name (rs_name r)) + 10 + len (encode_rdata (rs_rdata r)).
Proof.
  unfold encode_record. rewrite !len_app.
  change (len (u16 _)) with 2. change (len (i32 _)) with 4. lia.
Qed.

Lemma rdata_type_u16 (rd : rdata_spec) : rdata_ok rd -> is_u16 (rdata_type rd).
Proof.
  destruct rd as [a|a|t alias|text|p w po srv]; simpl; unfold is_u16;
    try (intros; cbv; split; congruence).
  intros [[-> | ->] _]; cbv; split; congruence.
Qed.

Lemma state_ext (s t : DNSIncoming) :
  _did_read_others s = _did_read_others t -> flags s = flags t ->
  offset s = offset t -> data s = data t -> name_cache s = name_cache t ->
  questions s = questions t -> _answers s = _answers t -> id s = id t ->
  num_questions s = num_questions t -> num_answers s = num_answers t ->
  num_authorities s = num_authorities t ->
  num_additionals s = num_additionals t -> valid s = valid t ->
  now s = now t -> scope_id s = scope_id t -> source s = source t ->
  s = t.
Proof. destruct s, t. simpl. by intros -> -> -> -> -> -> -> -> -> -> -> -> -> -> -> ->. Qed.

(** Reduces the fields of an object built by nested updates, one field at
    a time. *)
Ltac fields :=
  lazy beta iota delta
    [set_did_read_others set_offset set_name_cache set_questions set_answers
     set_header set_valid
     _did_read_others flags offset data name_cache questions _answers id
     num_questions num_answers num_authorities num_additionals valid now
     scope_id source].

(** An iteration of the record loop on a written record. *)
Lemma read_other_encode (r : record_spec) (pre rest : bytes) (s : DNSIncoming) :
  data s = pre ++ encode_record r ++ rest ->
  offset s = len pre ->
  record_spec_ok r ->
  exists cache,
    read_other s =
      (Return tt,
       set_answers (_answers s ++ [record_of (now s) (scope_id s) r])
         (set_name_cache cache (set_offset (offset s + len (encode_record r)) s))).
Proof.
  destruct r as [raw cl ttl rd].
  intros Hd Ho ((Hl & Hn) & Hcl & Httl & Hlen & Hrd).
  cbn [rs_name rs_class rs_ttl rs_rdata] in *.
  unfold encode_record in Hd. cbn [rs_name rs_class rs_ttl rs_rdata] in Hd.
  rewrite <- (app_assoc (encode_name raw)) in Hd.
  rewrite <- (app_assoc (u16 _ ++ _)) in Hd.
  unfold read_other, bind at 1.
  rewrite (read_name_uncompressed s pre _ raw Hd Ho Hl).
  rewrite (proj2 (Z.ltb_ge _ _) Hn).
  set (s1 := set_name_cache _ _).
  assert (data s1 = data s) as Hd1 by (by destruct s).
  assert (offset s1 = len (pre ++ encode_name raw)) as Ho1.
  { rewrite len_app, <- Ho. by destruct s. }
  assert (now s1 = now s /\ scope_id s1 = scope_id s /\ _answers s1 = _answers s)
    as (Hnow & Hsc & Hans) by (by destruct s).
  unfold bind at 1, get_or_raise. rewrite Hd1, Ho1, Hd, (app_assoc pre).
  rewrite unpack_HHiH_encode by (done || by apply rdata_type_u16).
  unfold bind at 1, modify. unfold bind at 1, get.
  set (s2 := set_offset _ s1).
  destruct (read_record_encode (name_of raw) cl ttl rd
              ((pre ++ encode_name raw)
               ++ u16 (rdata_type rd) ++ u16 cl ++ i32 ttl
               ++ u16 (len (encode_rdata rd)))
              rest s2) as [cache Hrec].
  - unfold s2. rewrite data_set_offset, Hd1, Hd. by rewrite <- !app_assoc.
  - unfold s2. rewrite offset_set_offset, Ho1, !len_app.
    change (len (u16 _)) with 2. change (len (i32 _)) with 4. lia.
  - done.
  - unfold bind at 1, try_except. rewrite Hrec.
    exists cache. unfold modify. f_equal.
    unfold record_of. cbn [rs_name rs_class rs_ttl rs_rdata].
    rewrite len_encode_record. cbn [rs_name rs_class rs_ttl rs_rdata].
    unfold s2, s1. clear Hrec Hd1 Ho1 Hnow Hsc Hans s2 s1 Hd.
    apply state_ext; destruct s; fields; try reflexivity. lia.
Qed.

(** The record loop on written records. *)
Lemma repeat_read_other_encode (rs : list record_spec) :
  forall (pre rest : bytes) (s : DNSIncoming),
    data s = pre ++ concat (map encode_record rs) ++ rest ->
    offset s = len pre ->
    Forall record_spec_ok rs ->
    exists cache,
      repeat_m (length rs) read_other s =
        (Return tt,
         set_answers (_answers s ++ map (record_of (now s) (scope_id s)) rs)
           (set_name_cache cache
              (set_offset (offset s + len (concat (map encode_record rs))) s))).
Proof.
  induction rs as [|r rs IH]; intros pre rest s Hd Ho Hok.
  { exists (name_cache s). simpl. unfold ret. f_equal.
    change (len []) with 0. rewrite Z.add_0_r, app_nil_r. by destruct s. }
  apply Forall_cons in Hok as [Hr Hok].
  cbn [map concat length repeat_m] in *. rewrite <- app_assoc in Hd.
  destruct (read_other_encode r pre _ s Hd Ho Hr) as [c1 H1].
  unfold bind. rewrite H1.
  set (s1 := set_answers _ _).
  destruct (IH (pre ++ encode_record r) rest s1) as [cache H2].
  - transitivity (data s); [by destruct s|]. by rewrite Hd, <- app_assoc.
  - rewrite len_app, <- Ho. by destruct s.
  - done.
  - exists cache. rewrite H2. f_equal. unfold s1. rewrite len_app.
    clear H1 H2 s1 Hd Ho.
    apply state_ext; destruct s; fields; try reflexivity; [lia|].
    by rewrite <- app_assoc.
Qed.

(** X21: a response written as a header with no question and the counts
    of its three record sections, followed by that many records (each an
    uncompressed name, type, class, TTL, payload length and payload: a 4- or
    16-byte address, the uncompressed name of a CNAME or PTR record, a text,
    or priority, weight, port and uncompressed server name of a service), is
    decoded in full by the constructor: the message is valid, its records
    are the written ones in order, stamped with the time of construction,
    AAAA records carrying the scope of the message; the cursor is just after
    the last record, and bytes after it are ignored. *)
Theorem response_round_trip (i f nan nau nad : Z) (rs : list record_spec)
    (rest : bytes) (src : option (str * Z)) (sc nw : option Z) (clk : Z) :
  is_u16 i -> is_u16 f -> is_u16 nan -> is_u16 nau -> is_u16 nad ->
  nan + nau + nad = len rs ->
  Forall record_spec_ok rs ->
  exists cache,
    __init__ (encode_response i f nan nau nad rs ++ rest) src sc nw clk =
      (Return tt,
       mkDNSIncoming true f (len (encode_response i f nan nau nad rs))
         (encode_response i f nan nau nad rs ++ rest) cache []
         (map (record_of (now (new_object [] src sc nw clk)) sc) rs)
         i 0 nan nau nad true (now (new_object [] src sc nw clk)) sc src).
Proof.
  intros Hi Hf Hna Hnu Hnd Hsum Hok. unfold __init__, try_except.
  rewrite initial_parse_run, read_header_run.
  set (s0 := new_object _ src sc nw clk).
  change (data s0) with (encode_response i f nan nau nad rs ++ rest).
  change (offset s0) with 0.
  unfold encode_response at 1. rewrite <- app_assoc.
  rewrite unpack_6H_encode by (unfold is_u16 in *; lia).
  set (s1 := set_header _ _).
  unfold _read_questions, bind at 1, get. unfold bind at 1.
  change (num_questions s1) with 0. change (Z.to_nat 0) with 0%nat.
  cbn [read_question_list]. unfold ret, modify.
  set (s2 := set_questions _ _).
  change (num_questions s2 =? 0) with true. cbv iota.
  rewrite read_others_unfold.
  change (num_answers s2 + num_authorities s2 + num_additionals s2)
    with (nan + nau + nad).
  rewrite Hsum. unfold len at 1. rewrite Nat2Z.id.
  destruct (repeat_read_other_encode rs (encode_header (i, f, 0, nan, nau, nad))
              rest (set_did_read_others true s2)) as [cache Hrs];
    [by unfold encode_response|done|done|].
  rewrite Hrs. exists cache. f_equal.
  unfold encode_response. rewrite len_app.
  change (len (encode_header _)) with 12. reflexivity.
Qed.

Lemma response_round_trip_witness :
  exists cache,
    __init__ (encode_response 7 0x8400 1 1 1 written_records ++ pack [9])
      None (Some 3) None 5 =
      (Return tt,
       mkDNSIncoming true 0x8400 67
         (encode_response 7 0x8400 1 1 1 written_records ++ pack [9]) cache []
         [DNSAddress [97; 46] 1 1 120 (pack [10; 11; 12; 13]) 5 None;
          DNSPointer [97; 46] 12 1 (-1) [98; 46] 5;
          DNSService [97; 46] 33 1 120 0 5 8080 [98; 46] 5]
         7 0 1 1 1 true 5 (Some 3) None).
Proof.
  apply (response_round_trip 7 0x8400 1 1 1 written_records (pack [9])
           None (Some 3) None 5).
  - unfold is_u16. lia.
  - unfold is_u16. lia.
  - unfold is_u16. lia.
  - unfold is_u16. lia.
  - unfold is_u16. lia.
  - reflexivity.
  - repeat constructor; by vm_compute.
Defined.

(** ** ASCII texts *)

Lemma utf8_scan_ascii (l : list Z) :
  Forall (fun b => b < 0x80) l -> utf8_scan l = map Some l.
Proof.
  induction 1 as [|b l Hb _ IH]; [done|].
  cbn [utf8_scan map]. by rewrite (proj2 (Z.ltb_lt _ _) Hb), IH.
Qed.

Lemma decode_ascii (bs : bytes) :
  is_ascii bs ->
  decode_replace bs = map ord bs /\ decode_strict bs = Some (map ord bs).
Proof.
  intros H. unfold decode_replace, decode_strict.
  rewrite utf8_scan_ascii by (by apply Forall_fmap).
  generalize (map ord bs). intros l. split.
  - induction l as [|x l IH]; [done|]. simpl. by rewrite IH.
  - induction l as [|x l IH]; [done|]. simpl. by rewrite IH.
Qed.

(** X22: an uncompressed name whose labels are ASCII is read back
    byte for byte: the name returned is the labels as written, each
    followed by a dot, and the cached labels are the written ones. *)
Theorem ascii_name_read_as_written (s : DNSIncoming) (pre post : bytes)
    (raw : list bytes) :
  data s = pre ++ encode_name raw ++ post ->
  offset s = len pre ->
  Forall label_ok raw ->
  Forall is_ascii raw ->
  len (join_dot (map (map ord) raw) ++ [dot]) <= MAX_NAME_LENGTH ->
  _read_name s =
    (Return (join_dot (map (map ord) raw) ++ [dot]),
     set_name_cache (<[offset s := map (map ord) raw]> (name_cache s))
       (set_offset (offset s + len (encode_name raw)) s)).
Proof.
  intros Hd Ho Hok Ha Hlen.
  rewrite (read_name_uncompressed s pre post raw Hd Ho Hok). unfold name_of.
  assert (map decode_replace raw = map (map ord) raw) as ->.
  { clear -Ha. induction Ha as [|l raw Hl _ IH]; [done|].
    simpl. by rewrite IH, (proj1 (decode_ascii l Hl)). }
  by rewrite (proj2 (Z.ltb_ge _ _) Hlen).
Qed.

Lemma ascii_name_read_as_written_witness :
  _read_name (at_name query_packet 12) =
    (Return (join_dot (map (map ord) [pack [97]]) ++ [dot]),
     set_name_cache
       (<[offset (at_name query_packet 12) := map (map ord) [pack [97]]]>
          (name_cache (at_name query_packet 12)))
       (set_offset (offset (at_name query_packet 12) + len (encode_name [pack [97]]))
          (at_name query_packet 12))).
Proof.
  apply (ascii_name_read_as_written (at_name query_packet 12)
           (pack [0; 0; 0; 0; 0; 1; 0; 1; 0; 0; 0; 0]) (pack [0; 1; 0; 1])
           [pack [97]]).
  - reflexivity.
  - reflexivity.
  - repeat constructor.
  - repeat constructor.
  - by vm_compute.
Defined.

Lemma read_character_string_encode (bs pre rest : bytes) (s : DNSIncoming) :
  data s = pre ++ encode_character_string bs ++ rest ->
  offset s = len pre ->
  len bs < 256 ->
  _read_character_string s =
    (Return bs, set_offset (offset s + (1 + len bs)) s).
Proof.
  intros Hd Ho Hl. pose proof (len_nonneg bs).
  unfold _read_character_string, bind at 1, get_or_raise.
  unfold encode_character_string in Hd. rewrite <- app_assoc in Hd.
  rewrite Hd, Ho. change (pack [len bs] ++ bs ++ rest)
    with (default x00 (Byte.of_N (Z.to_N (len bs))) :: bs ++ rest).
  rewrite getitem_app, ord_pack_byte by lia.
  unfold bind, modify. rewrite read_string_run, data_set_offset, offset_set_offset.
  rewrite Hd, Ho.
  change (pre ++ pack [len bs] ++ bs ++ rest)
    with (pre ++ [default x00 (Byte.of_N (Z.to_N (len bs)))] ++ bs ++ rest).
  rewrite (app_assoc pre).
  replace (len pre + 1) with (len (pre ++ [default x00 (Byte.of_N (Z.to_N (len bs)))]))
    by (by rewrite len_app).
  rewrite getslice_app by done. f_equal.
  rewrite len_app. change (len [_]) with 1.
  apply state_ext; destruct s; fields; try reflexivity. lia.
Qed.

(** X23: an HINFO payload of two character strings (a length byte and
    that many bytes each) whose bytes are ASCII is decoded into the record
    with these two texts, and the cursor ends just after the second string:
    the declared payload length is not looked at. *)
Theorem hinfo_ascii_decoded (domain : str) (class_ ttl length : Z)
    (cpu os pre rest : bytes) (s : DNSIncoming) :
  data s = pre ++ encode_hinfo cpu os ++ rest ->
  offset s = len pre ->
  len cpu < 256 -> len os < 256 ->
  is_ascii cpu -> is_ascii os ->
  _read_record domain _TYPE_HINFO class_ ttl length s =
    (Return (Some (DNSHinfo domain _TYPE_HINFO class_ ttl (map ord cpu)
                     (map ord os) (now s))),
     set_offset (offset s + len (encode_hinfo cpu os)) s).
Proof.
  intros Hd Ho Hc Hos Hac Hao.
  unfold encode_hinfo in Hd. rewrite <- app_assoc in Hd.
  unfold _read_record, bind at 1, get.
  change (_TYPE_HINFO =? _TYPE_A) with false.
  change ((_TYPE_HINFO =? _TYPE_CNAME) || (_TYPE_HINFO =? _TYPE_PTR)) with false.
  change (_TYPE_HINFO =? _TYPE_TXT) with false.
  change (_TYPE_HINFO =? _TYPE_SRV) with false.
  change (_TYPE_HINFO =? _TYPE_HINFO) with true. cbv iota.
  unfold bind at 1.
  rewrite (read_character_string_encode cpu pre _ s Hd Ho Hc).
  unfold bind at 1, decode_utf8, get_or_raise.
  rewrite (proj2 (decode_ascii cpu Hac)).
  set (s1 := set_offset _ s).
  unfold bind at 1.
  rewrite (read_character_string_encode os (pre ++ encode_character_string cpu)
             rest s1).
  - unfold bind, get_or_raise, ret. rewrite (proj2 (decode_ascii os Hao)).
    f_equal. unfold s1, encode_hinfo, encode_character_string.
    rewrite !len_app. change (len (pack [_])) with 1.
    apply state_ext; destruct s; fields; try reflexivity. lia.
  - unfold s1. rewrite data_set_offset, Hd. by rewrite <- app_assoc.
  - unfold s1. rewrite offset_set_offset, Ho, len_app.
    unfold encode_character_string. rewrite len_app.
    change (len (pack [_])) with 1. lia.
  - done.
Qed.

Lemma hinfo_ascii_decoded_witness :
  _read_record [97; 46] _TYPE_HINFO 1 120 0
    (at_name (pack [2; 120; 121; 1; 122; 7]) 0) =
    (Return (Some (DNSHinfo [97; 46] _TYPE_HINFO 1 120
                     (map ord (pack [120; 121])) (map ord (pack [122]))
                     (now (at_name (pack [2; 120; 121; 1; 122; 7]) 0)))),
     set_offset
       (offset (at_name (pack [2; 120; 121; 1; 122; 7]) 0)
        + len (encode_hinfo (pack [120; 121]) (pack [122])))
       (at_name (pack [2; 120; 121; 1; 122; 7]) 0)).
Proof.
  apply (hinfo_ascii_decoded [97; 46] 1 120 0 (pack [120; 121]) (pack [122])
           [] (pack [7])).
  - reflexivity.
  - reflexivity.
  - by vm_compute.
  - by vm_compute.
  - repeat constructor.
  - repeat constructor.
Defined.
